(** * MainProcessor: the sampler / clock audio worklet of embryo-player-v4

    A shallow embedding of [class MainProcessor] (src/src/main.ts, the
    AudioWorklet part of the file) together with the properties of its
    message handler and of its [process] callback.

    Conventions of the embedding.
    - A JavaScript [number] that carries audio or timing data is an IEEE-754
      binary64 value: Rocq's primitive [float], with [PrimFloat.add], [sub],
      [mul], [div], [leb], [ltb], [eqb].  A [Float32Array] is a [list float];
      a store into it rounds to binary32 ([fround]), an out-of-range store is
      ignored and an out-of-range load yields [undefined], which the
      arithmetic that follows turns into NaN.
    - Numbers that are only ever used as array indices or counters
      ([bufferIndex], [visSlot], [currentBeat]) are [nat].
    - [Map<string, T>] is [gmap string T]; pad identifiers are strings of
      code units below 256.
    - [port.postMessage] appends to a list of events returned next to the
      new state; the text of a LOG message is kept as the values that the
      template string interpolates.
    - A [TypeError] raised inside [process] is [None]. *)

From Stdlib Require Import ZArith Floats Ascii String DecimalString Lia.
From stdpp Require Import base option list gmap strings.

Set Warnings "-inexact-float,-abstract-large-number".

(** ** Numbers and typed arrays *)

(** [Math.fround]: the value a [Float32Array] keeps of a stored double
    (round to nearest, ties to even, binary32 range). *)
Definition fround (x : float) : float :=
  match Prim2SF x with
  | S754_finite s m e =>
      SF2Prim (binary_normalize 24 128 (cond_Zopp s (Zpos m)) e s)
  | _ => x
  end.

Abbreviation Float32Array := (list float) (only parsing).

(** [arr[i]] followed by arithmetic: [undefined] behaves as NaN. *)
Definition readSample (arr : Float32Array) (i : nat) : float :=
  default PrimFloat.nan (arr !! i).

(** [arr[i] += x] on a [Float32Array]. *)
Definition accumulate (i : nat) (x : float) (arr : Float32Array) : Float32Array :=
  alter (fun y => fround (PrimFloat.add y x)) i arr.

(** [outputs: Float32Array[][]]: index 0 is the stereo mix, 1..16 the
    visualization outputs. *)
Abbreviation Outputs := (list (list (list float))) (only parsing).

(** ** Voices, messages, events *)

Record SampleVoice := mkVoice {
  sampleId : string;
  bufferIndex : nat;
  isPlaying : bool;
  gain : float;
  visSlot : nat
}.

Definition stopVoice (voice : SampleVoice) : SampleVoice :=
  mkVoice (sampleId voice) (bufferIndex voice) false (gain voice) (visSlot voice).

Inductive AudioMessage :=
| TOGGLE_TONE (payload : bool)
| LOAD_SAMPLE (id : string) (buffers : list (list float))
| PLAY_SAMPLE (id : string) (velocity : option float)
| SET_BPM (payload : float)
| TOGGLE_METRONOME (payload : bool)
| SET_CHOKE_GROUP (id : string) (group : float)
| LOG_MESSAGE.

Inductive LogPayload :=
| LoadedLog (id : string) (channels : nat) (len : nat)
| BpmLog (bpm : float)
| ChokeLog (group : float) (id : string).

Inductive Event :=
| LOG (payload : LogPayload)
| BEAT (payload : nat)
| CLOCK_TICK.

Definition isClockTick (e : Event) : bool :=
  match e with CLOCK_TICK => true | _ => false end.

Definition isBeat (e : Event) : bool :=
  match e with BEAT _ => true | _ => false end.

(** ** The processor's fields *)

Record MainProcessor := mkProcessor {
  phase : float;
  isTonePlaying : bool;
  sampleBuffers : gmap string (list (list float));
  activeVoices : list SampleVoice;
  isMetronomeEnabled : bool;
  bpm : float;
  metronomePhase : float;
  currentBeat : nat;
  clickFreq : float;
  clickAmp : float;
  nextClickCountdown : float;
  samplesPerBeat : float;
  ticksUntilNextClock : float;
  chokeGroups : gmap string float
}.

Definition set_phase (x : float) (s : MainProcessor) : MainProcessor :=
  mkProcessor x (isTonePlaying s) (sampleBuffers s) (activeVoices s)
    (isMetronomeEnabled s) (bpm s) (metronomePhase s) (currentBeat s)
    (clickFreq s) (clickAmp s) (nextClickCountdown s) (samplesPerBeat s)
    (ticksUntilNextClock s) (chokeGroups s).

Definition set_isTonePlaying (x : bool) (s : MainProcessor) : MainProcessor :=
  mkProcessor (phase s) x (sampleBuffers s) (activeVoices s)
    (isMetronomeEnabled s) (bpm s) (metronomePhase s) (currentBeat s)
    (clickFreq s) (clickAmp s) (nextClickCountdown s) (samplesPerBeat s)
    (ticksUntilNextClock s) (chokeGroups s).

Definition set_sampleBuffers (x : gmap string (list (list float)))
    (s : MainProcessor) : MainProcessor :=
  mkProcessor (phase s) (isTonePlaying s) x (activeVoices s)
    (isMetronomeEnabled s) (bpm s) (metronomePhase s) (currentBeat s)
    (clickFreq s) (clickAmp s) (nextClickCountdown s) (samplesPerBeat s)
    (ticksUntilNextClock s) (chokeGroups s).

Definition set_activeVoices (x : list SampleVoice) (s : MainProcessor)
    : MainProcessor :=
  mkProcessor (phase s) (isTonePlaying s) (sampleBuffers s) x
    (isMetronomeEnabled s) (bpm s) (metronomePhase s) (currentBeat s)
    (clickFreq s) (clickAmp s) (nextClickCountdown s) (samplesPerBeat s)
    (ticksUntilNextClock s) (chokeGroups s).

Definition set_isMetronomeEnabled (x : bool) (s : MainProcessor)
    : MainProcessor :=
  mkProcessor (phase s) (isTonePlaying s) (sampleBuffers s) (activeVoices s)
    x (bpm s) (metronomePhase s) (currentBeat s)
    (clickFreq s) (clickAmp s) (nextClickCountdown s) (samplesPerBeat s)
    (ticksUntilNextClock s) (chokeGroups s).

Definition set_bpm (x : float) (s : MainProcessor) : MainProcessor :=
  mkProcessor (phase s) (isTonePlaying s) (sampleBuffers s) (activeVoices s)
    (isMetronomeEnabled s) x (metronomePhase s) (currentBeat s)
    (clickFreq s) (clickAmp s) (nextClickCountdown s) (samplesPerBeat s)
    (ticksUntilNextClock s) (chokeGroups s).

Definition set_metronomePhase (x : float) (s : MainProcessor) : MainProcessor :=
  mkProcessor (phase s) (isTonePlaying s) (sampleBuffers s) (activeVoices s)
    (isMetronomeEnabled s) (bpm s) x (currentBeat s)
    (clickFreq s) (clickAmp s) (nextClickCountdown s) (samplesPerBeat s)
    (ticksUntilNextClock s) (chokeGroups s).

Definition set_currentBeat (x : nat) (s : MainProcessor) : MainProcessor :=
  mkProcessor (phase s) (isTonePlaying s) (sampleBuffers s) (activeVoices s)
    (isMetronomeEnabled s) (bpm s) (metronomePhase s) x
    (clickFreq s) (clickAmp s) (nextClickCountdown s) (samplesPerBeat s)
    (ticksUntilNextClock s) (chokeGroups s).

Definition set_click (freq amp : float) (s : MainProcessor) : MainProcessor :=
  mkProcessor (phase s) (isTonePlaying s) (sampleBuffers s) (activeVoices s)
    (isMetronomeEnabled s) (bpm s) (metronomePhase s) (currentBeat s)
    freq amp (nextClickCountdown s) (samplesPerBeat s)
    (ticksUntilNextClock s) (chokeGroups s).

Definition set_nextClickCountdown (x : float) (s : MainProcessor)
    : MainProcessor :=
  mkProcessor (phase s) (isTonePlaying s) (sampleBuffers s) (activeVoices s)
    (isMetronomeEnabled s) (bpm s) (metronomePhase s) (currentBeat s)
    (clickFreq s) (clickAmp s) x (samplesPerBeat s)
    (ticksUntilNextClock s) (chokeGroups s).

Definition set_samplesPerBeat (x : float) (s : MainProcessor) : MainProcessor :=
  mkProcessor (phase s) (isTonePlaying s) (sampleBuffers s) (activeVoices s)
    (isMetronomeEnabled s) (bpm s) (metronomePhase s) (currentBeat s)
    (clickFreq s) (clickAmp s) (nextClickCountdown s) x
    (ticksUntilNextClock s) (chokeGroups s).

Definition set_ticksUntilNextClock (x : float) (s : MainProcessor)
    : MainProcessor :=
  mkProcessor (phase s) (isTonePlaying s) (sampleBuffers s) (activeVoices s)
    (isMetronomeEnabled s) (bpm s) (metronomePhase s) (currentBeat s)
    (clickFreq s) (clickAmp s) (nextClickCountdown s) (samplesPerBeat s)
    x (chokeGroups s).

Definition set_chokeGroups (x : gmap string float) (s : MainProcessor)
    : MainProcessor :=
  mkProcessor (phase s) (isTonePlaying s) (sampleBuffers s) (activeVoices s)
    (isMetronomeEnabled s) (bpm s) (metronomePhase s) (currentBeat s)
    (clickFreq s) (clickAmp s) (nextClickCountdown s) (samplesPerBeat s)
    (ticksUntilNextClock s) x.

(** ** Pad identifier to visualization slot

    [parseInt(id.replace('pad', ''), 10)] and the range test of
    [triggerVoice]. *)

(** [s.replace(pat, rep)] with a string pattern: the first occurrence only. *)
Fixpoint replaceFirst (pat rep s : string) : string :=
  if String.prefix pat s
  then rep +:+ String.substring (String.length pat)
                 (String.length s - String.length pat) s
  else match s with
       | EmptyString => EmptyString
       | String c s' => String c (replaceFirst pat rep s')
       end.

(** The white space [parseInt] skips, among the code units below 256:
    TAB, LF, VT, FF, CR, SP, NBSP. *)
Definition isStrWhiteSpace (c : ascii) : bool :=
  let n := nat_of_ascii c in
  ((9 <=? n) && (n <=? 13)) || (n =? 32) || (n =? 160).

Fixpoint skipWhiteSpace (s : string) : string :=
  match s with
  | String c s' => if isStrWhiteSpace c then skipWhiteSpace s' else s
  | EmptyString => EmptyString
  end.

Definition digitValue (c : ascii) : option Z :=
  let n := nat_of_ascii c in
  if (48 <=? n) && (n <=? 57) then Some (Z.of_nat (n - 48)) else None.

(** The longest prefix of decimal digits; [None] when there is none. *)
Fixpoint parseDigits (acc : option Z) (s : string) : option Z :=
  match s with
  | String c s' =>
      match digitValue c with
      | Some d => parseDigits (Some (10 * default 0 acc + d)%Z) s'
      | None => acc
      end
  | EmptyString => acc
  end.

(** [parseInt(s, 10)]; [None] is NaN. *)
Definition parseInt (s : string) : option Z :=
  match skipWhiteSpace s with
  | String "-"%char r => Z.opp <$> parseDigits None r
  | String "+"%char r => parseDigits None r
  | r => parseDigits None r
  end.

Definition padSlot (id : string) : nat :=
  match parseInt (replaceFirst "pad" EmptyString id) with
  | Some padNum =>
      if ((1 <=? padNum) && (padNum <=? 16))%Z then Z.to_nat (padNum - 1) else 0
  | None => 0
  end.

(** [`pad${padNum}`], the identifiers the page gives its pads. *)
Definition padName (padNum : nat) : string :=
  "pad" +:+ NilEmpty.string_of_uint (Nat.to_uint padNum).

(** ** triggerVoice *)

(** [this.chokeGroups.get(voice.sampleId) === group], for a [group] that is
    not [undefined]: strict equality of numbers. *)
Definition sameGroup (entry : option float) (group : float) : bool :=
  match entry with
  | Some g => PrimFloat.eqb g group
  | None => false
  end.

Definition choke (groups : gmap string float) (group : float)
    (voice : SampleVoice) : SampleVoice :=
  if isPlaying voice && sameGroup (groups !! sampleId voice) group
  then stopVoice voice
  else voice.

Definition triggerVoice (id : string) (velocity : option float)
    (s : MainProcessor) : MainProcessor :=
  match sampleBuffers s !! id with
  | Some _ =>
      let voices :=
        match chokeGroups s !! id with
        | Some group => choke (chokeGroups s) group <$> activeVoices s
        | None => activeVoices s
        end in
      set_activeVoices
        (voices ++ [mkVoice id 0 true (default 1%float velocity) (padSlot id)]) s
  | None => s
  end.

(** ** The message handler *)

Section Engine.

(** [declare const sampleRate: number], the global of the worklet scope,
    and [Math.sin], which ECMAScript leaves to the implementation. *)
Variable sampleRate : float.
Variable Math_sin : float -> float.

Definition updateTiming (s : MainProcessor) : MainProcessor :=
  set_samplesPerBeat (PrimFloat.div (PrimFloat.mul sampleRate 60) (bpm s)) s.

(** The field initialisers followed by the constructor's [updateTiming()]. *)
Definition newMainProcessor : MainProcessor :=
  updateTiming
    (mkProcessor 0 false ∅ [] false 120 0 0 0.1 0.3 0 0 0 ∅)%float.

(** [this.port.onmessage].  In the LOAD_SAMPLE branch the store happens
    first; the LOG text reads [buffers[0].length], so for an empty list of
    channels the handler stops there with a TypeError and posts nothing. *)
Definition onmessage (s : MainProcessor) (msg : AudioMessage)
    : MainProcessor * list Event :=
  match msg with
  | TOGGLE_TONE payload => (set_isTonePlaying payload s, [])
  | LOAD_SAMPLE id buffers =>
      (set_sampleBuffers (<[id := buffers]> (sampleBuffers s)) s,
       match buffers with
       | b0 :: _ => [LOG (LoadedLog id (length buffers) (length b0))]
       | [] => []
       end)
  | PLAY_SAMPLE id velocity => (triggerVoice id velocity s, [])
  | SET_BPM payload =>
      (updateTiming (set_bpm payload s), [LOG (BpmLog payload)])
  | TOGGLE_METRONOME payload =>
      let s1 := set_isMetronomeEnabled payload s in
      (if payload then set_currentBeat 0 (set_nextClickCountdown 0 s1) else s1,
       [])
  | SET_CHOKE_GROUP id group =>
      (set_chokeGroups (<[id := group]> (chokeGroups s)) s,
       [LOG (ChokeLog group id)])
  | LOG_MESSAGE => (s, [])
  end.

(** Messages are handled one at a time, in the order they were sent. *)
Fixpoint onmessages (s : MainProcessor) (msgs : list AudioMessage)
    : MainProcessor * list Event :=
  match msgs with
  | [] => (s, [])
  | msg :: rest =>
      let '(s1, e1) := onmessage s msg in
      let '(s2, e2) := onmessages s1 rest in
      (s2, e1 ++ e2)
  end.

(** ** The clock *)

Definition triggerMetronome (s : MainProcessor) : MainProcessor * list Event :=
  let s1 := set_metronomePhase 3000 s in
  let s2 := if Nat.eqb (currentBeat s1) 0
            then set_click 0.25 0.5 s1
            else set_click 0.15 0.3 s1 in
  (set_currentBeat ((currentBeat s2 + 1) mod 4) s2, [BEAT (currentBeat s)]).

(** The quarter-note half of one iteration of the clock loop. *)
Definition beatFrame (s : MainProcessor) : MainProcessor * list Event :=
  let s1 := set_nextClickCountdown (PrimFloat.sub (nextClickCountdown s) 1) s in
  if PrimFloat.leb (nextClickCountdown s1) 0
  then let '(s2, es) := triggerMetronome s1 in
       (set_nextClickCountdown (samplesPerBeat s2) s2, es)
  else (s1, []).

(** The 24 PPQ half of one iteration of the clock loop. *)
Definition tickFrame (s : MainProcessor) : MainProcessor * list Event :=
  let s1 := set_ticksUntilNextClock (PrimFloat.sub (ticksUntilNextClock s) 1) s in
  if PrimFloat.leb (ticksUntilNextClock s1) 0
  then (set_ticksUntilNextClock (PrimFloat.div (samplesPerBeat s1) 24) s1,
        [CLOCK_TICK])
  else (s1, []).

Definition clockFrame (s : MainProcessor) : MainProcessor * list Event :=
  let '(s1, e1) := beatFrame s in
  let '(s2, e2) := tickFrame s1 in
  (s2, e1 ++ e2).

(** [for (let i = 0; i < bufferSize; i++)] over [clockFrame]. *)
Fixpoint clockLoop (frames : nat) (s : MainProcessor)
    : MainProcessor * list Event :=
  match frames with
  | 0 => (s, [])
  | S k =>
      let '(s1, e1) := clockFrame s in
      let '(s2, e2) := clockLoop k s1 in
      (s2, e1 ++ e2)
  end.

(** ** Rendering *)

(** [output[ch].fill(0)] for every channel of every output. *)
Definition clearOutputs (outputs : Outputs) : Outputs :=
  fmap (M := list) (fmap (M := list) (fun ch => replicate (length ch) 0%float))
    outputs.

(** [for ch: mixOutput[ch][i] += x], [mixOutput] being [outputs[0]]. *)
Definition mixAdd (i : nat) (x : float) (outputs : Outputs) : Outputs :=
  alter (fmap (M := list) (accumulate i x)) 0 outputs.

(** The metronome click, frames [i], [i+1], ... of the block. *)
Fixpoint metronomeLoop (frames i : nat) (s : MainProcessor) (outputs : Outputs)
    : MainProcessor * Outputs :=
  match frames with
  | 0 => (s, outputs)
  | S k =>
      if PrimFloat.ltb 0 (metronomePhase s)
      then
        let clickSample :=
          PrimFloat.mul
            (Math_sin (PrimFloat.mul (metronomePhase s) (clickFreq s)))
            (clickAmp s) in
        metronomeLoop k (S i)
          (set_metronomePhase (PrimFloat.sub (metronomePhase s) 15) s)
          (mixAdd i clickSample outputs)
      else (s, outputs)
  end.

Definition metronomeStage (bufferSize : nat) (s : MainProcessor)
    (outputs : Outputs) : MainProcessor * Outputs :=
  if isMetronomeEnabled s && PrimFloat.ltb 0 (metronomePhase s)
  then metronomeLoop bufferSize 0 s outputs
  else (s, outputs).

Definition Math_PI : float := 0x1.921fb54442d18p+1%float.

(** The test tone. *)
Fixpoint toneLoop (frames i : nat) (s : MainProcessor) (outputs : Outputs)
    : MainProcessor * Outputs :=
  match frames with
  | 0 => (s, outputs)
  | S k =>
      let sample :=
        PrimFloat.mul 0.5
          (Math_sin (PrimFloat.mul (PrimFloat.mul 2 Math_PI) (phase s))) in
      let p1 := PrimFloat.add (phase s) (PrimFloat.div 440 sampleRate) in
      let p2 := if PrimFloat.ltb 1 p1 then PrimFloat.sub p1 1 else p1 in
      toneLoop k (S i) (set_phase p2 s) (mixAdd i sample outputs)
  end.

Definition toneStage (bufferSize : nat) (s : MainProcessor)
    (outputs : Outputs) : MainProcessor * Outputs :=
  if isTonePlaying s then toneLoop bufferSize 0 s outputs else (s, outputs).

(** [visOutput] is non-null: [outputs[visOutputIndex]] exists and has a
    channel. *)
Definition visOutputPresent (outputs : Outputs) (visOutputIndex : nat) : bool :=
  match outputs !! visOutputIndex with
  | Some (_ :: _) => true
  | _ => false
  end.

(** [buffer[Math.min(ch, buffer.length - 1)][cursor]], for a [buffer] that
    has a channel. *)
Definition sampleValue (buffer : list (list float)) (ch cursor : nat) : float :=
  readSample (default [] (buffer !! Nat.min ch (length buffer - 1))) cursor.

(** [outSample = sampleValue * voice.gain] for mix channel [ch]. *)
Definition outSample (buffer : list (list float)) (voice : SampleVoice)
    (ch : nat) : float :=
  PrimFloat.mul (sampleValue buffer ch (bufferIndex voice)) (gain voice).

(** [visOutput[i] += x], [visOutput] being [outputs[visOutputIndex][0]];
    through a [visOutput] that is null this would be a TypeError. *)
Definition visAdd (visOutputIndex i : nat) (x : float) (outputs : Outputs)
    : option Outputs :=
  match outputs !! visOutputIndex with
  | Some (visOutput :: others) =>
      Some (<[visOutputIndex := accumulate i x visOutput :: others]> outputs)
  | _ => None
  end.

(** The voice after [voice.bufferIndex++] and the end-of-sample test
    against [buffer[0].length]. *)
Definition advance (b0 : list float) (voice : SampleVoice) : SampleVoice :=
  let index := S (bufferIndex voice) in
  mkVoice (sampleId voice) index (negb (length b0 <=? index)) (gain voice)
    (visSlot voice).

(** One iteration, at frame [i], of the frame loop of a playing voice;
    [vis] says that [visOutput] is not null.  With no channel in [buffer]
    the first read, [buffer[-1][...]], is a TypeError. *)
Definition voiceFrame (buffer : list (list float)) (vis : bool) (i : nat)
    (voice : SampleVoice) (outputs : Outputs) : option (SampleVoice * Outputs) :=
  match buffer with
  | [] => None
  | b0 :: _ =>
      let outs1 :=
        alter (imap (fun ch => accumulate i (outSample buffer voice ch)))
          0 outputs in
      outs2 ←
        (if vis
         then visAdd (visSlot voice + 1) i
                (PrimFloat.mul (readSample b0 (bufferIndex voice)) (gain voice))
                outs1
         else Some outs1);
      Some (advance b0 voice, outs2)
  end.

(** [for (let i = 0; i < bufferSize; i++)] of one voice, from frame [i] on;
    the loop is left as soon as the voice is not playing. *)
Fixpoint voiceLoop (buffer : list (list float)) (vis : bool) (frames i : nat)
    (voice : SampleVoice) (outputs : Outputs) : option (SampleVoice * Outputs) :=
  match frames with
  | 0 => Some (voice, outputs)
  | S k =>
      if isPlaying voice
      then '(v1, o1) ← voiceFrame buffer vis i voice outputs;
           voiceLoop buffer vis k (S i) v1 o1
      else Some (voice, outputs)
  end.

(** The body of the loop over [activeVoices]: the voice that stays in the
    list, if it does, and the outputs. *)
Definition renderVoice (buffers : gmap string (list (list float)))
    (bufferSize : nat) (voice : SampleVoice) (outputs : Outputs)
    : option (option SampleVoice * Outputs) :=
  match buffers !! sampleId voice with
  | None => Some (None, outputs)
  | Some buffer =>
      '(v1, o1) ←
        voiceLoop buffer (visOutputPresent outputs (visSlot voice + 1))
          bufferSize 0 voice outputs;
      Some (if isPlaying v1 then Some v1 else None, o1)
  end.

(** [for (let v = this.activeVoices.length - 1; v >= 0; v--)]: the last
    voice is rendered first; [splice(v, 1)] drops a voice in place. *)
Fixpoint renderVoices (buffers : gmap string (list (list float)))
    (bufferSize : nat) (voices : list SampleVoice) (outputs : Outputs)
    : option (list SampleVoice * Outputs) :=
  match voices with
  | [] => Some ([], outputs)
  | voice :: rest =>
      '(rest1, o1) ← renderVoices buffers bufferSize rest outputs;
      '(v1, o2) ← renderVoice buffers bufferSize voice o1;
      Some (match v1 with Some v => v :: rest1 | None => rest1 end, o2)
  end.

(** [process(_inputs, outputs, _parameters)]: the events posted, and the
    new fields and outputs unless the sampler raised a TypeError. *)
Definition process (s : MainProcessor) (outputs : Outputs)
    : list Event * option (MainProcessor * Outputs) :=
  match outputs !! 0 with
  | Some (ch0 :: _) =>
      let bufferSize := length ch0 in
      let outs0 := clearOutputs outputs in
      let '(s1, events) := clockLoop bufferSize s in
      let '(s2, outs1) := metronomeStage bufferSize s1 outs0 in
      let '(s3, outs2) := toneStage bufferSize s2 outs1 in
      (events,
       '(voices, outs3) ←
         renderVoices (sampleBuffers s3) bufferSize (activeVoices s3) outs2;
       Some (set_activeVoices voices s3, outs3))
  | _ => ([], Some (s, outputs))
  end.

End Engine.

(** The outputs the page asks for: a stereo mix and sixteen mono
    visualization outputs, zero-filled blocks of [n] frames. *)
Definition hostOutputs (n : nat) : Outputs :=
  replicate 2 (replicate n 0%float) :: replicate 16 [replicate n 0%float].

(** The mix bus a call of [process] leaves, when it returns. *)
Definition renderedMix
    (r : list Event * option (MainProcessor * list (list (list float))))
    : option (list (list float)) :=
  r.2 ≫= (fun so => so.2 !! 0).

(** ** Reading a block *)

(** Frame [t] of channel [ch] of output [o]. *)
Definition frameAt (outputs : list (list (list float))) (o ch t : nat)
    : option float :=
  out ← outputs !! o;
  arr ← (out : list (list float)) !! ch;
  (arr : list float) !! t.

(** How many frames of a block of [frames] frames the frame loop renders
    for a voice: none when it is not playing, else one at least, and no
    more than are left of the sample [b0]. *)
Definition framesRendered (voice : SampleVoice) (b0 : list float)
    (frames : nat) : nat :=
  if isPlaying voice
  then Nat.min frames (Nat.max 1 (length b0 - bufferIndex voice))
  else 0.

(** [y] after [arr[t] += x] when frame [t] is one of the [m] frames
    rendered from frame [i] on, [x] being a function of the cursor. *)
Definition accumulated (x : nat → float) (cursor i m t : nat) (y : float)
    : float :=
  if decide (i ≤ t < i + m)
  then fround (PrimFloat.add y (x (cursor + (t - i))))
  else y.

(** The voice the block leaves in the active list, if it does: the cursor
    has moved by the frames rendered, and the voice is dropped when it is
    not playing or has reached the end of [b0]. *)
Definition keptVoice (voice : SampleVoice) (b0 : list float) (frames : nat)
    : option SampleVoice :=
  match framesRendered voice b0 frames with
  | 0 => if isPlaying voice then Some voice else None
  | S m =>
      let index := bufferIndex voice + S m in
      if length b0 <=? index
      then None
      else Some (mkVoice (sampleId voice) index true (gain voice)
                   (visSlot voice))
  end.

(** ** Relations between processors *)

(** What the clock never writes: the sampler's and the tone's fields, the
    metronome switch, the tempo and the samples-per-beat value. *)
Definition clockFrameOf (s t : MainProcessor) : Prop :=
  phase t = phase s ∧ isTonePlaying t = isTonePlaying s ∧
  sampleBuffers t = sampleBuffers s ∧ activeVoices t = activeVoices s ∧
  isMetronomeEnabled t = isMetronomeEnabled s ∧ bpm t = bpm s ∧
  samplesPerBeat t = samplesPerBeat s ∧ chokeGroups t = chokeGroups s.

(** Two processors whose quarter-note countdowns and beat indices agree. *)
Definition sameBeatClock (s t : MainProcessor) : Prop :=
  nextClickCountdown s = nextClickCountdown t ∧ currentBeat s = currentBeat t.

Definition sameTickClock (s t : MainProcessor) : Prop :=
  ticksUntilNextClock s = ticksUntilNextClock t.

(** The stages after the clock loop leave both countdowns and
    samples-per-beat alone. *)
Definition sameCountdowns (s t : MainProcessor) : Prop :=
  ticksUntilNextClock t = ticksUntilNextClock s ∧
  nextClickCountdown t = nextClickCountdown s ∧
  samplesPerBeat t = samplesPerBeat s.

(** The voice (or what is left of it) and the mix bus of a result. *)
Definition mixOf {A : Type} (r : A * list (list (list float)))
    : A * option (list (list float)) :=
  (r.1, r.2 !! 0).

(** ** Scenarios *)

(** A stand-in for [Math.sin] where neither the metronome nor the tone
    sounds. *)
Definition silentSin (x : float) : float := x.

(** Pad 1 holds a four-frame sample of ones and was triggered at full
    velocity; one block of two frames has been rendered, so the voice is in
    flight with its cursor at 2. *)
Definition pad1InFlight : MainProcessor :=
  let s :=
    (onmessages 48000 (newMainProcessor 48000)
       [LOAD_SAMPLE "pad1" [[1; 1; 1; 1]%float];
        PLAY_SAMPLE "pad1" (Some 1%float)]).1 in
  match (process 48000 silentSin s (hostOutputs 2)).2 with
  | Some (s1, _) => s1
  | None => s
  end.

(** Pad 1 holds a sample, is in choke group 1, and is triggered twice. *)
Definition pad1Retriggered : MainProcessor :=
  (onmessages 48000 (newMainProcessor 48000)
     [LOAD_SAMPLE "pad1" [[1; 1; 1; 1]%float];
      SET_CHOKE_GROUP "pad1" 1;
      PLAY_SAMPLE "pad1" (Some 1%float);
      PLAY_SAMPLE "pad1" (Some 1%float)]).1.

(** The new processor after its first block of 128 frames: both countdowns
    are in flight. *)
Definition afterFirstBlock : MainProcessor :=
  (clockLoop 128 (newMainProcessor 48000)).1.


(** ** Blocks and runs *)

(** The number of frames of every channel of every output. *)
Definition shape (outputs : list (list (list float))) : list (list nat) :=
  fmap (M := list) (fmap (M := list) length) outputs.

(** The beat indices a list of events carries, in order. *)
Definition beatsOf (events : list Event) : list nat :=
  omap (fun e => match e with BEAT b => Some b | _ => None end) events.

(** What the host does with the processor: it delivers a message, or asks
    for a block.  After a TypeError in [process] the processor is not called
    again. *)
Inductive Step :=
| Message (msg : AudioMessage)
| Block (outputs : list (list (list float))).

Fixpoint run (sampleRate : float) (Math_sin : float → float)
    (s : MainProcessor) (steps : list Step)
    : list Event * option MainProcessor :=
  match steps with
  | [] => ([], Some s)
  | Message msg :: rest =>
      let '(s1, e1) := onmessage sampleRate s msg in
      let '(e2, r) := run sampleRate Math_sin s1 rest in
      (e1 ++ e2, r)
  | Block outputs :: rest =>
      match process sampleRate Math_sin s outputs with
      | (e1, Some (s1, _)) =>
          let '(e2, r) := run sampleRate Math_sin s1 rest in
          (e1 ++ e2, r)
      | (e1, None) => (e1, None)
      end
  end.

(** Every active voice belongs to a pad that has a sample, and sits in the
    slot of that pad. *)
Definition voicesLoaded (s : MainProcessor) : Prop :=
  Forall (fun voice =>
            is_Some (sampleBuffers s !! sampleId voice) ∧
            visSlot voice = padSlot (sampleId voice))
    (activeVoices s).

(** What a voice keeps for as long as it lives: its pad, its gain and its
    slot. *)
Definition voiceKey (voice : SampleVoice) : string * float * nat :=
  (sampleId voice, gain voice, visSlot voice).

(** The metronome envelope after [frames] more frames of the click loop:
    15 less per frame for as long as it is above 0. *)
Fixpoint envelopeAfter (frames : nat) (p : float) : float :=
  match frames with
  | 0 => p
  | S k => if PrimFloat.ltb 0 p then envelopeAfter k (PrimFloat.sub p 15) else p
  end.

(** Two processors that differ at most in the metronome switch and in the
    click envelope: the fields the events, the voices and the tone are
    computed from are the same. *)
Definition sameButClick (s t : MainProcessor) : Prop :=
  phase t = phase s ∧ isTonePlaying t = isTonePlaying s ∧
  sampleBuffers t = sampleBuffers s ∧ activeVoices t = activeVoices s ∧
  bpm t = bpm s ∧ currentBeat t = currentBeat s ∧
  clickFreq t = clickFreq s ∧ clickAmp t = clickAmp s ∧
  nextClickCountdown t = nextClickCountdown s ∧
  samplesPerBeat t = samplesPerBeat s ∧
  ticksUntilNextClock t = ticksUntilNextClock s ∧
  chokeGroups t = chokeGroups s.

(** The 24 PPQ lines of the clock loop on the two numbers they read,
    [frames] times over: [t] is the countdown, [spb] samples-per-beat.
    Every frame takes 1 off the countdown; a countdown that is then <= 0
    posts a CLOCK_TICK and is set to [spb / 24].  The pulses posted, and
    the countdown left. *)
Fixpoint pulseTrain (frames : nat) (spb t : float) : list Event * float :=
  match frames with
  | 0 => ([], t)
  | S k =>
      let t1 := PrimFloat.sub t 1 in
      if PrimFloat.leb t1 0
      then let '(pulses, t2) := pulseTrain k spb (PrimFloat.div spb 24) in
           (CLOCK_TICK :: pulses, t2)
      else pulseTrain k spb t1
  end.

(** ** The page: pads, MIDI input, tempo buttons

    The worklet gets its commands from the page.  [Midi] is the
    MidiManager of [audio/MidiManager.ts], [Audio] the three methods of the
    AudioManager that post to the worklet, [Page] the pad tables, the MIDI
    note handler and the tempo buttons of [main.ts].  What the page does to the document (button
    classes, status text, console) is left out; what it posts to the
    worklet is kept, in order. *)

(** A byte, a counter or a pad number as a JS number. *)
Definition Number_of_nat (n : nat) : float :=
  PrimFloat.of_uint63 (Uint63.of_Z (Z.of_nat n)).

Module Midi.

(** The callbacks are the page's: the manager only knows whether one is
    set.  [tickCount] is a count; the times are [performance.now()]
    readings. *)
Record MidiManager := mkMidiManager {
  noteOnCallback : bool;
  ccCallback : bool;
  bpmCallback : bool;
  lastTickTime : float;
  tickCount : nat;
  tickIntervals : list float
}.

Definition newMidiManager : MidiManager :=
  mkMidiManager false false false 0 0 [].

Definition setNoteOnCallback (m : MidiManager) : MidiManager :=
  mkMidiManager true (ccCallback m) (bpmCallback m)
    (lastTickTime m) (tickCount m) (tickIntervals m).

Definition setBpmCallback (m : MidiManager) : MidiManager :=
  mkMidiManager (noteOnCallback m) (ccCallback m) true
    (lastTickTime m) (tickCount m) (tickIntervals m).

(** A callback invoked, with its arguments. *)
Inductive Call :=
| NoteOn (note velocity : nat)
| Cc (cc value : nat)
| Bpm (bpm : float).

Section Clock.

(** [Math.round]. *)
Variable Math_round : float → float.

Definition calculateBpm (m : MidiManager) : list Call :=
  if length (tickIntervals m) <? 24 then []
  else
    let sum := foldl PrimFloat.add 0%float (tickIntervals m) in
    let avgInterval :=
      PrimFloat.div sum (Number_of_nat (length (tickIntervals m))) in
    let rawBpm := PrimFloat.div 60000 (PrimFloat.mul avgInterval 24) in
    let smoothedBpm :=
      PrimFloat.div (Math_round (PrimFloat.mul rawBpm 10)) 10 in
    if bpmCallback m
    then if PrimFloat.leb 30 smoothedBpm && PrimFloat.leb smoothedBpm 300
         then [Bpm (Math_round smoothedBpm)]
         else []
    else [].

(** [now] is the reading of [performance.now()]. *)
Definition handleClockTick (m : MidiManager) (now : float)
    : MidiManager * list Call :=
  let tickIntervals1 :=
    if PrimFloat.ltb 0 (lastTickTime m)
    then
      let delta := PrimFloat.sub now (lastTickTime m) in
      let pushed := tickIntervals m ++ [delta] in
      if 24 <? length pushed then tail pushed else pushed
    else tickIntervals m in
  let m1 :=
    mkMidiManager (noteOnCallback m) (ccCallback m) (bpmCallback m)
      now (S (tickCount m)) tickIntervals1 in
  (m1, if tickCount m1 mod 24 =? 0 then calculateBpm m1 else []).

(** [data] is [event.data], a Uint8Array. *)
Definition onMidiMessage (m : MidiManager) (data : list nat) (now : float)
    : MidiManager * list Call :=
  match data with
  | [] => (m, [])
  | cmd :: _ =>
      if cmd =? 248 then handleClockTick m now
      else if (cmd =? 250) || (cmd =? 251) || (cmd =? 252) then (m, [])
      else if length data <? 3 then (m, [])
      else
        let status := Nat.land cmd 240 in
        let byte1 := nth 1 data 0 in
        let byte2 := nth 2 data 0 in
        if (status =? 144) && (0 <? byte2)
        then (m, if noteOnCallback m then [NoteOn byte1 byte2] else [])
        else if (status =? 128) || ((status =? 144) && (byte2 =? 0))
        then (m, [])
        else if status =? 176
        then (m, if ccCallback m then [Cc byte1 byte2] else [])
        else (m, [])
  end.

(** The messages of a device in the order they arrive, each with the
    reading of the time at its arrival. *)
Fixpoint onMidiMessages (m : MidiManager) (events : list (list nat * float))
    : MidiManager * list Call :=
  match events with
  | [] => (m, [])
  | (data, now) :: rest =>
      let '(m1, c1) := onMidiMessage m data now in
      let '(m2, c2) := onMidiMessages m1 rest in
      (m2, c1 ++ c2)
  end.

End Clock.

(** A timing-clock message: first byte 0xF8. *)
Definition isTimingClock (data : list nat) : bool :=
  match data with
  | cmd :: _ => cmd =? 248
  | [] => false
  end.

Definition isBpm (call : Call) : bool :=
  match call with
  | Bpm _ => true
  | _ => false
  end.

(** The timing-clock messages among [events], and the tempo reports among
    [calls]. *)
Definition clockTicks (events : list (list nat * float)) : nat :=
  length (filter (fun e => isTimingClock e.1 = true) events).

Definition bpmReports (calls : list Call) : list Call :=
  filter (fun call => isBpm call = true) calls.

End Midi.

Module Audio.

(** [workletNode] is whether the AudioManager has its worklet node; the
    result is what is posted to the worklet. *)
Definition playSample (workletNode : bool) (id : string)
    (velocity : option float) : list AudioMessage :=
  if workletNode then [PLAY_SAMPLE id (Some (default 1%float velocity))]
  else [].

Definition setBpm (workletNode : bool) (bpm : float) : list AudioMessage :=
  if workletNode then [SET_BPM bpm] else [].

Definition toggleMetronome (workletNode : bool) (isEnabled : bool)
    : list AudioMessage :=
  if workletNode then [TOGGLE_METRONOME isEnabled] else [].

End Audio.

Module Page.

Record PadConfig := mkPadConfig {
  id : string;
  key : string;
  midi : nat
}.

Definition BASE_MIDI : nat := 48.

(** The four [if]s of the QWERTY mapping. *)
Definition keyOf (padNum : nat) : string :=
  let key := EmptyString in
  let key := if padNum =? 1 then "z"%string else key in
  let key := if padNum =? 2 then "x"%string else key in
  let key := if padNum =? 3 then "c"%string else key in
  let key := if padNum =? 4 then "v"%string else key in
  key.

(** The two loops that fill [PAD_CONFIG]: rows 3 down to 0, columns 1 to
    4. *)
Definition PAD_CONFIG : list PadConfig :=
  r ← [3; 2; 1; 0];
  c ← [1; 2; 3; 4];
  let padNum := r * 4 + c in
  let midiNote := BASE_MIDI + (padNum - 1) in
  [mkPadConfig (padName padNum) (keyOf padNum) midiNote].

Definition MIDI_TO_PAD : gmap nat string :=
  foldl (fun m p => <[midi p := id p]> m) ∅ PAD_CONFIG.

(** The entries the [forEach] writes into [KEY_TO_PAD]. *)
Definition KEY_TO_PAD : gmap string string :=
  foldl (fun m p =>
           match key p with
           | EmptyString => m
           | _ => <[key p := id p]> m
           end) ∅ PAD_CONFIG.

Record Page := mkPage {
  isInitialized : bool;
  workletNode : bool;
  currentBpm : float
}.

(** The page's [triggerVoice]: what it posts. *)
Definition triggerVoice (page : Page) (padId : string)
    (velocity : option float) : list AudioMessage :=
  if isInitialized page
  then Audio.playSample (workletNode page) padId
         (Some (default 1%float velocity))
  else [].

Definition handleMidiNote (page : Page) (note velocity : nat)
    : list AudioMessage :=
  match MIDI_TO_PAD !! note with
  | Some (String c r as padId) =>
      triggerVoice page padId
        (Some (PrimFloat.div (Number_of_nat velocity) 127))
  | _ => []
  end.

Definition updateBpm (page : Page) (delta : float)
    : Page * list AudioMessage :=
  let newBpm := PrimFloat.add (currentBpm page) delta in
  let newBpm := if PrimFloat.ltb newBpm 40 then 40%float else newBpm in
  let newBpm := if PrimFloat.ltb 240 newBpm then 240%float else newBpm in
  (mkPage (isInitialized page) (workletNode page) newBpm,
   Audio.setBpm (workletNode page) newBpm).

(** A MIDI message arriving at a manager whose note-on callback is
    [handleMidiNote], as the page sets it: what reaches the worklet. *)
Definition onmidimessage (Math_round : float → float) (page : Page)
    (m : Midi.MidiManager) (data : list nat) (now : float)
    : Midi.MidiManager * list AudioMessage :=
  let '(m1, calls) := Midi.onMidiMessage Math_round m data now in
  (m1,
   call ← calls;
   match call with
   | Midi.NoteOn note velocity => handleMidiNote page note velocity
   | _ => []
   end).

End Page.

(** * Properties *)

(** ** The clock loop *)

Lemma clockLoop_S (k : nat) (s : MainProcessor) :
  clockLoop (S k) s =
  ((clockLoop k (clockFrame s).1).1,
   (clockFrame s).2 ++ (clockLoop k (clockFrame s).1).2).
Proof.
  simpl. destruct (clockFrame s) as [s1 e1]. simpl.
  destruct (clockLoop k s1) as [s2 e2]. reflexivity.
Qed.

Lemma clockFrame_eq (s : MainProcessor) :
  clockFrame s =
  ((tickFrame (beatFrame s).1).1, (beatFrame s).2 ++ (tickFrame (beatFrame s).1).2).
Proof.
  unfold clockFrame. destruct (beatFrame s) as [s1 e1]. simpl.
  destruct (tickFrame s1) as [s2 e2]. reflexivity.
Qed.

Lemma clockFrameOf_refl (s : MainProcessor) : clockFrameOf s s.
Proof. repeat split. Qed.

Lemma clockFrameOf_trans (s t u : MainProcessor) :
  clockFrameOf s t → clockFrameOf t u → clockFrameOf s u.
Proof.
  unfold clockFrameOf. intros H1 H2.
  destruct H1 as (?&?&?&?&?&?&?&?), H2 as (?&?&?&?&?&?&?&?).
  repeat split; congruence.
Qed.

Lemma beatFrame_frame (s : MainProcessor) :
  clockFrameOf s (beatFrame s).1 ∧
  ticksUntilNextClock (beatFrame s).1 = ticksUntilNextClock s.
Proof.
  unfold beatFrame, triggerMetronome, clockFrameOf. simpl.
  destruct (PrimFloat.leb _ _); simpl; [|repeat split].
  destruct (Nat.eqb _ _); simpl; repeat split.
Qed.

Lemma tickFrame_frame (s : MainProcessor) :
  clockFrameOf s (tickFrame s).1 ∧
  nextClickCountdown (tickFrame s).1 = nextClickCountdown s ∧
  currentBeat (tickFrame s).1 = currentBeat s ∧
  metronomePhase (tickFrame s).1 = metronomePhase s ∧
  clickFreq (tickFrame s).1 = clickFreq s ∧
  clickAmp (tickFrame s).1 = clickAmp s.
Proof.
  unfold tickFrame, clockFrameOf. simpl.
  destruct (PrimFloat.leb _ _); simpl; repeat split.
Qed.

Lemma clockFrame_frame (s : MainProcessor) : clockFrameOf s (clockFrame s).1.
Proof.
  rewrite clockFrame_eq. simpl.
  eapply clockFrameOf_trans; [apply beatFrame_frame | apply tickFrame_frame].
Qed.

Lemma clockLoop_frame (n : nat) (s : MainProcessor) :
  clockFrameOf s (clockLoop n s).1.
Proof.
  revert s. induction n as [|k IH]; intros s.
  - apply clockFrameOf_refl.
  - rewrite clockLoop_S. simpl.
    eapply clockFrameOf_trans; [apply clockFrame_frame | apply IH].
Qed.

(** The 24 PPQ countdown is a clock of its own: its events and its value
    after any number of frames are a function of the countdown and of
    samples-per-beat alone. *)
Lemma tickFrame_lockstep (s t : MainProcessor) :
  ticksUntilNextClock s = ticksUntilNextClock t →
  samplesPerBeat s = samplesPerBeat t →
  (tickFrame s).2 = (tickFrame t).2 ∧
  ticksUntilNextClock (tickFrame s).1 = ticksUntilNextClock (tickFrame t).1.
Proof.
  intros Ht Hs. unfold tickFrame. simpl. rewrite Ht, Hs.
  destruct (PrimFloat.leb _ _); simpl; split; reflexivity.
Qed.

Lemma beatFrame_no_tick (s : MainProcessor) :
  List.filter isClockTick (beatFrame s).2 = [].
Proof.
  unfold beatFrame, triggerMetronome. simpl.
  destruct (PrimFloat.leb _ _); reflexivity.
Qed.

Lemma clockFrame_ticks_lockstep (s t : MainProcessor) :
  ticksUntilNextClock s = ticksUntilNextClock t →
  samplesPerBeat s = samplesPerBeat t →
  List.filter isClockTick (clockFrame s).2 = List.filter isClockTick (clockFrame t).2 ∧
  ticksUntilNextClock (clockFrame s).1 = ticksUntilNextClock (clockFrame t).1 ∧
  samplesPerBeat (clockFrame s).1 = samplesPerBeat (clockFrame t).1.
Proof.
  intros Ht Hs. rewrite !clockFrame_eq. simpl.
  destruct (beatFrame_frame s) as [Fs Ts], (beatFrame_frame t) as [Ft Tt].
  assert (Hs1 : samplesPerBeat (beatFrame s).1 = samplesPerBeat (beatFrame t).1).
  { destruct Fs as (_&_&_&_&_&_&->&_), Ft as (_&_&_&_&_&_&->&_). exact Hs. }
  assert (Ht1 : ticksUntilNextClock (beatFrame s).1
                = ticksUntilNextClock (beatFrame t).1) by congruence.
  destruct (tickFrame_lockstep _ _ Ht1 Hs1) as [He Hc].
  rewrite !List.filter_app, !beatFrame_no_tick, He. repeat split; [exact Hc|].
  destruct (tickFrame_frame (beatFrame s).1) as [(_&_&_&_&_&_&->&_) _].
  destruct (tickFrame_frame (beatFrame t).1) as [(_&_&_&_&_&_&->&_) _].
  exact Hs1.
Qed.

Lemma clockLoop_ticks_lockstep (n : nat) (s t : MainProcessor) :
  ticksUntilNextClock s = ticksUntilNextClock t →
  samplesPerBeat s = samplesPerBeat t →
  List.filter isClockTick (clockLoop n s).2 = List.filter isClockTick (clockLoop n t).2 ∧
  ticksUntilNextClock (clockLoop n s).1 = ticksUntilNextClock (clockLoop n t).1.
Proof.
  revert s t. induction n as [|k IH]; intros s t Ht Hs.
  - simpl. split; [reflexivity | exact Ht].
  - rewrite !clockLoop_S. simpl.
    destruct (clockFrame_ticks_lockstep s t Ht Hs) as (He & Ht1 & Hs1).
    destruct (IH _ _ Ht1 Hs1) as [He' Ht'].
    rewrite !List.filter_app, He, He'. split; [reflexivity | exact Ht'].
Qed.

(** The events of a block are those of the clock loop over the frames of
    the first mix channel; a block without a mix channel posts nothing. *)
Lemma process_events (sampleRate : float) (Math_sin : float → float)
    (s : MainProcessor) (outputs : list (list (list float))) :
  (process sampleRate Math_sin s outputs).1
  = match outputs !! 0 with
    | Some (ch0 :: _) => (clockLoop (length ch0) s).2
    | _ => []
    end.
Proof.
  unfold process. destruct (outputs !! 0) as [[|ch0 chs]|]; try reflexivity.
  destruct (clockLoop (length ch0) s) as [s1 ev].
  destruct (metronomeStage _ _ _ _) as [s2 o1].
  destruct (toneStage _ _ _ _ _) as [s3 o2]. reflexivity.
Qed.

Lemma clockLoop_snoc (k : nat) (s : MainProcessor) :
  clockLoop (S k) s =
  ((clockFrame (clockLoop k s).1).1,
   (clockLoop k s).2 ++ (clockFrame (clockLoop k s).1).2).
Proof.
  revert s. induction k as [|k IH]; intros s.
  - rewrite clockLoop_S. simpl. rewrite app_nil_r. reflexivity.
  - rewrite clockLoop_S, IH. rewrite (clockLoop_S k s). simpl.
    rewrite app_assoc. reflexivity.
Qed.

(** *** A countdown in flight does not see a new samples-per-beat value *)

Lemma tickFrame_no_beat (s : MainProcessor) :
  List.filter isBeat (tickFrame s).2 = [].
Proof.
  unfold tickFrame. simpl. destruct (PrimFloat.leb _ _); reflexivity.
Qed.

Lemma beatFrame_lockstep (s t : MainProcessor) :
  sameBeatClock s t →
  (beatFrame s).2 = (beatFrame t).2 ∧
  ((beatFrame s).2 = [] → sameBeatClock (beatFrame s).1 (beatFrame t).1) ∧
  ((beatFrame s).2 ≠ [] →
   nextClickCountdown (beatFrame t).1 = samplesPerBeat t).
Proof.
  intros [Hc Hb]. unfold beatFrame, triggerMetronome, sameBeatClock. simpl.
  rewrite Hc, Hb. destruct (PrimFloat.leb _ _); simpl.
  - split; [reflexivity|]. split; [discriminate|].
    intros _. destruct (Nat.eqb _ _); reflexivity.
  - split; [reflexivity|]. split; [|intros H; contradiction H; reflexivity].
    intros _. split; [reflexivity | exact Hb].
Qed.

Lemma clockFrame_beats (s : MainProcessor) :
  List.filter isBeat (clockFrame s).2 = (beatFrame s).2.
Proof.
  rewrite clockFrame_eq. simpl. rewrite List.filter_app, tickFrame_no_beat, app_nil_r.
  unfold beatFrame, triggerMetronome. simpl.
  destruct (PrimFloat.leb _ _); reflexivity.
Qed.

Lemma clockFrame_ticks (s : MainProcessor) :
  List.filter isClockTick (clockFrame s).2 = (tickFrame (beatFrame s).1).2.
Proof.
  rewrite clockFrame_eq. simpl. rewrite List.filter_app, beatFrame_no_tick.
  unfold tickFrame. simpl. destruct (PrimFloat.leb _ _); reflexivity.
Qed.

Lemma clockFrame_beat_lockstep (s t : MainProcessor) :
  sameBeatClock s t →
  List.filter isBeat (clockFrame s).2 = List.filter isBeat (clockFrame t).2 ∧
  (List.filter isBeat (clockFrame s).2 = [] →
   sameBeatClock (clockFrame s).1 (clockFrame t).1) ∧
  (List.filter isBeat (clockFrame s).2 ≠ [] →
   nextClickCountdown (clockFrame t).1 = samplesPerBeat t).
Proof.
  intros H. rewrite !clockFrame_beats.
  destruct (beatFrame_lockstep s t H) as (He & Hsame & Hfire).
  split; [exact He|]. rewrite !clockFrame_eq. simpl.
  destruct (tickFrame_frame (beatFrame s).1) as (_ & Hc1 & Hb1 & _).
  destruct (tickFrame_frame (beatFrame t).1) as (_ & Hc2 & Hb2 & _).
  split.
  - intros Hnil. destruct (Hsame Hnil) as [Hc Hb].
    split; congruence.
  - intros Hne. rewrite Hc2. apply Hfire, Hne.
Qed.

Lemma clockLoop_beat_lockstep (n : nat) (s t : MainProcessor) :
  sameBeatClock s t →
  List.filter isBeat (clockLoop n s).2 = [] →
  List.filter isBeat (clockLoop n t).2 = [] ∧
  sameBeatClock (clockLoop n s).1 (clockLoop n t).1.
Proof.
  revert s t. induction n as [|k IH]; intros s t H Hnil.
  - simpl. split; [reflexivity | exact H].
  - rewrite (clockLoop_S k s) in Hnil. rewrite (clockLoop_S k s), (clockLoop_S k t).
    simpl in *.
    rewrite List.filter_app in Hnil. apply app_eq_nil in Hnil as [Hn1 Hn2].
    destruct (clockFrame_beat_lockstep s t H) as (He & Hsame & _).
    destruct (IH _ _ (Hsame Hn1) Hn2) as [Hn3 Hs3].
    rewrite List.filter_app, <- He, Hn1, Hn3. split; [reflexivity | exact Hs3].
Qed.

Lemma tickFrame_lockstep_until (s t : MainProcessor) :
  sameTickClock s t →
  (tickFrame s).2 = (tickFrame t).2 ∧
  ((tickFrame s).2 = [] → sameTickClock (tickFrame s).1 (tickFrame t).1) ∧
  ((tickFrame s).2 ≠ [] →
   ticksUntilNextClock (tickFrame t).1 = PrimFloat.div (samplesPerBeat t) 24).
Proof.
  unfold sameTickClock, tickFrame. simpl. intros ->.
  destruct (PrimFloat.leb _ _); simpl.
  - split; [reflexivity|]. split; [discriminate | reflexivity].
  - split; [reflexivity|]. split; [reflexivity|].
    intros H; contradiction H; reflexivity.
Qed.

Lemma clockFrame_tick_lockstep_until (s t : MainProcessor) :
  sameTickClock s t →
  List.filter isClockTick (clockFrame s).2
  = List.filter isClockTick (clockFrame t).2 ∧
  (List.filter isClockTick (clockFrame s).2 = [] →
   sameTickClock (clockFrame s).1 (clockFrame t).1) ∧
  (List.filter isClockTick (clockFrame s).2 ≠ [] →
   ticksUntilNextClock (clockFrame t).1 = PrimFloat.div (samplesPerBeat t) 24).
Proof.
  intros H. rewrite !clockFrame_ticks.
  destruct (beatFrame_frame s) as [_ Hs], (beatFrame_frame t) as [Ft Ht].
  assert (H1 : sameTickClock (beatFrame s).1 (beatFrame t).1).
  { unfold sameTickClock in *. congruence. }
  destruct (tickFrame_lockstep_until _ _ H1) as (He & Hsame & Hfire).
  split; [exact He|]. rewrite !clockFrame_eq. simpl.
  split; [exact Hsame|].
  intros Hne. rewrite (Hfire Hne).
  destruct Ft as (_&_&_&_&_&_&->&_). reflexivity.
Qed.

Lemma clockLoop_tick_lockstep_until (n : nat) (s t : MainProcessor) :
  sameTickClock s t →
  List.filter isClockTick (clockLoop n s).2 = [] →
  List.filter isClockTick (clockLoop n t).2 = [] ∧
  sameTickClock (clockLoop n s).1 (clockLoop n t).1.
Proof.
  revert s t. induction n as [|k IH]; intros s t H Hnil.
  - simpl. split; [reflexivity | exact H].
  - rewrite (clockLoop_S k s) in Hnil. rewrite (clockLoop_S k s), (clockLoop_S k t).
    simpl in *.
    rewrite List.filter_app in Hnil. apply app_eq_nil in Hnil as [Hn1 Hn2].
    destruct (clockFrame_tick_lockstep_until s t H) as (He & Hsame & _).
    destruct (IH _ _ (Hsame Hn1) Hn2) as [Hn3 Hs3].
    rewrite List.filter_app, <- He, Hn1, Hn3. split; [reflexivity | exact Hs3].
Qed.

(** ** Commands *)

(** C7. A PLAY_SAMPLE for a pad that has no sample is a silent no-op: the
    handler returns the processor it was given and posts no event, so no
    voice is added, no voice is choked, and any block rendered afterwards
    (events, fields, outputs, TypeError or not) is the block that would
    have been rendered without the command. *)
Theorem C7_play_unloaded_pad_is_noop (sampleRate : float) (s : MainProcessor)
    (id : string) (velocity : option float) :
  sampleBuffers s !! id = None →
  onmessage sampleRate s (PLAY_SAMPLE id velocity) = (s, []) ∧
  activeVoices (onmessage sampleRate s (PLAY_SAMPLE id velocity)).1
  = activeVoices s ∧
  ∀ (Math_sin : float → float) (outputs : list (list (list float))),
    process sampleRate Math_sin
      (onmessage sampleRate s (PLAY_SAMPLE id velocity)).1 outputs
    = process sampleRate Math_sin s outputs.
Proof.
  intros Hnone.
  assert (E : onmessage sampleRate s (PLAY_SAMPLE id velocity) = (s, [])).
  { simpl. unfold triggerVoice. rewrite Hnone. reflexivity. }
  rewrite E. simpl. repeat split.
Qed.

Lemma C7_play_unloaded_pad_is_noop_witness :
  sampleBuffers (newMainProcessor 48000) !! "pad1" = None ∧
  onmessage 48000 (newMainProcessor 48000) (PLAY_SAMPLE "pad1" (Some 0.5%float))
  = (newMainProcessor 48000, []).
Proof.
  split; [reflexivity|].
  apply (C7_play_unloaded_pad_is_noop 48000 (newMainProcessor 48000) "pad1"
           (Some 0.5%float)).
  reflexivity.
Defined.

(** C4. After SET_BPM the stored samples-per-beat is the double
    [(sampleRate * 60) / bpm], with no further rounding.  At 48000 Hz and
    120 bpm it is 24000 and the 24 PPQ countdown is reloaded with 1000.
    The processor starts with its beat countdown and beat index at 0, and
    the first block it renders (of at least one frame) posts BEAT 0 before
    any other event. *)
Theorem C4_samples_per_beat_and_first_beat :
  (∀ (sampleRate tempo : float) (s : MainProcessor),
     samplesPerBeat (onmessage sampleRate s (SET_BPM tempo)).1
     = PrimFloat.div (PrimFloat.mul sampleRate 60) tempo ∧
     bpm (onmessage sampleRate s (SET_BPM tempo)).1 = tempo) ∧
  (let s0 := (onmessage 48000 (newMainProcessor 48000) (SET_BPM 120)).1 in
   s0 = newMainProcessor 48000 ∧
   samplesPerBeat s0 = 24000%float ∧
   PrimFloat.div (samplesPerBeat s0) 24 = 1000%float ∧
   ticksUntilNextClock (clockFrame s0).1 = 1000%float ∧
   nextClickCountdown s0 = 0%float ∧
   currentBeat s0 = 0 ∧
   ∀ (Math_sin : float → float) (x : float) (ch0 : list float)
     (chs : list (list float)) (rest : list (list (list float))),
     ∃ events,
       (process 48000 Math_sin s0 (((x :: ch0) :: chs) :: rest)).1
       = BEAT 0 :: events).
Proof.
  split; [intros; split; reflexivity|].
  assert (E : (onmessage 48000 (newMainProcessor 48000) (SET_BPM 120)).1
              = newMainProcessor 48000) by (vm_compute; reflexivity).
  cbv zeta. rewrite E.
  do 6 (split; [vm_compute; reflexivity|]).
  intros Math_sin x ch0 chs rest.
  rewrite process_events.
  change ((((x :: ch0) :: chs) :: rest) !! 0) with (Some ((x :: ch0) :: chs)).
  cbv beta iota. change (length (x :: ch0)) with (S (length ch0)).
  rewrite clockLoop_S. cbn [snd].
  assert (F : (clockFrame (newMainProcessor 48000)).2 = [BEAT 0; CLOCK_TICK])
    by (vm_compute; reflexivity).
  rewrite F. eexists. reflexivity.
Qed.

Lemma metronomeLoop_countdowns (Math_sin : float → float) (frames : nat) :
  ∀ (i : nat) (s : MainProcessor) (outputs : list (list (list float))),
    sameCountdowns s (metronomeLoop Math_sin frames i s outputs).1.
Proof.
  induction frames as [|k IH]; intros i s outputs; cbn [metronomeLoop].
  - repeat split.
  - destruct (PrimFloat.ltb 0 (metronomePhase s)); [|repeat split].
    destruct (IH (S i)
                (set_metronomePhase (PrimFloat.sub (metronomePhase s) 15) s)
                (mixAdd i
                   (PrimFloat.mul
                      (Math_sin (PrimFloat.mul (metronomePhase s) (clickFreq s)))
                      (clickAmp s)) outputs)) as (H1 & H2 & H3).
    split; [exact H1|]. split; [exact H2 | exact H3].
Qed.

Lemma toneLoop_countdowns (sampleRate : float) (Math_sin : float → float)
    (frames : nat) :
  ∀ (i : nat) (s : MainProcessor) (outputs : list (list (list float))),
    sameCountdowns s (toneLoop sampleRate Math_sin frames i s outputs).1.
Proof.
  induction frames as [|k IH]; intros i s outputs; cbn [toneLoop].
  - repeat split.
  - cbv zeta.
    match goal with
    | |- sameCountdowns s (toneLoop _ _ k (S i) ?s1 ?o1).1 =>
        destruct (IH (S i) s1 o1) as (H1 & H2 & H3)
    end.
    split; [exact H1|]. split; [exact H2 | exact H3].
Qed.

Lemma process_countdowns (sampleRate : float) (Math_sin : float → float)
    (s s' : MainProcessor) (ch0 : list float) (chs : list (list float))
    (rest outputs' : list (list (list float))) :
  (process sampleRate Math_sin s ((ch0 :: chs) :: rest)).2
  = Some (s', outputs') →
  sameCountdowns (clockLoop (length ch0) s).1 s'.
Proof.
  unfold process.
  change ((((ch0 :: chs) :: rest)) !! 0) with (Some (ch0 :: chs)).
  cbv beta iota.
  destruct (clockLoop (length ch0) s) as [s1 ev]. cbn [fst].
  pose proof (fun o => metronomeLoop_countdowns Math_sin (length ch0) 0 s1 o)
    as Hm.
  unfold metronomeStage.
  destruct (isMetronomeEnabled s1 && PrimFloat.ltb 0 (metronomePhase s1)).
  - specialize (Hm (clearOutputs ((ch0 :: chs) :: rest))).
    destruct (metronomeLoop _ _ _ _ _) as [s2 o1]. cbn [fst] in Hm.
    pose proof (toneLoop_countdowns sampleRate Math_sin (length ch0) 0 s2 o1)
      as Ht.
    unfold toneStage. destruct (isTonePlaying s2).
    + destruct (toneLoop _ _ _ _ _ _) as [s3 o2]. cbn [fst snd] in *.
      destruct (renderVoices _ _ _ _) as [[voices o3]|]; [|discriminate].
      cbn. intros [= <- <-].
      destruct Hm as (?&?&?), Ht as (?&?&?). repeat split; cbn; congruence.
    + cbn [snd]. destruct (renderVoices _ _ _ _) as [[voices o3]|];
        [|discriminate].
      cbn. intros [= <- <-]. exact Hm.
  - clear Hm.
    pose proof (toneLoop_countdowns sampleRate Math_sin (length ch0) 0 s1
                  (clearOutputs ((ch0 :: chs) :: rest))) as Ht.
    unfold toneStage. destruct (isTonePlaying s1).
    + destruct (toneLoop _ _ _ _ _ _) as [s3 o2]. cbn [fst snd] in *.
      destruct (renderVoices _ _ _ _) as [[voices o3]|]; [|discriminate].
      cbn. intros [= <- <-]. exact Ht.
    + cbn [snd]. destruct (renderVoices _ _ _ _) as [[voices o3]|];
        [|discriminate].
      cbn. intros [= <- <-]. repeat split.
Qed.

(** One frame of the clock loop, seen from the timing pulse. *)
Lemma clockFrame_pulse (s : MainProcessor) :
  let t := PrimFloat.sub (ticksUntilNextClock s) 1 in
  ticksUntilNextClock (clockFrame s).1
  = (if PrimFloat.leb t 0 then PrimFloat.div (samplesPerBeat s) 24 else t) ∧
  List.filter isClockTick (clockFrame s).2
  = (if PrimFloat.leb t 0 then [CLOCK_TICK] else []) ∧
  samplesPerBeat (clockFrame s).1 = samplesPerBeat s.
Proof.
  intros t. split; [|split].
  - rewrite clockFrame_eq. cbn [fst].
    destruct (beatFrame_frame s) as [(_&_&_&_&_&_&Hs&_) Ht].
    unfold tickFrame. cbn [ticksUntilNextClock set_ticksUntilNextClock].
    cbn [samplesPerBeat set_ticksUntilNextClock].
    rewrite Ht, Hs. fold t.
    destruct (PrimFloat.leb t 0); reflexivity.
  - rewrite clockFrame_ticks.
    destruct (beatFrame_frame s) as [_ Ht].
    unfold tickFrame. cbn [ticksUntilNextClock set_ticksUntilNextClock].
    rewrite Ht. fold t.
    destruct (PrimFloat.leb t 0); reflexivity.
  - destruct (clockFrame_frame s) as (_&_&_&_&_&_&Hs&_). exact Hs.
Qed.

(** The clock loop over [n] frames posts the pulses of [n] steps of the
    countdown, one step per frame. *)
Lemma clockLoop_pulseTrain (n : nat) :
  ∀ s : MainProcessor,
    List.filter isClockTick (clockLoop n s).2
    = (pulseTrain n (samplesPerBeat s) (ticksUntilNextClock s)).1 ∧
    ticksUntilNextClock (clockLoop n s).1
    = (pulseTrain n (samplesPerBeat s) (ticksUntilNextClock s)).2.
Proof.
  induction n as [|k IH]; intros s; [split; reflexivity|].
  rewrite clockLoop_S. cbn [fst snd pulseTrain].
  destruct (clockFrame_pulse s) as (Ht & He & Hs). cbv zeta in Ht, He.
  destruct (IH (clockFrame s).1) as [IH1 IH2].
  rewrite List.filter_app, He, IH1, IH2, Hs, Ht.
  destruct (PrimFloat.leb (PrimFloat.sub (ticksUntilNextClock s) 1) 0).
  - destruct (pulseTrain k (samplesPerBeat s)
                (PrimFloat.div (samplesPerBeat s) 24)) as [pulses t2].
    split; reflexivity.
  - split; reflexivity.
Qed.

(** C5. In a rendered block (one that has a mix channel) the clock loop runs
    once per frame; each frame decrements the 24 PPQ countdown and, when the
    result is <= 0, posts CLOCK_TICK and reloads the countdown with
    samples-per-beat / 24.  Neither the test nor the reload reads the
    metronome switch, and TOGGLE_METRONOME changes neither the countdown
    nor samples-per-beat: with the metronome toggled either way, a block
    posts the same CLOCK_TICK events and leaves the same countdown.  A
    block of n frames posts the pulses of n such steps, in order, starting
    from the countdown it was given, and leaves the countdown the n-th step
    leaves, with the metronome on as with the metronome off. *)
Theorem C5_clock_tick_ignores_metronome :
  (∀ s : MainProcessor,
     let t := PrimFloat.sub (ticksUntilNextClock s) 1 in
     ticksUntilNextClock (clockFrame s).1
     = (if PrimFloat.leb t 0 then PrimFloat.div (samplesPerBeat s) 24 else t) ∧
     List.filter isClockTick (clockFrame s).2
     = (if PrimFloat.leb t 0 then [CLOCK_TICK] else [])) ∧
  (∀ (sampleRate : float) (Math_sin : float → float) (s : MainProcessor)
     (ch0 : list float) (chs : list (list float))
     (rest : list (list (list float))),
     (process sampleRate Math_sin s ((ch0 :: chs) :: rest)).1
     = (clockLoop (length ch0) s).2 ∧
     ∀ (s' : MainProcessor) (outputs' : list (list (list float))),
       (process sampleRate Math_sin s ((ch0 :: chs) :: rest)).2
       = Some (s', outputs') →
       ticksUntilNextClock s'
       = ticksUntilNextClock (clockLoop (length ch0) s).1) ∧
  (∀ (sampleRate : float) (s : MainProcessor) (enabled : bool),
     let t := (onmessage sampleRate s (TOGGLE_METRONOME enabled)).1 in
     ticksUntilNextClock t = ticksUntilNextClock s ∧
     samplesPerBeat t = samplesPerBeat s ∧
     (∀ n : nat,
        List.filter isClockTick (clockLoop n t).2
        = List.filter isClockTick (clockLoop n s).2 ∧
        ticksUntilNextClock (clockLoop n t).1
        = ticksUntilNextClock (clockLoop n s).1) ∧
     (∀ (Math_sin : float → float) (outputs : list (list (list float))),
        List.filter isClockTick (process sampleRate Math_sin t outputs).1
        = List.filter isClockTick (process sampleRate Math_sin s outputs).1)) ∧
  (∀ (sampleRate : float) (Math_sin : float → float) (s : MainProcessor)
     (enabled : bool) (ch0 : list float) (chs : list (list float))
     (rest : list (list (list float))),
     let t := set_isMetronomeEnabled enabled s in
     let train :=
       pulseTrain (length ch0) (samplesPerBeat s) (ticksUntilNextClock s) in
     List.filter isClockTick
       (process sampleRate Math_sin t ((ch0 :: chs) :: rest)).1
     = train.1 ∧
     ∀ (t' : MainProcessor) (outputs' : list (list (list float))),
       (process sampleRate Math_sin t ((ch0 :: chs) :: rest)).2
       = Some (t', outputs') →
       ticksUntilNextClock t' = train.2 ∧
       samplesPerBeat t' = samplesPerBeat s).
Proof.
  split; [|split; [|split]].
  - intros s t. rewrite clockFrame_ticks, clockFrame_eq. cbn [fst].
    destruct (beatFrame_frame s) as [(_&_&_&_&_&_&Hs&_) Ht].
    unfold tickFrame. cbn [ticksUntilNextClock set_ticksUntilNextClock].
    cbn [samplesPerBeat set_ticksUntilNextClock].
    rewrite Ht, Hs. fold t.
    destruct (PrimFloat.leb t 0); split; reflexivity.
  - intros. split; [rewrite process_events; reflexivity|].
    intros s' outputs' Hp.
    apply (process_countdowns _ _ _ _ _ _ _ _ Hp).
  - intros sampleRate s enabled t.
    assert (Ht : ticksUntilNextClock t = ticksUntilNextClock s)
      by (subst t; destruct enabled; reflexivity).
    assert (Hs : samplesPerBeat t = samplesPerBeat s)
      by (subst t; destruct enabled; reflexivity).
    split; [exact Ht|]. split; [exact Hs|]. split.
    + intros n. apply clockLoop_ticks_lockstep; assumption.
    + intros Math_sin outputs. rewrite !process_events.
      destruct (outputs !! 0) as [[|ch0 chs]|]; try reflexivity.
      apply clockLoop_ticks_lockstep; assumption.
  - intros sampleRate Math_sin s enabled ch0 chs rest t train.
    destruct (clockLoop_pulseTrain (length ch0) t) as [He Ht].
    change (samplesPerBeat t) with (samplesPerBeat s) in He, Ht.
    change (ticksUntilNextClock t) with (ticksUntilNextClock s) in He, Ht.
    fold train in He, Ht.
    split; [rewrite process_events; exact He|].
    intros t' outputs' Hp.
    destruct (process_countdowns _ _ _ _ _ _ _ _ Hp) as (H1 & _ & H3).
    destruct (clockLoop_frame (length ch0) t) as (_&_&_&_&_&_&Hs&_).
    split; [rewrite H1; exact Ht|].
    rewrite H3, Hs. reflexivity.
Qed.

Lemma C5_clock_tick_ignores_metronome_witness :
  (process 48000 silentSin (newMainProcessor 48000) (hostOutputs 128)).2
  = Some (afterFirstBlock, hostOutputs 128) ∧
  ticksUntilNextClock afterFirstBlock
  = ticksUntilNextClock
      (clockLoop (length (replicate 128 0%float)) (newMainProcessor 48000)).1.
Proof.
  assert (H : (process 48000 silentSin (newMainProcessor 48000)
                 (hostOutputs 128)).2
              = Some (afterFirstBlock, hostOutputs 128))
    by (vm_compute; reflexivity).
  split; [exact H|].
  exact (proj2 (proj1 (proj2 C5_clock_tick_ignores_metronome) 48000%float silentSin
                  (newMainProcessor 48000) (replicate 128 0%float)
                  [replicate 128 0%float] (replicate 16 [replicate 128 0%float]))
           afterFirstBlock (hostOutputs 128) H).
Defined.

(** C6. SET_BPM writes the tempo and the samples-per-beat value derived
    from it and nothing else: both countdowns, the beat index, the
    metronome envelope and switch, the voices, the samples, the choke
    groups and the tone keep their values.  A countdown in flight is not
    rescaled: as long as the old countdown has not expired, the processor
    that received SET_BPM and the one that did not count down alike; the
    boundary comes on the same frame for both, and only there is the
    countdown reloaded with the new interval. *)
Theorem C6_set_bpm_keeps_countdowns (sampleRate : float) (s : MainProcessor)
    (tempo : float) :
  let t := (onmessage sampleRate s (SET_BPM tempo)).1 in
  let interval := PrimFloat.div (PrimFloat.mul sampleRate 60) tempo in
  (bpm t = tempo ∧ samplesPerBeat t = interval ∧
   nextClickCountdown t = nextClickCountdown s ∧
   ticksUntilNextClock t = ticksUntilNextClock s ∧
   currentBeat t = currentBeat s ∧
   metronomePhase t = metronomePhase s ∧
   clickFreq t = clickFreq s ∧ clickAmp t = clickAmp s ∧
   isMetronomeEnabled t = isMetronomeEnabled s ∧
   activeVoices t = activeVoices s ∧ sampleBuffers t = sampleBuffers s ∧
   chokeGroups t = chokeGroups s ∧
   phase t = phase s ∧ isTonePlaying t = isTonePlaying s) ∧
  (∀ n : nat,
     List.filter isBeat (clockLoop n s).2 = [] →
     List.filter isBeat (clockLoop n t).2 = [] ∧
     nextClickCountdown (clockLoop n t).1 = nextClickCountdown (clockLoop n s).1 ∧
     List.filter isBeat (clockFrame (clockLoop n t).1).2
     = List.filter isBeat (clockFrame (clockLoop n s).1).2 ∧
     (List.filter isBeat (clockFrame (clockLoop n s).1).2 ≠ [] →
      nextClickCountdown (clockLoop (S n) t).1 = interval)) ∧
  (∀ n : nat,
     List.filter isClockTick (clockLoop n s).2 = [] →
     List.filter isClockTick (clockLoop n t).2 = [] ∧
     ticksUntilNextClock (clockLoop n t).1 = ticksUntilNextClock (clockLoop n s).1 ∧
     List.filter isClockTick (clockFrame (clockLoop n t).1).2
     = List.filter isClockTick (clockFrame (clockLoop n s).1).2 ∧
     (List.filter isClockTick (clockFrame (clockLoop n s).1).2 ≠ [] →
      ticksUntilNextClock (clockLoop (S n) t).1 = PrimFloat.div interval 24)).
Proof.
  intros t interval. split; [repeat split|]. split.
  - intros n Hnil.
    assert (H0 : sameBeatClock s t) by (split; reflexivity).
    destruct (clockLoop_beat_lockstep n s t H0 Hnil) as [Hn Hsame].
    destruct (clockFrame_beat_lockstep _ _ Hsame) as (He & _ & Hfire).
    split; [exact Hn|]. split; [symmetry; apply Hsame|].
    split; [symmetry; exact He|].
    intros Hne. rewrite clockLoop_snoc. cbn [fst]. rewrite (Hfire Hne).
    destruct (clockLoop_frame n t) as (_&_&_&_&_&_&->&_). reflexivity.
  - intros n Hnil.
    assert (H0 : sameTickClock s t) by reflexivity.
    destruct (clockLoop_tick_lockstep_until n s t H0 Hnil) as [Hn Hsame].
    destruct (clockFrame_tick_lockstep_until _ _ Hsame) as (He & _ & Hfire).
    split; [exact Hn|]. split; [symmetry; apply Hsame|].
    split; [symmetry; exact He|].
    intros Hne. rewrite clockLoop_snoc. cbn [fst]. rewrite (Hfire Hne).
    destruct (clockLoop_frame n t) as (_&_&_&_&_&_&->&_). reflexivity.
Qed.

Lemma C6_set_bpm_keeps_countdowns_witness :
  nextClickCountdown afterFirstBlock = 23873%float ∧
  ticksUntilNextClock afterFirstBlock = 873%float ∧
  List.filter isClockTick (clockLoop 872 afterFirstBlock).2 = [] ∧
  List.filter isClockTick
    (clockFrame (clockLoop 872 afterFirstBlock).1).2 ≠ [] ∧
  ticksUntilNextClock
    (clockLoop 873 (onmessage 48000 afterFirstBlock (SET_BPM 60)).1).1
  = 2000%float ∧
  List.filter isBeat (clockLoop 23872 afterFirstBlock).2 = [] ∧
  List.filter isBeat (clockFrame (clockLoop 23872 afterFirstBlock).1).2 ≠ [] ∧
  nextClickCountdown
    (clockLoop 23873 (onmessage 48000 afterFirstBlock (SET_BPM 60)).1).1
  = 48000%float.
Proof.
  assert (T1 : List.filter isClockTick (clockLoop 872 afterFirstBlock).2 = [])
    by (vm_compute; reflexivity).
  assert (T2 : List.filter isClockTick
                 (clockFrame (clockLoop 872 afterFirstBlock).1).2 ≠ [])
    by (vm_compute; discriminate).
  assert (B1 : List.filter isBeat (clockLoop 23872 afterFirstBlock).2 = [])
    by (vm_compute; reflexivity).
  assert (B2 : List.filter isBeat
                 (clockFrame (clockLoop 23872 afterFirstBlock).1).2 ≠ [])
    by (vm_compute; discriminate).
  destruct (C6_set_bpm_keeps_countdowns 48000 afterFirstBlock 60)
    as (_ & Hbeat & Htick).
  split; [vm_compute; reflexivity|]. split; [vm_compute; reflexivity|].
  split; [exact T1|]. split; [exact T2|].
  split; [exact (proj2 (proj2 (proj2 (Htick 872 T1))) T2)|].
  split; [exact B1|]. split; [exact B2|].
  exact (proj2 (proj2 (proj2 (Hbeat 23872 B1))) B2).
Defined.

(** ** triggerVoice *)

Lemma triggerVoice_loaded (s : MainProcessor) (id : string)
    (velocity : option float) (buffer : list (list float)) :
  sampleBuffers s !! id = Some buffer →
  triggerVoice id velocity s =
  set_activeVoices
    (match chokeGroups s !! id with
     | Some group => choke (chokeGroups s) group <$> activeVoices s
     | None => activeVoices s
     end ++ [mkVoice id 0 true (default 1%float velocity) (padSlot id)]) s.
Proof. intros H. unfold triggerVoice. rewrite H. reflexivity. Qed.

Lemma choke_idemp (groups : gmap string float) (group : float)
    (voice : SampleVoice) :
  choke groups group (choke groups group voice) = choke groups group voice.
Proof.
  unfold choke.
  destruct (isPlaying voice && sameGroup (groups !! sampleId voice) group)
    eqn:E; [reflexivity|].
  rewrite E. reflexivity.
Qed.

(** A voice that is not playing adds nothing to any output and leaves the
    list of active voices at the next block. *)
Lemma renderVoice_stopped (buffers : gmap string (list (list float)))
    (bufferSize : nat) (voice : SampleVoice)
    (outputs : list (list (list float))) :
  isPlaying voice = false →
  renderVoice buffers bufferSize voice outputs = Some (None, outputs).
Proof.
  intros H. unfold renderVoice.
  destruct (buffers !! sampleId voice) as [buffer|]; [|reflexivity].
  destruct bufferSize; simpl; rewrite ?H; simpl; rewrite ?H; reflexivity.
Qed.

(** A block renders the active list as if the stopped voice were not in
    it. *)
Lemma renderVoices_stopped (buffers : gmap string (list (list float)))
    (bufferSize : nat) (voice : SampleVoice) (before after : list SampleVoice)
    (outputs : list (list (list float))) :
  isPlaying voice = false →
  renderVoices buffers bufferSize (before ++ voice :: after) outputs
  = renderVoices buffers bufferSize (before ++ after) outputs.
Proof.
  intros Hp. induction before as [|v before IH]; cbn [app renderVoices].
  - destruct (renderVoices buffers bufferSize after outputs) as [[rest o1]|];
      [|reflexivity].
    simpl. rewrite (renderVoice_stopped _ _ _ _ Hp). reflexivity.
  - rewrite IH. reflexivity.
Qed.

(** C2. A trigger of a pad that has a sample and a choke group [g] stops,
    while the command is handled, every playing voice whose pad's group is
    [g] (equality of numbers, [===]; for a group that is a number equal to
    itself, every playing voice whose pad is mapped to [g]): its playing
    flag becomes false at once, its cursor and gain stay as they were (no
    fade-out).  A voice whose
    pad is in another group or in none is left exactly as it was.  A voice
    that is not playing adds nothing to the outputs of the next block and is
    dropped from the active list there: the block is rendered as if that
    voice were not in the list. *)
Theorem C2_choke_group_hard_stop (sampleRate : float) (s : MainProcessor)
    (id : string) (velocity : option float) (buffer : list (list float))
    (g : float) :
  sampleBuffers s !! id = Some buffer →
  chokeGroups s !! id = Some g →
  let s' := (onmessage sampleRate s (PLAY_SAMPLE id velocity)).1 in
  (∀ (i : nat) (voice : SampleVoice),
     activeVoices s !! i = Some voice →
     isPlaying voice = true →
     sameGroup (chokeGroups s !! sampleId voice) g = true →
     activeVoices s' !! i
     = Some (mkVoice (sampleId voice) (bufferIndex voice) false (gain voice)
               (visSlot voice))) ∧
  (∀ (i : nat) (voice : SampleVoice),
     activeVoices s !! i = Some voice →
     isPlaying voice = true →
     chokeGroups s !! sampleId voice = Some g →
     PrimFloat.eqb g g = true →
     activeVoices s' !! i = Some (stopVoice voice)) ∧
  (∀ (i : nat) (voice : SampleVoice),
     activeVoices s !! i = Some voice →
     sameGroup (chokeGroups s !! sampleId voice) g = false →
     activeVoices s' !! i = Some voice) ∧
  (∀ (voice : SampleVoice) (bufferSize : nat)
     (outputs : list (list (list float))),
     isPlaying voice = false →
     renderVoice (sampleBuffers s') bufferSize voice outputs
     = Some (None, outputs)) ∧
  (∀ (voice : SampleVoice) (before after : list SampleVoice)
     (bufferSize : nat) (outputs : list (list (list float))),
     isPlaying voice = false →
     renderVoices (sampleBuffers s') bufferSize (before ++ voice :: after)
       outputs
     = renderVoices (sampleBuffers s') bufferSize (before ++ after) outputs).
Proof.
  intros Hbuf Hgrp s'. subst s'. cbn [onmessage fst].
  rewrite (triggerVoice_loaded _ _ _ _ Hbuf), Hgrp. cbn [activeVoices set_activeVoices].
  split; [|split; [|split; [|split]]].
  - intros i voice Hi Hp Hg.
    rewrite lookup_app_l by (rewrite length_fmap; eapply lookup_lt_Some, Hi).
    rewrite list_lookup_fmap, Hi. cbn. unfold choke. rewrite Hp, Hg. reflexivity.
  - intros i voice Hi Hp Hg Hnum.
    rewrite lookup_app_l by (rewrite length_fmap; eapply lookup_lt_Some, Hi).
    rewrite list_lookup_fmap, Hi. cbn. unfold choke. rewrite Hp, Hg.
    cbn [sameGroup]. rewrite Hnum. reflexivity.
  - intros i voice Hi Hg.
    rewrite lookup_app_l by (rewrite length_fmap; eapply lookup_lt_Some, Hi).
    rewrite list_lookup_fmap, Hi. cbn. unfold choke. rewrite Hg.
    rewrite andb_false_r. reflexivity.
  - intros voice bufferSize outputs Hp. apply renderVoice_stopped, Hp.
  - intros voice before after bufferSize outputs Hp.
    apply renderVoices_stopped, Hp.
Qed.

Lemma C2_choke_group_hard_stop_witness :
  let s :=
    (onmessages 48000 (newMainProcessor 48000)
       [LOAD_SAMPLE "pad1" [[1; 1; 1; 1]%float];
        LOAD_SAMPLE "pad2" [[1; 1; 1; 1]%float];
        LOAD_SAMPLE "pad3" [[1; 1; 1; 1]%float];
        SET_CHOKE_GROUP "pad1" 1; SET_CHOKE_GROUP "pad2" 1;
        PLAY_SAMPLE "pad1" (Some 1%float);
        PLAY_SAMPLE "pad3" (Some 1%float)]).1 in
  sampleBuffers s !! "pad2" = Some [[1; 1; 1; 1]%float] ∧
  chokeGroups s !! "pad2" = Some 1%float ∧
  activeVoices s !! 0 = Some (mkVoice "pad1" 0 true 1 0) ∧
  sameGroup (chokeGroups s !! "pad1") 1 = true ∧
  activeVoices (onmessage 48000 s (PLAY_SAMPLE "pad2" (Some 1%float))).1 !! 0
  = Some (mkVoice "pad1" 0 false 1 0).
Proof.
  cbv zeta.
  set (s := (onmessages 48000 (newMainProcessor 48000) _).1).
  assert (Hb : sampleBuffers s !! "pad2" = Some [[1; 1; 1; 1]%float])
    by (vm_compute; reflexivity).
  assert (Hg : chokeGroups s !! "pad2" = Some 1%float)
    by (vm_compute; reflexivity).
  assert (Hv : activeVoices s !! 0 = Some (mkVoice "pad1" 0 true 1 0))
    by (vm_compute; reflexivity).
  assert (Hs : sameGroup (chokeGroups s !! "pad1") 1 = true)
    by (vm_compute; reflexivity).
  split; [exact Hb|]. split; [exact Hg|]. split; [exact Hv|].
  split; [exact Hs|].
  exact (proj1 (C2_choke_group_hard_stop 48000 s "pad2" (Some 1%float) _ _
                  Hb Hg) 0 _ Hv eq_refl Hs).
Defined.

(** ** Slots *)

Lemma padSlot_lt (id : string) : padSlot id < 16.
Proof.
  unfold padSlot. destruct (parseInt _) as [n|]; [|lia].
  destruct ((1 <=? n)%Z && (n <=? 16)%Z) eqn:E; [|lia].
  apply andb_true_iff in E as [H1 H2].
  apply Z.leb_le in H1, H2. lia.
Qed.

Lemma padSlot_padName (padNum : nat) :
  1 ≤ padNum ≤ 16 → padSlot (padName padNum) = padNum - 1.
Proof.
  intros [H1 H2].
  do 17 (destruct padNum as [|padNum]; [try lia; vm_compute; reflexivity|]).
  lia.
Qed.

(** C8. A trigger of a pad that has a sample appends one voice: cursor 0,
    gain the velocity of the trigger (1 when the command carries none),
    playing, and the slot [padSlot id].  The slot of [padN], N from 1 to
    16, is N - 1; an identifier whose remainder after removing [pad] does
    not parse as an integer from 1 to 16 gets slot 0. *)
Theorem C8_new_voice_fields (sampleRate : float) (s : MainProcessor)
    (id : string) (velocity : option float) (buffer : list (list float)) :
  sampleBuffers s !! id = Some buffer →
  let s' := (onmessage sampleRate s (PLAY_SAMPLE id velocity)).1 in
  length (activeVoices s') = S (length (activeVoices s)) ∧
  last (activeVoices s')
  = Some (mkVoice id 0 true (default 1%float velocity) (padSlot id)) ∧
  (∀ v : float, velocity = Some v →
     gain <$> last (activeVoices s') = Some v) ∧
  (∀ padNum : nat, 1 ≤ padNum ≤ 16 → padSlot (padName padNum) = padNum - 1) ∧
  (∀ other : string,
     (∀ n : Z, parseInt (replaceFirst "pad" EmptyString other) = Some n →
               ¬ (1 ≤ n ≤ 16)%Z) →
     padSlot other = 0).
Proof.
  intros Hbuf s'. subst s'. cbn [onmessage fst].
  rewrite (triggerVoice_loaded _ _ _ _ Hbuf). cbn [activeVoices set_activeVoices].
  split; [|split; [|split; [|split]]].
  - rewrite length_app. cbn [length].
    destruct (chokeGroups s !! id); [rewrite length_fmap|]; lia.
  - apply last_snoc.
  - intros v ->. rewrite last_snoc. reflexivity.
  - apply padSlot_padName.
  - intros other Hno. unfold padSlot.
    destruct (parseInt _) as [n|] eqn:E; [|reflexivity].
    destruct ((1 <=? n)%Z && (n <=? 16)%Z) eqn:R; [|reflexivity].
    apply andb_true_iff in R as [H1 H2]. apply Z.leb_le in H1, H2.
    exfalso. apply (Hno n eq_refl). lia.
Qed.

Lemma C8_new_voice_fields_witness :
  sampleBuffers
    (onmessage 48000 (newMainProcessor 48000)
       (LOAD_SAMPLE "pad7" [[1; 1; 1; 1]%float])).1 !! "pad7"
  = Some [[1; 1; 1; 1]%float] ∧
  last
    (activeVoices
       (onmessage 48000
          (onmessage 48000 (newMainProcessor 48000)
             (LOAD_SAMPLE "pad7" [[1; 1; 1; 1]%float])).1
          (PLAY_SAMPLE "pad7" (Some 0.5%float))).1)
  = Some (mkVoice "pad7" 0 true 0.5 6).
Proof.
  assert (Hb : sampleBuffers
                 (onmessage 48000 (newMainProcessor 48000)
                    (LOAD_SAMPLE "pad7" [[1; 1; 1; 1]%float])).1 !! "pad7"
               = Some [[1; 1; 1; 1]%float]) by (vm_compute; reflexivity).
  split; [exact Hb|].
  exact (proj1 (proj2 (C8_new_voice_fields 48000 _ "pad7" (Some 0.5%float)
                         _ Hb))).
Defined.

(** ** The sampler *)

Lemma visOutputPresent_ext (outs outs' : list (list (list float))) (j : nat) :
  length <$> outs' !! j = length <$> outs !! j →
  visOutputPresent outs' j = visOutputPresent outs j.
Proof.
  unfold visOutputPresent.
  destruct (outs' !! j) as [[|? ?]|], (outs !! j) as [[|? ?]|];
    simpl; intros H; try reflexivity; discriminate.
Qed.

Lemma visAdd_Some (idx i : nat) (x : float)
    (outs outs' : list (list (list float))) :
  visAdd idx i x outs = Some outs' →
  outs' !! idx = alter (accumulate i x) 0 <$> outs !! idx ∧
  (∀ j, j ≠ idx → outs' !! j = outs !! j) ∧
  (∀ j, length <$> outs' !! j = length <$> outs !! j).
Proof.
  unfold visAdd. destruct (outs !! idx) as [[|c cs]|] eqn:E; try discriminate.
  intros [= <-].
  assert (Hlt : idx < length outs) by (eapply lookup_lt_Some, E).
  split; [|split].
  - rewrite list_lookup_insert_eq by exact Hlt. reflexivity.
  - intros j Hj. apply list_lookup_insert_ne. congruence.
  - intros j. destruct (decide (j = idx)) as [->|Hj].
    + rewrite list_lookup_insert_eq, E by exact Hlt. reflexivity.
    + rewrite list_lookup_insert_ne by congruence. reflexivity.
Qed.

Lemma visAdd_is_Some (idx i : nat) (x : float)
    (outs : list (list (list float))) :
  visOutputPresent outs idx = true → is_Some (visAdd idx i x outs).
Proof.
  unfold visOutputPresent, visAdd.
  destruct (outs !! idx) as [[|c cs]|]; try discriminate. intros _. eauto.
Qed.

Lemma mix_alter_shape {f : nat → list float → list float}
    (Hf : ∀ ch arr, length (f ch arr) = length arr)
    (outs : list (list (list float))) (j : nat) :
  length <$> alter (imap f) 0 outs !! j = length <$> outs !! j.
Proof.
  destruct (decide (j = 0)) as [->|Hj].
  - rewrite list_lookup_alter_eq. destruct (outs !! 0); simpl; [|reflexivity].
    rewrite length_imap. reflexivity.
  - rewrite list_lookup_alter_ne by congruence. reflexivity.
Qed.

(** One frame of a voice whose sample has a channel. *)
Lemma voiceFrame_Some (b0 : list float) (bs : list (list float)) (vis : bool)
    (i : nat) (voice voice' : SampleVoice)
    (outs outs' : list (list (list float))) :
  voiceFrame (b0 :: bs) vis i voice outs = Some (voice', outs') →
  voice' = advance b0 voice ∧
  outs' !! 0
  = imap (fun ch => accumulate i (outSample (b0 :: bs) voice ch)) <$> outs !! 0 ∧
  outs' !! (visSlot voice + 1)
  = (if vis
     then alter (accumulate i
                   (PrimFloat.mul (readSample b0 (bufferIndex voice))
                      (gain voice))) 0
     else id) <$> outs !! (visSlot voice + 1) ∧
  (∀ j, j ≠ 0 → j ≠ visSlot voice + 1 → outs' !! j = outs !! j) ∧
  (∀ j, visOutputPresent outs' j = visOutputPresent outs j).
Proof.
  unfold voiceFrame.
  set (outs1 := alter (imap _) 0 outs).
  assert (H0 : outs1 !! 0
    = imap (fun ch => accumulate i (outSample (b0 :: bs) voice ch)) <$> outs !! 0)
    by apply list_lookup_alter_eq.
  assert (Hne : ∀ j, j ≠ 0 → outs1 !! j = outs !! j)
    by (intros j Hj; apply list_lookup_alter_ne; congruence).
  assert (Hsh : ∀ j, length <$> outs1 !! j = length <$> outs !! j).
  { intros j. apply mix_alter_shape. intros. apply length_alter. }
  destruct vis; simpl.
  - destruct (visAdd _ _ _ _) as [outs2|] eqn:E; [|discriminate].
    simpl. intros [= <- <-].
    destruct (visAdd_Some _ _ _ _ _ E) as (Hv & Ho & Hl).
    split; [reflexivity|]. split; [|split; [|split]].
    + rewrite Ho by lia. exact H0.
    + rewrite Hv, Hne by lia. reflexivity.
    + intros j H1 H2. rewrite Ho, Hne by assumption. reflexivity.
    + intros j. apply visOutputPresent_ext. rewrite Hl. apply Hsh.
  - intros [= <- <-].
    split; [reflexivity|]. split; [exact H0|]. split; [|split].
    + rewrite Hne by lia. destruct (outs !! (visSlot voice + 1)); reflexivity.
    + intros j H1 _. apply Hne, H1.
    + intros j. apply visOutputPresent_ext, Hsh.
Qed.

(** The frame does not fail: the write to the visualization output is only
    made when that output is there. *)
Lemma voiceFrame_is_Some (b0 : list float) (bs : list (list float))
    (vis : bool) (i : nat) (voice : SampleVoice)
    (outs : list (list (list float))) :
  (vis = true → visOutputPresent outs (visSlot voice + 1) = true) →
  is_Some (voiceFrame (b0 :: bs) vis i voice outs).
Proof.
  intros Hvis. unfold voiceFrame. destruct vis; simpl; [|eauto].
  set (outs1 := alter (imap _) 0 outs).
  assert (Hp : visOutputPresent outs1 (visSlot voice + 1) = true).
  { rewrite <- (Hvis eq_refl). apply visOutputPresent_ext, mix_alter_shape.
    intros. apply length_alter. }
  destruct (visAdd_is_Some (visSlot voice + 1) i
              (PrimFloat.mul (readSample b0 (bufferIndex voice)) (gain voice))
              outs1 Hp) as [outs2 ->].
  simpl. eauto.
Qed.

Lemma advance_visSlot (b0 : list float) (voice : SampleVoice) :
  visSlot (advance b0 voice) = visSlot voice.
Proof. reflexivity. Qed.

(** The frame loop of one voice writes the mix and that voice's
    visualization output, and nothing else. *)
Lemma voiceLoop_Some (buffer : list (list float)) (vis : bool) (frames : nat) :
  ∀ (i : nat) (voice voice' : SampleVoice)
    (outs outs' : list (list (list float))),
    voiceLoop buffer vis frames i voice outs = Some (voice', outs') →
    visSlot voice' = visSlot voice ∧
    (∀ j, j ≠ 0 → j ≠ visSlot voice + 1 → outs' !! j = outs !! j) ∧
    (vis = false → ∀ j, j ≠ 0 → outs' !! j = outs !! j) ∧
    (∀ j, visOutputPresent outs' j = visOutputPresent outs j).
Proof.
  induction frames as [|k IH]; intros i voice voice' outs outs'; simpl.
  - intros [= <- <-]. repeat split.
  - destruct (isPlaying voice); [|intros [= <- <-]; repeat split].
    destruct buffer as [|b0 bs]; [discriminate|].
    destruct (voiceFrame (b0 :: bs) vis i voice outs) as [[v1 o1]|] eqn:E;
      [|discriminate].
    simpl. intros Hloop.
    destruct (voiceFrame_Some _ _ _ _ _ _ _ _ E) as (-> & _ & Hv & Ho & Hp).
    destruct (IH _ _ _ _ _ Hloop) as (Hs & Ho' & Hf' & Hp').
    rewrite advance_visSlot in Hs, Ho'.
    split; [exact Hs|]. split; [|split].
    + intros j H1 H2. rewrite Ho', Ho by assumption. reflexivity.
    + intros -> j H1. rewrite (Hf' eq_refl) by assumption.
      destruct (decide (j = visSlot voice + 1)) as [->|H2].
      * rewrite Hv. destruct (outs !! (visSlot voice + 1)); reflexivity.
      * apply Ho; assumption.
    + intros j. rewrite Hp'. apply Hp.
Qed.

Lemma voiceLoop_is_Some (b0 : list float) (bs : list (list float))
    (vis : bool) (frames : nat) :
  ∀ (i : nat) (voice : SampleVoice) (outs : list (list (list float))),
    (vis = true → visOutputPresent outs (visSlot voice + 1) = true) →
    is_Some (voiceLoop (b0 :: bs) vis frames i voice outs).
Proof.
  induction frames as [|k IH]; intros i voice outs Hvis; cbn [voiceLoop];
    [eauto|].
  destruct (isPlaying voice); [|eauto].
  destruct (voiceFrame_is_Some b0 bs vis i voice outs Hvis) as [[v1 o1] E].
  rewrite E. simpl.
  destruct (voiceFrame_Some _ _ _ _ _ _ _ _ E) as (-> & _ & _ & _ & Hp).
  apply IH. intros Hv. rewrite advance_visSlot, Hp. apply Hvis, Hv.
Qed.

(** The voice and the mix after the frame loop do not depend on the other
    outputs, nor on whether the visualization output is there. *)
Lemma voiceLoop_mix (buffer : list (list float)) (vis1 vis2 : bool)
    (frames : nat) :
  ∀ (i : nat) (voice : SampleVoice) (outs1 outs2 : list (list (list float))),
    outs1 !! 0 = outs2 !! 0 →
    (vis1 = true → visOutputPresent outs1 (visSlot voice + 1) = true) →
    (vis2 = true → visOutputPresent outs2 (visSlot voice + 1) = true) →
    mixOf <$> voiceLoop buffer vis1 frames i voice outs1
    = mixOf <$> voiceLoop buffer vis2 frames i voice outs2.
Proof.
  induction frames as [|k IH]; intros i voice outs1 outs2 H0 Hv1 Hv2;
    cbn [voiceLoop].
  - unfold mixOf. simpl. rewrite H0. reflexivity.
  - destruct (isPlaying voice);
      [|unfold mixOf; simpl; rewrite H0; reflexivity].
    destruct buffer as [|b0 bs]; [reflexivity|].
    destruct (voiceFrame_is_Some b0 bs vis1 i voice outs1 Hv1) as [[v1 o1] E1].
    destruct (voiceFrame_is_Some b0 bs vis2 i voice outs2 Hv2) as [[v2 o2] E2].
    rewrite E1, E2. simpl.
    destruct (voiceFrame_Some _ _ _ _ _ _ _ _ E1) as (-> & M1 & _ & _ & P1).
    destruct (voiceFrame_Some _ _ _ _ _ _ _ _ E2) as (-> & M2 & _ & _ & P2).
    apply IH.
    + rewrite M1, M2, H0. reflexivity.
    + intros Hv. rewrite advance_visSlot, P1. apply Hv1, Hv.
    + intros Hv. rewrite advance_visSlot, P2. apply Hv2, Hv.
Qed.


Lemma renderVoice_Some (buffers : gmap string (list (list float)))
    (bufferSize : nat) (voice : SampleVoice)
    (outs : list (list (list float)))
    (r : option SampleVoice * list (list (list float))) :
  renderVoice buffers bufferSize voice outs = Some r →
  (∀ j, j ≠ 0 → j ≠ visSlot voice + 1 → r.2 !! j = outs !! j) ∧
  (visOutputPresent outs (visSlot voice + 1) = false →
   ∀ j, j ≠ 0 → r.2 !! j = outs !! j).
Proof.
  unfold renderVoice.
  destruct (buffers !! sampleId voice) as [buffer|];
    [|intros [= <-]; split; reflexivity].
  destruct (voiceLoop buffer _ bufferSize 0 voice outs) as [[v1 o1]|] eqn:E;
    [|discriminate].
  simpl. intros [= <-]. simpl.
  destruct (voiceLoop_Some _ _ _ _ _ _ _ _ E) as (_ & Ho & Hf & _).
  split; [exact Ho|]. intros Hvis. rewrite Hvis in Hf. apply Hf. reflexivity.
Qed.

Lemma renderVoice_is_Some (buffers : gmap string (list (list float)))
    (bufferSize : nat) (voice : SampleVoice)
    (outs : list (list (list float))) (b0 : list float)
    (bs : list (list float)) :
  buffers !! sampleId voice = Some (b0 :: bs) →
  is_Some (renderVoice buffers bufferSize voice outs).
Proof.
  intros Hb. unfold renderVoice. rewrite Hb.
  destruct (voiceLoop_is_Some b0 bs
              (visOutputPresent outs (visSlot voice + 1)) bufferSize 0 voice
              outs (fun e => e)) as [[v1 o1] ->].
  simpl. eauto.
Qed.

(** *** What the frame loop leaves in a channel *)

Lemma accumulate_lookup (i : nat) (x : float) (arr : list float) (t : nat) :
  accumulate i x arr !! t
  = (fun y => if decide (t = i) then fround (PrimFloat.add y x) else y)
    <$> arr !! t.
Proof.
  unfold accumulate. rewrite list_lookup_alter.
  destruct (decide (i = t)) as [->|Hne].
  - destruct (arr !! t); simpl; [|reflexivity].
    rewrite decide_True by reflexivity. reflexivity.
  - destruct (arr !! t); simpl; [|reflexivity].
    rewrite decide_False by congruence. reflexivity.
Qed.

Lemma voiceFrame_frameAt_mix (b0 : list float) (bs : list (list float))
    (vis : bool) (i : nat) (voice voice' : SampleVoice)
    (outs outs' : list (list (list float))) (ch t : nat) :
  voiceFrame (b0 :: bs) vis i voice outs = Some (voice', outs') →
  frameAt outs' 0 ch t
  = (fun y => if decide (t = i)
              then fround (PrimFloat.add y (outSample (b0 :: bs) voice ch))
              else y) <$> frameAt outs 0 ch t.
Proof.
  intros Hf. destruct (voiceFrame_Some _ _ _ _ _ _ _ _ Hf) as (_ & Hm & _).
  unfold frameAt. rewrite Hm. destruct (outs !! 0) as [mix|]; [|reflexivity].
  simpl. rewrite list_lookup_imap.
  destruct (mix !! ch) as [arr|]; [|reflexivity].
  simpl. apply accumulate_lookup.
Qed.

Lemma voiceFrame_frameAt_vis (b0 : list float) (bs : list (list float))
    (i : nat) (voice voice' : SampleVoice)
    (outs outs' : list (list (list float))) (t : nat) :
  voiceFrame (b0 :: bs) true i voice outs = Some (voice', outs') →
  frameAt outs' (visSlot voice + 1) 0 t
  = (fun y => if decide (t = i)
              then fround
                     (PrimFloat.add y
                        (PrimFloat.mul (readSample b0 (bufferIndex voice))
                           (gain voice)))
              else y) <$> frameAt outs (visSlot voice + 1) 0 t.
Proof.
  intros Hf. destruct (voiceFrame_Some _ _ _ _ _ _ _ _ Hf) as (_ & _ & Hv & _).
  unfold frameAt. rewrite Hv.
  destruct (outs !! (visSlot voice + 1)) as [out|]; [|reflexivity].
  simpl. rewrite list_lookup_alter_eq.
  destruct (out !! 0) as [arr|]; [|reflexivity].
  simpl. apply accumulate_lookup.
Qed.

Lemma framesRendered_S (voice : SampleVoice) (b0 : list float) (k : nat) :
  isPlaying voice = true →
  framesRendered voice b0 (S k) = S (framesRendered (advance b0 voice) b0 k).
Proof.
  intros Hp. unfold framesRendered. rewrite Hp.
  cbn [isPlaying advance bufferIndex].
  destruct (length b0 <=? S (bufferIndex voice)) eqn:E; cbn [negb].
  - apply Nat.leb_le in E. lia.
  - apply Nat.leb_gt in E. lia.
Qed.

Section FrameLoop.

(** A channel the frame loop of a voice writes: at frame [i] a frame of the
    loop adds [x cursor * gain], [cursor] being the voice's. *)
Variable buffer : list (list float).
Variable b0 : list float.
Variable bs : list (list float).
Hypothesis Hbuffer : buffer = b0 :: bs.
Variable vis : bool.
Variables o ch : nat.
Variable x : nat → float.
Variable slot : nat.
Variable g : float.
Hypothesis Hframe :
  ∀ (i : nat) (voice voice' : SampleVoice)
    (outs outs' : list (list (list float))) (t : nat),
    visSlot voice = slot → gain voice = g →
    voiceFrame buffer vis i voice outs = Some (voice', outs') →
    frameAt outs' o ch t
    = (fun y => if decide (t = i)
                then fround
                       (PrimFloat.add y (PrimFloat.mul (x (bufferIndex voice)) g))
                else y) <$> frameAt outs o ch t.

Lemma voiceLoop_frameAt (frames : nat) :
  ∀ (i : nat) (voice voice' : SampleVoice)
    (outs outs' : list (list (list float))) (t : nat),
    visSlot voice = slot → gain voice = g →
    voiceLoop buffer vis frames i voice outs = Some (voice', outs') →
    frameAt outs' o ch t
    = accumulated (fun c => PrimFloat.mul (x c) g) (bufferIndex voice) i
        (framesRendered voice b0 frames) t
      <$> frameAt outs o ch t.
Proof.
  induction frames as [|k IH]; intros i voice voice' outs outs' t Hs Hg;
    cbn [voiceLoop].
  - intros [= <- <-]. unfold accumulated, framesRendered.
    destruct (frameAt outs o ch t) as [y|]; [|reflexivity]. simpl.
    destruct (isPlaying voice); rewrite ?Nat.min_0_l;
      rewrite decide_False by lia; reflexivity.
  - destruct (isPlaying voice) eqn:Hp.
    + destruct (voiceFrame buffer vis i voice outs) as [[v1 o1]|] eqn:E;
        [|discriminate].
      simpl. intros Hloop.
      pose proof (Hframe i voice v1 outs o1 t Hs Hg E) as H1.
      assert (Hv1 : v1 = advance b0 voice).
      { rewrite Hbuffer in E.
        apply (voiceFrame_Some _ _ _ _ _ _ _ _ E). }
      subst v1.
      rewrite (IH (S i) (advance b0 voice) voice' o1 outs' t Hs Hg Hloop), H1.
      rewrite (framesRendered_S voice b0 k Hp).
      destruct (frameAt outs o ch t) as [y|]; [|reflexivity]. simpl. f_equal.
      unfold accumulated. cbn [bufferIndex advance].
      destruct (decide (t = i)) as [->|Hne].
      * rewrite decide_False by lia. rewrite decide_True by lia.
        replace (i - i) with 0 by lia. rewrite Nat.add_0_r. reflexivity.
      * destruct (decide (S i ≤ t < S i + framesRendered (advance b0 voice) b0 k))
          as [Hin|Hout].
        -- rewrite decide_True by lia.
           replace (S (bufferIndex voice) + (t - S i))
             with (bufferIndex voice + (t - i)) by lia.
           reflexivity.
        -- rewrite decide_False by lia. reflexivity.
    + intros [= <- <-]. unfold accumulated, framesRendered. rewrite Hp.
      destruct (frameAt outs o ch t) as [y|]; [|reflexivity]. simpl.
      rewrite decide_False by lia. reflexivity.
Qed.

End FrameLoop.

(** The voice the frame loop leaves. *)
Lemma voiceLoop_voice (b0 : list float) (bs : list (list float)) (vis : bool)
    (frames : nat) :
  ∀ (i : nat) (voice voice' : SampleVoice)
    (outs outs' : list (list (list float))),
    voiceLoop (b0 :: bs) vis frames i voice outs = Some (voice', outs') →
    voice' =
    match framesRendered voice b0 frames with
    | 0 => voice
    | S m =>
        mkVoice (sampleId voice) (bufferIndex voice + S m)
          (negb (length b0 <=? bufferIndex voice + S m)) (gain voice)
          (visSlot voice)
    end.
Proof.
  induction frames as [|k IH]; intros i voice voice' outs outs';
    cbn [voiceLoop].
  - intros [= <- <-]. unfold framesRendered.
    destruct (isPlaying voice); reflexivity.
  - destruct (isPlaying voice) eqn:Hp.
    + destruct (voiceFrame (b0 :: bs) vis i voice outs) as [[v1 o1]|] eqn:E;
        [|discriminate].
      simpl. intros Hloop.
      destruct (voiceFrame_Some _ _ _ _ _ _ _ _ E) as (-> & _).
      rewrite (IH _ _ _ _ _ Hloop), (framesRendered_S voice b0 k Hp).
      destruct (framesRendered (advance b0 voice) b0 k) as [|m].
      * unfold advance. rewrite Nat.add_1_r. reflexivity.
      * cbn [advance sampleId bufferIndex gain visSlot].
        replace (S (bufferIndex voice) + S m)
          with (bufferIndex voice + S (S m)) by lia.
        reflexivity.
    + intros [= <- <-]. unfold framesRendered. rewrite Hp. reflexivity.
Qed.

(** The mix after the frame loop, frame by frame. *)
Lemma voiceLoop_mix_frames (b0 : list float) (bs : list (list float))
    (vis : bool) (frames i : nat) (voice voice' : SampleVoice)
    (outs outs' : list (list (list float))) (ch t : nat) :
  voiceLoop (b0 :: bs) vis frames i voice outs = Some (voice', outs') →
  frameAt outs' 0 ch t
  = accumulated
      (fun c => PrimFloat.mul (sampleValue (b0 :: bs) ch c) (gain voice))
      (bufferIndex voice) i (framesRendered voice b0 frames) t
    <$> frameAt outs 0 ch t.
Proof.
  apply (voiceLoop_frameAt (b0 :: bs) b0 bs eq_refl vis 0 ch
           (sampleValue (b0 :: bs) ch) (visSlot voice) (gain voice));
    [|reflexivity|reflexivity].
  intros j v v' os os' u _ Hg Hf.
  rewrite (voiceFrame_frameAt_mix _ _ _ _ _ _ _ _ ch u Hf).
  unfold outSample. rewrite Hg. reflexivity.
Qed.

(** The visualization channel after the frame loop, frame by frame. *)
Lemma voiceLoop_vis_frames (b0 : list float) (bs : list (list float))
    (frames i : nat) (voice voice' : SampleVoice)
    (outs outs' : list (list (list float))) (t : nat) :
  voiceLoop (b0 :: bs) true frames i voice outs = Some (voice', outs') →
  frameAt outs' (visSlot voice + 1) 0 t
  = accumulated (fun c => PrimFloat.mul (readSample b0 c) (gain voice))
      (bufferIndex voice) i (framesRendered voice b0 frames) t
    <$> frameAt outs (visSlot voice + 1) 0 t.
Proof.
  apply (voiceLoop_frameAt (b0 :: bs) b0 bs eq_refl true (visSlot voice + 1) 0
           (readSample b0) (visSlot voice) (gain voice));
    [|reflexivity|reflexivity].
  intros j v v' os os' u Hs Hg Hf. rewrite <- Hs, <- Hg.
  apply (voiceFrame_frameAt_vis _ _ _ _ _ _ _ _ Hf).
Qed.

(** Rendering a voice whose sample has a channel, in full. *)
Lemma renderVoice_frames (buffers : gmap string (list (list float)))
    (bufferSize : nat) (voice : SampleVoice)
    (outputs : list (list (list float))) (b0 : list float)
    (bs : list (list float)) :
  buffers !! sampleId voice = Some (b0 :: bs) →
  ∃ outputs' : list (list (list float)),
    renderVoice buffers bufferSize voice outputs
    = Some (keptVoice voice b0 bufferSize, outputs') ∧
    (∀ ch t : nat,
       frameAt outputs' 0 ch t
       = accumulated
           (fun c => PrimFloat.mul (sampleValue (b0 :: bs) ch c) (gain voice))
           (bufferIndex voice) 0 (framesRendered voice b0 bufferSize) t
         <$> frameAt outputs 0 ch t) ∧
    (visOutputPresent outputs (visSlot voice + 1) = false →
     ∀ j : nat, j ≠ 0 → outputs' !! j = outputs !! j) ∧
    (visOutputPresent outputs (visSlot voice + 1) = true →
     ∀ t : nat,
       frameAt outputs' (visSlot voice + 1) 0 t
       = accumulated
           (fun c => PrimFloat.mul (readSample b0 c) (gain voice))
           (bufferIndex voice) 0 (framesRendered voice b0 bufferSize) t
         <$> frameAt outputs (visSlot voice + 1) 0 t) ∧
    (∀ j : nat, j ≠ 0 → j ≠ visSlot voice + 1 → outputs' !! j = outputs !! j).
Proof.
  intros Hb.
  destruct (renderVoice_is_Some buffers bufferSize voice outputs b0 bs Hb)
    as [[kept outputs'] Hr].
  exists outputs'.
  destruct (renderVoice_Some _ _ _ _ _ Hr) as [Hothers Hnone].
  unfold renderVoice in Hr. rewrite Hb in Hr.
  destruct (voiceLoop (b0 :: bs) _ bufferSize 0 voice outputs)
    as [[v1 o1]|] eqn:E; [|discriminate Hr].
  simpl in Hr. injection Hr as <- <-.
  split; [|split; [|split; [|split]]].
  - unfold renderVoice. rewrite Hb, E. simpl. f_equal. f_equal.
    rewrite (voiceLoop_voice _ _ _ _ _ _ _ _ _ E). unfold keptVoice.
    destruct (framesRendered voice b0 bufferSize) as [|m]; [reflexivity|].
    cbn [isPlaying]. destruct (length b0 <=? bufferIndex voice + S m);
      reflexivity.
  - intros ch t. apply (voiceLoop_mix_frames _ _ _ _ _ _ _ _ _ ch t E).
  - exact Hnone.
  - intros Hvis t. rewrite Hvis in E.
    apply (voiceLoop_vis_frames _ _ _ _ _ _ _ _ t E).
  - exact Hothers.
Qed.



(** ** Replacing a sample *)

(** C1 (as the code has it). LOAD_SAMPLE leaves the active voices alone,
    but a voice holds the pad identifier and not the buffer: each block
    looks the buffer up again, so from the next block on a voice of that
    pad is rendered from the newly stored buffer, at the cursor it had
    reached; voices of other pads are rendered as before.  What a block
    renders after the replacement does not depend on the buffer that was
    replaced. *)
Theorem C1_replaced_sample_is_read (sampleRate : float) (s : MainProcessor)
    (id : string) (buffers : list (list float)) :
  let s' := (onmessage sampleRate s (LOAD_SAMPLE id buffers)).1 in
  activeVoices s' = activeVoices s ∧
  (∀ (cursor : nat) (playing : bool) (g : float) (slot bufferSize : nat)
     (outputs : list (list (list float))),
     renderVoice (sampleBuffers s') bufferSize
       (mkVoice id cursor playing g slot) outputs
     = '(v1, o1) ←
         voiceLoop buffers (visOutputPresent outputs (slot + 1)) bufferSize 0
           (mkVoice id cursor playing g slot) outputs;
       Some (if isPlaying v1 then Some v1 else None, o1)) ∧
  (∀ (b0 : list float) (bs : list (list float)) (voice : SampleVoice)
     (bufferSize : nat) (outputs : list (list (list float))),
     buffers = b0 :: bs →
     sampleId voice = id →
     ∃ outputs' : list (list (list float)),
       renderVoice (sampleBuffers s') bufferSize voice outputs
       = Some (keptVoice voice b0 bufferSize, outputs') ∧
       ∀ ch t : nat,
         frameAt outputs' 0 ch t
         = accumulated
             (fun c => PrimFloat.mul (sampleValue buffers ch c) (gain voice))
             (bufferIndex voice) 0 (framesRendered voice b0 bufferSize) t
           <$> frameAt outputs 0 ch t) ∧
  (∀ (voice : SampleVoice) (bufferSize : nat)
     (outputs : list (list (list float))),
     sampleId voice ≠ id →
     renderVoice (sampleBuffers s') bufferSize voice outputs
     = renderVoice (sampleBuffers s) bufferSize voice outputs) ∧
  (∀ (old : list (list float)) (Math_sin : float → float)
     (outputs : list (list (list float))),
     process sampleRate Math_sin
       (onmessages sampleRate s [LOAD_SAMPLE id old; LOAD_SAMPLE id buffers]).1
       outputs
     = process sampleRate Math_sin s' outputs).
Proof.
  cbv zeta. cbn [onmessage fst]. split; [reflexivity|].
  split; [|split; [|split]].
  - intros. unfold renderVoice. cbn [sampleBuffers set_sampleBuffers sampleId visSlot].
    rewrite lookup_insert_eq. reflexivity.
  - intros b0 bs voice bufferSize outputs -> Hid.
    destruct (renderVoice_frames
                (sampleBuffers (set_sampleBuffers
                                  (<[id := b0 :: bs]> (sampleBuffers s)) s))
                bufferSize voice outputs b0 bs)
      as (outputs' & Hr & Hmix & _).
    { cbn [sampleBuffers set_sampleBuffers]. rewrite Hid.
      apply lookup_insert_eq. }
    exists outputs'. split; [exact Hr | exact Hmix].
  - intros voice bufferSize outputs Hne. unfold renderVoice.
    cbn [sampleBuffers set_sampleBuffers].
    rewrite lookup_insert_ne by congruence. reflexivity.
  - intros old Math_sin outputs. f_equal.
    cbn [onmessages onmessage fst]. unfold set_sampleBuffers. simpl.
    rewrite insert_insert_eq. reflexivity.
Qed.

(** C1 (as stated), refuted.  With the voice of pad 1 in flight at cursor
    2, the block after a LOAD_SAMPLE of a constant 0.25 is a block of
    0.25, not of the ones the voice started with; and after a LOAD_SAMPLE
    of a one-frame sample the voice reads past the end of the new buffer
    and puts NaN into the mix, where the old buffer would have given 1. *)
Lemma C1_in_flight_voice_reads_new_buffer :
  activeVoices pad1InFlight = [mkVoice "pad1" 2 true 1 0] ∧
  renderedMix (process 48000 silentSin pad1InFlight (hostOutputs 2))
  = Some [[1; 1]; [1; 1]]%float ∧
  renderedMix
    (process 48000 silentSin
       (onmessage 48000 pad1InFlight
          (LOAD_SAMPLE "pad1" [[0.25; 0.25; 0.25; 0.25]%float])).1
       (hostOutputs 2))
  = Some [[0.25; 0.25]; [0.25; 0.25]]%float ∧
  renderedMix
    (process 48000 silentSin
       (onmessage 48000 pad1InFlight (LOAD_SAMPLE "pad1" [[0.25]%float])).1
       (hostOutputs 2))
  = Some [[PrimFloat.nan; 0]; [PrimFloat.nan; 0]]%float ∧
  renderedMix
    (process 48000 silentSin
       (onmessage 48000 pad1InFlight
          (LOAD_SAMPLE "pad1" [[0.25; 0.25; 0.25; 0.25]%float])).1
       (hostOutputs 2))
  ≠ renderedMix (process 48000 silentSin pad1InFlight (hostOutputs 2)).
Proof.
  assert (E1 : renderedMix (process 48000 silentSin pad1InFlight (hostOutputs 2))
               = Some [[1; 1]; [1; 1]]%float) by (vm_compute; reflexivity).
  assert (E2 : renderedMix
                 (process 48000 silentSin
                    (onmessage 48000 pad1InFlight
                       (LOAD_SAMPLE "pad1" [[0.25; 0.25; 0.25; 0.25]%float])).1
                    (hostOutputs 2))
               = Some [[0.25; 0.25]; [0.25; 0.25]]%float)
    by (vm_compute; reflexivity).
  split; [vm_compute; reflexivity|]. split; [exact E1|]. split; [exact E2|].
  split; [vm_compute; reflexivity|].
  rewrite E1, E2. intros H.
  apply (f_equal (fun o => match o with
                           | Some ((x :: _) :: _) => PrimFloat.eqb x 1
                           | _ => false
                           end)) in H.
  vm_compute in H. discriminate H.
Qed.

Lemma C1_replaced_sample_is_read_witness :
  sampleId (mkVoice "pad1" 2 true 1 0) = "pad1" ∧
  (∃ outputs' : list (list (list float)),
     renderVoice
       (sampleBuffers
          (onmessage 48000 pad1InFlight
             (LOAD_SAMPLE "pad1" [[0.25; 0.25; 0.25; 0.25]%float])).1)
       2 (mkVoice "pad1" 2 true 1 0) (hostOutputs 2)
     = Some (keptVoice (mkVoice "pad1" 2 true 1 0)
               [0.25; 0.25; 0.25; 0.25]%float 2, outputs') ∧
     ∀ ch t : nat,
       frameAt outputs' 0 ch t
       = accumulated
           (fun c =>
              PrimFloat.mul
                (sampleValue [[0.25; 0.25; 0.25; 0.25]%float] ch c) 1)
           2 0
           (framesRendered (mkVoice "pad1" 2 true 1 0)
              [0.25; 0.25; 0.25; 0.25]%float 2) t
         <$> frameAt (hostOutputs 2) 0 ch t) ∧
  sampleId (mkVoice "pad2" 0 true 1 1) ≠ "pad1" ∧
  renderVoice
    (sampleBuffers
       (onmessage 48000 pad1InFlight
          (LOAD_SAMPLE "pad1" [[0.25; 0.25; 0.25; 0.25]%float])).1)
    2 (mkVoice "pad2" 0 true 1 1) (hostOutputs 2)
  = renderVoice (sampleBuffers pad1InFlight) 2 (mkVoice "pad2" 0 true 1 1)
      (hostOutputs 2).
Proof.
  assert (H : sampleId (mkVoice "pad2" 0 true 1 1) ≠ "pad1")
    by (cbn; discriminate).
  pose proof (C1_replaced_sample_is_read 48000 pad1InFlight "pad1"
                [[0.25; 0.25; 0.25; 0.25]%float]) as (_ & _ & Hnew & Hother & _).
  split; [reflexivity|]. split; [|split; [exact H|]].
  - exact (Hnew [0.25; 0.25; 0.25; 0.25]%float [] (mkVoice "pad1" 2 true 1 0)
             2 (hostOutputs 2) eq_refl eq_refl).
  - exact (Hother (mkVoice "pad2" 0 true 1 1) 2 (hostOutputs 2) H).
Defined.

(** ** Retriggering a pad *)

(** C9 (as stated), refuted.  Pad 1 has a sample and is in choke group 1;
    after two triggers of pad 1 the voice of the first trigger is stopped:
    the choke loop does not spare the voices of the triggered pad itself. *)
Lemma C9_retrigger_in_group_stops_first_voice :
  chokeGroups pad1Retriggered !! "pad1" = Some 1%float ∧
  activeVoices pad1Retriggered
  = [mkVoice "pad1" 0 false 1 0; mkVoice "pad1" 0 true 1 0] ∧
  isPlaying <$> activeVoices pad1Retriggered = [false; true].
Proof. repeat split; vm_compute; reflexivity. Qed.

(** C9 (as the code has it). Two triggers of a pad that has a sample and no
    choke group leave two separate playing voices of that pad at the end of
    the active list, and every earlier voice as it was.  When the pad is in
    a choke group (a number, so equal to itself), the second trigger stops
    the voice of the first one as it stops every other playing voice of the
    group: exclusion is by group, the triggered pad included. *)
Theorem C9_retrigger_same_pad (sampleRate : float) (s : MainProcessor)
    (id : string) (velocity1 velocity2 : option float)
    (buffer : list (list float)) :
  sampleBuffers s !! id = Some buffer →
  let s2 :=
    (onmessages sampleRate s
       [PLAY_SAMPLE id velocity1; PLAY_SAMPLE id velocity2]).1 in
  let voice1 := mkVoice id 0 true (default 1%float velocity1) (padSlot id) in
  let voice2 := mkVoice id 0 true (default 1%float velocity2) (padSlot id) in
  (chokeGroups s !! id = None →
   activeVoices s2 = activeVoices s ++ [voice1; voice2]) ∧
  (∀ g : float,
     chokeGroups s !! id = Some g →
     PrimFloat.eqb g g = true →
     activeVoices s2
     = (choke (chokeGroups s) g <$> activeVoices s)
       ++ [stopVoice voice1; voice2]).
Proof.
  intros Hbuf s2 voice1 voice2. subst s2.
  cbn [onmessages onmessage fst].
  rewrite (triggerVoice_loaded s id velocity1 buffer Hbuf).
  rewrite (triggerVoice_loaded _ id velocity2 buffer) by exact Hbuf.
  cbn [activeVoices chokeGroups set_activeVoices]. split.
  - intros ->. rewrite <- app_assoc. reflexivity.
  - intros g Hgrp Hg. rewrite Hgrp, fmap_app, <- app_assoc.
    rewrite <- list_fmap_compose.
    rewrite (list_fmap_ext _ (choke (chokeGroups s) g) (activeVoices s))
      by (intros; apply choke_idemp).
    cbn [fmap list_fmap]. unfold choke at 2. cbn [isPlaying sampleId].
    rewrite Hgrp. cbn [sameGroup]. rewrite Hg. reflexivity.
Qed.

Lemma C9_retrigger_same_pad_witness :
  sampleBuffers
    (onmessage 48000 (newMainProcessor 48000)
       (LOAD_SAMPLE "pad1" [[1; 1; 1; 1]%float])).1 !! "pad1"
  = Some [[1; 1; 1; 1]%float] ∧
  chokeGroups
    (onmessage 48000 (newMainProcessor 48000)
       (LOAD_SAMPLE "pad1" [[1; 1; 1; 1]%float])).1 !! "pad1" = None ∧
  activeVoices
    (onmessages 48000
       (onmessage 48000 (newMainProcessor 48000)
          (LOAD_SAMPLE "pad1" [[1; 1; 1; 1]%float])).1
       [PLAY_SAMPLE "pad1" (Some 0.5%float); PLAY_SAMPLE "pad1" (Some 1%float)]).1
  = [mkVoice "pad1" 0 true 0.5 0; mkVoice "pad1" 0 true 1 0].
Proof.
  assert (Hb : sampleBuffers
                 (onmessage 48000 (newMainProcessor 48000)
                    (LOAD_SAMPLE "pad1" [[1; 1; 1; 1]%float])).1 !! "pad1"
               = Some [[1; 1; 1; 1]%float]) by (vm_compute; reflexivity).
  assert (Hg : chokeGroups
                 (onmessage 48000 (newMainProcessor 48000)
                    (LOAD_SAMPLE "pad1" [[1; 1; 1; 1]%float])).1 !! "pad1"
               = None) by (vm_compute; reflexivity).
  split; [exact Hb|]. split; [exact Hg|].
  exact (proj1 (C9_retrigger_same_pad 48000 _ "pad1" (Some 0.5%float)
                  (Some 1%float) _ Hb) Hg).
Defined.

(** ** A four-frame sample in a block of eight *)

Lemma shape_lookup (outs outs' : list (list (list float))) :
  shape outs' = shape outs ↔
  ∀ j, fmap (M := list) length <$> outs' !! j
       = fmap (M := list) length <$> outs !! j.
Proof.
  unfold shape. split.
  - intros H j. rewrite <- !list_lookup_fmap, H. reflexivity.
  - intros H. apply list_eq. intros j. rewrite !list_lookup_fmap. apply H.
Qed.

(** The cleared outputs are a function of the shape alone. *)
Lemma clearOutputs_shape (outs : list (list (list float))) :
  clearOutputs outs
  = fmap (M := list)
      (fmap (M := list) (fun n : nat => replicate n 0%float)) (shape outs).
Proof.
  unfold shape, clearOutputs. rewrite <- list_fmap_compose.
  apply list_fmap_ext. intros ? out _. simpl. rewrite <- list_fmap_compose.
  reflexivity.
Qed.

(** With the metronome and the tone off, a block is the clock loop followed
    by the sampler on cleared outputs. *)
Lemma process_quiet (sampleRate : float) (Math_sin : float → float)
    (s : MainProcessor) (outputs : list (list (list float)))
    (ch0 : list float) (chs : list (list float)) :
  outputs !! 0 = Some (ch0 :: chs) →
  isMetronomeEnabled s = false →
  isTonePlaying s = false →
  process sampleRate Math_sin s outputs =
  ((clockLoop (length ch0) s).2,
   '(voices, outs3) ←
     renderVoices (sampleBuffers s) (length ch0) (activeVoices s)
       (clearOutputs outputs);
   Some (set_activeVoices voices (clockLoop (length ch0) s).1, outs3)).
Proof.
  intros H0 Hm Ht. unfold process. rewrite H0.
  pose proof (clockLoop_frame (length ch0) s) as Hf.
  destruct (clockLoop (length ch0) s) as [s1 ev]. cbn [fst snd] in *.
  destruct Hf as (_ & Ht1 & Hb1 & Hv1 & Hm1 & _).
  unfold metronomeStage, toneStage. rewrite Hm1, Hm. cbn [andb].
  rewrite Ht1, Ht, Hb1, Hv1. reflexivity.
Qed.

(** C3. On a new processor, whatever the pad, a one-channel sample of four
    frames equal to 1 is loaded and the pad triggered with velocity 0.5;
    the next block, of eight frames, returns with both channels of the mix
    at 0.5 in frames 0 to 3 and at 0 in frames 4 to 7, and with no active
    voice left.  The block is any block of the layout the page asks for (a
    stereo mix and sixteen mono visualization outputs of eight frames),
    whatever it holds when [process] is called: frames 4 to 7 are 0
    because the block was cleared and the voice stopped after frame 3. *)
Theorem C3_four_frame_sample_in_block_of_eight (sampleRate : float)
    (Math_sin : float → float) (id : string)
    (outputs : list (list (list float))) :
  shape outputs = shape (hostOutputs 8) →
  let s :=
    (onmessages sampleRate (newMainProcessor sampleRate)
       [LOAD_SAMPLE id [[1; 1; 1; 1]%float];
        PLAY_SAMPLE id (Some 0.5%float)]).1 in
  activeVoices s = [mkVoice id 0 true 0.5 (padSlot id)] ∧
  ∃ (s' : MainProcessor) (outputs' : list (list (list float))),
    (process sampleRate Math_sin s outputs).2 = Some (s', outputs') ∧
    outputs' !! 0
    = Some [[0.5; 0.5; 0.5; 0.5; 0; 0; 0; 0];
            [0.5; 0.5; 0.5; 0.5; 0; 0; 0; 0]]%float ∧
    activeVoices s' = [].
Proof.
  intros Hshape.
  assert (H0 : ∃ ch0 chs, outputs !! 0 = Some (ch0 :: chs) ∧ length ch0 = 8).
  { pose proof (proj1 (shape_lookup _ _) Hshape 0) as H.
    destruct (outputs !! 0) as [[|ch0 chs]|]; try discriminate.
    simpl in H. injection H as H _. eauto. }
  destruct H0 as (ch0 & chs & H0 & Hl).
  assert (Hclear : clearOutputs outputs = clearOutputs (hostOutputs 8))
    by (rewrite (clearOutputs_shape outputs), Hshape,
          <- (clearOutputs_shape (hostOutputs 8)); reflexivity).
  assert (Hsame : ∀ s, isMetronomeEnabled s = false → isTonePlaying s = false →
                       process sampleRate Math_sin s outputs
                       = process sampleRate Math_sin s (hostOutputs 8)).
  { intros s Hm Ht.
    rewrite (process_quiet _ _ _ outputs ch0 chs H0 Hm Ht).
    rewrite (process_quiet _ _ _ (hostOutputs 8) (replicate 8 0%float)
               [replicate 8 0%float] eq_refl Hm Ht).
    rewrite Hl, Hclear. reflexivity. }
  cbv zeta. cbn [onmessages onmessage fst].
  set (s1 := set_sampleBuffers _ (newMainProcessor sampleRate)).
  assert (Hb : sampleBuffers s1 !! id = Some [[1; 1; 1; 1]%float])
    by apply lookup_insert_eq.
  rewrite (triggerVoice_loaded s1 id _ _ Hb).
  change (chokeGroups s1 !! id) with ((∅ : gmap string float) !! id).
  rewrite lookup_empty.
  change (activeVoices s1) with (@nil SampleVoice).
  change (default 1%float (Some 0.5%float)) with 0.5%float. cbn [app].
  split; [reflexivity|].
  set (voice := mkVoice id 0 true 0.5 (padSlot id)).
  rewrite Hsame by reflexivity.
  rewrite (process_quiet sampleRate Math_sin _ (hostOutputs 8)
             (replicate 8 0%float) [replicate 8 0%float])
    by reflexivity.
  cbn [snd sampleBuffers activeVoices set_activeVoices renderVoices].
  cbn [mbind option_bind]. unfold renderVoice. cbn [sampleId voice].
  change (sampleBuffers s1) with
    (<[id := [[1; 1; 1; 1]%float]]> (∅ : gmap string (list (list float)))).
  rewrite lookup_insert_eq.
  pose proof (voiceLoop_mix [[1; 1; 1; 1]%float]
                (visOutputPresent (clearOutputs (hostOutputs 8))
                   (visSlot voice + 1))
                false (length (replicate 8 0%float)) 0 voice
                (clearOutputs (hostOutputs 8)) (clearOutputs (hostOutputs 8))
                eq_refl (fun e => e) ltac:(discriminate)) as Hmix.
  assert (Hq : mixOf <$> voiceLoop [[1; 1; 1; 1]%float] false
                           (length (replicate 8 0%float)) 0 voice
                           (clearOutputs (hostOutputs 8))
               = Some (mkVoice id 4 false 0.5 (padSlot id),
                       Some [[0.5; 0.5; 0.5; 0.5; 0; 0; 0; 0];
                             [0.5; 0.5; 0.5; 0.5; 0; 0; 0; 0]]%float)).
  { subst voice. generalize (padSlot id) as k. intros k.
    vm_compute. reflexivity. }
  rewrite Hq in Hmix. clear Hq.
  destruct (voiceLoop _ _ _ 0 voice _) as [[v1 o1]|]; [|discriminate Hmix].
  unfold mixOf in Hmix. cbn [fmap option_fmap option_map fst snd] in Hmix.
  injection Hmix as -> Ho.
  cbn [mbind option_bind isPlaying]. eexists _, _.
  split; [reflexivity|]. split; [exact Ho | reflexivity].
Qed.

Lemma C3_four_frame_sample_in_block_of_eight_witness :
  let outputs :=
    replicate 2 (replicate 8 0.75%float)
    :: replicate 16 [replicate 8 0.25%float] in
  let s :=
    (onmessages 48000 (newMainProcessor 48000)
       [LOAD_SAMPLE "pad1" [[1; 1; 1; 1]%float];
        PLAY_SAMPLE "pad1" (Some 0.5%float)]).1 in
  shape outputs = shape (hostOutputs 8) ∧
  ∃ (s' : MainProcessor) (outputs' : list (list (list float))),
    (process 48000 silentSin s outputs).2 = Some (s', outputs') ∧
    outputs' !! 0
    = Some [[0.5; 0.5; 0.5; 0.5; 0; 0; 0; 0];
            [0.5; 0.5; 0.5; 0.5; 0; 0; 0; 0]]%float ∧
    activeVoices s' = [].
Proof.
  cbv zeta. split; [reflexivity|].
  exact (proj2 (C3_four_frame_sample_in_block_of_eight 48000 silentSin "pad1"
                  (replicate 2 (replicate 8 0.75%float)
                   :: replicate 16 [replicate 8 0.25%float])
                  eq_refl)).
Defined.

(** * Further properties of the processor *)

(** ** What a block leaves alone *)

Lemma metronomeLoop_fields (Math_sin : float → float) (frames : nat) :
  ∀ (i : nat) (s : MainProcessor) (outputs : list (list (list float))),
    (metronomeLoop Math_sin frames i s outputs).1
    = set_metronomePhase
        (metronomePhase (metronomeLoop Math_sin frames i s outputs).1) s.
Proof.
  induction frames as [|k IH]; intros i s outputs; cbn [metronomeLoop].
  - destruct s; reflexivity.
  - destruct (PrimFloat.ltb 0 (metronomePhase s)); [|destruct s; reflexivity].
    rewrite IH at 1. reflexivity.
Qed.

Lemma toneLoop_fields (sampleRate : float) (Math_sin : float → float)
    (frames : nat) :
  ∀ (i : nat) (s : MainProcessor) (outputs : list (list (list float))),
    (toneLoop sampleRate Math_sin frames i s outputs).1
    = set_phase (phase (toneLoop sampleRate Math_sin frames i s outputs).1) s.
Proof.
  induction frames as [|k IH]; intros i s outputs; cbn [toneLoop].
  - destruct s; reflexivity.
  - cbv zeta. rewrite IH at 1. reflexivity.
Qed.

Lemma metronomeStage_fields (Math_sin : float → float) (bufferSize : nat)
    (s : MainProcessor) (outputs : list (list (list float))) :
  (metronomeStage Math_sin bufferSize s outputs).1
  = set_metronomePhase
      (metronomePhase (metronomeStage Math_sin bufferSize s outputs).1) s.
Proof.
  unfold metronomeStage. destruct (_ && _).
  - apply metronomeLoop_fields.
  - destruct s; reflexivity.
Qed.

Lemma toneStage_fields (sampleRate : float) (Math_sin : float → float)
    (bufferSize : nat) (s : MainProcessor)
    (outputs : list (list (list float))) :
  (toneStage sampleRate Math_sin bufferSize s outputs).1
  = set_phase
      (phase (toneStage sampleRate Math_sin bufferSize s outputs).1) s.
Proof.
  unfold toneStage. destruct (isTonePlaying s).
  - apply toneLoop_fields.
  - destruct s; reflexivity.
Qed.

(** [process], stage by stage, for outputs that have a mix channel. *)
Lemma process_stages (sampleRate : float) (Math_sin : float → float)
    (s : MainProcessor) (outputs : list (list (list float)))
    (ch0 : list float) (chs : list (list float)) :
  outputs !! 0 = Some (ch0 :: chs) →
  process sampleRate Math_sin s outputs =
  let n := length ch0 in
  let c := clockLoop n s in
  let m := metronomeStage Math_sin n c.1 (clearOutputs outputs) in
  let t := toneStage sampleRate Math_sin n m.1 m.2 in
  (c.2,
   '(voices, outs3) ←
     renderVoices (sampleBuffers t.1) n (activeVoices t.1) t.2;
   Some (set_activeVoices voices t.1, outs3)).
Proof.
  intros H0. unfold process. rewrite H0. cbv zeta.
  destruct (clockLoop (length ch0) s) as [s1 ev]. cbn [fst snd].
  destruct (metronomeStage _ _ _ _) as [s2 o1]. cbn [fst snd].
  destruct (toneStage _ _ _ _ _) as [s3 o2]. reflexivity.
Qed.

Lemma process_keeps_fields (sampleRate : float)
    (Math_sin : float → float) (s s' : MainProcessor)
    (outputs outputs' : list (list (list float))) :
  (process sampleRate Math_sin s outputs).2 = Some (s', outputs') →
  sampleBuffers s' = sampleBuffers s ∧
  chokeGroups s' = chokeGroups s ∧
  bpm s' = bpm s ∧
  samplesPerBeat s' = samplesPerBeat s ∧
  isMetronomeEnabled s' = isMetronomeEnabled s ∧
  isTonePlaying s' = isTonePlaying s.
Proof.
  destruct (outputs !! 0) as [[|ch0 chs]|] eqn:H0.
  - unfold process. rewrite H0. intros [= <- <-]. repeat split.
  - rewrite (process_stages _ _ _ _ _ _ H0). cbv zeta. cbn [snd].
    set (c := clockLoop (length ch0) s).
    set (m := metronomeStage Math_sin (length ch0) c.1 (clearOutputs outputs)).
    set (t := toneStage sampleRate Math_sin (length ch0) m.1 m.2).
    destruct (renderVoices _ _ _ _) as [[voices o3]|]; [|discriminate].
    cbn. intros [= <- <-].
    pose proof (clockLoop_frame (length ch0) s) as (_&Ht&Hb&_&Hm&Hbpm&Hs&Hc).
    fold c in Ht, Hb, Hm, Hbpm, Hs, Hc.
    pose proof (metronomeStage_fields Math_sin (length ch0) c.1
                  (clearOutputs outputs)) as Em. fold m in Em.
    pose proof (toneStage_fields sampleRate Math_sin (length ch0) m.1 m.2)
      as Et. fold t in Et.
    cbn [sampleBuffers chokeGroups bpm samplesPerBeat isMetronomeEnabled
         isTonePlaying set_activeVoices].
    rewrite Et, Em. cbn. repeat split; assumption.
  - unfold process. rewrite H0. intros [= <- <-]. repeat split.
Qed.

(** X1. A block never touches the sample store, the choke groups, the
    tempo, samples-per-beat or the two switches: whatever [process]
    returns, these six fields are the ones it was given. *)
Theorem X1_process_keeps_stores (sampleRate : float)
    (Math_sin : float → float) (s s' : MainProcessor)
    (outputs outputs' : list (list (list float))) :
  (process sampleRate Math_sin s outputs).2 = Some (s', outputs') →
  sampleBuffers s' = sampleBuffers s ∧
  chokeGroups s' = chokeGroups s ∧
  bpm s' = bpm s ∧
  samplesPerBeat s' = samplesPerBeat s ∧
  isMetronomeEnabled s' = isMetronomeEnabled s ∧
  isTonePlaying s' = isTonePlaying s.
Proof. apply process_keeps_fields. Qed.

Lemma X1_process_keeps_stores_witness :
  (process 48000 silentSin pad1InFlight (hostOutputs 2)).2
  = Some (set_activeVoices [] (clockLoop 2 pad1InFlight).1,
          [[1; 1]; [1; 1]] :: [[1; 1]] :: replicate 15 [[0; 0]])%float ∧
  sampleBuffers (set_activeVoices [] (clockLoop 2 pad1InFlight).1)
  = sampleBuffers pad1InFlight.
Proof.
  assert (H : (process 48000 silentSin pad1InFlight (hostOutputs 2)).2
              = Some (set_activeVoices [] (clockLoop 2 pad1InFlight).1,
                      [[1; 1]; [1; 1]] :: [[1; 1]] :: replicate 15 [[0; 0]])%float)
    by (vm_compute; reflexivity).
  split; [exact H|].
  exact (proj1 (X1_process_keeps_stores 48000 silentSin pad1InFlight _
                  (hostOutputs 2) _ H)).
Defined.

(** ** The shape and the previous content of the outputs *)

Lemma shape_alter (f : list (list float) → list (list float)) (i : nat)
    (outs : list (list (list float))) :
  (∀ out, fmap (M := list) length (f out) = fmap (M := list) length out) →
  shape (alter f i outs) = shape outs.
Proof.
  intros Hf. apply shape_lookup. intros j. rewrite list_lookup_alter.
  destruct (decide (i = j)) as [->|]; [|reflexivity].
  destruct (outs !! j); simpl; [|reflexivity]. rewrite Hf. reflexivity.
Qed.

Lemma accumulate_length (i : nat) (x : float) (arr : list float) :
  length (accumulate i x arr) = length arr.
Proof. apply length_alter. Qed.

Lemma shape_mixAdd (i : nat) (x : float) (outs : list (list (list float))) :
  shape (mixAdd i x outs) = shape outs.
Proof.
  apply shape_alter. intros out. rewrite <- list_fmap_compose.
  apply list_fmap_ext. intros ? arr _. apply accumulate_length.
Qed.

Lemma mixAdd_lookup_ne (i : nat) (x : float)
    (outs : list (list (list float))) (j : nat) :
  j ≠ 0 → mixAdd i x outs !! j = outs !! j.
Proof. intros Hj. apply list_lookup_alter_ne. congruence. Qed.

Lemma shape_clearOutputs (outs : list (list (list float))) :
  shape (clearOutputs outs) = shape outs.
Proof.
  unfold shape, clearOutputs. rewrite <- list_fmap_compose.
  apply list_fmap_ext. intros ? out _. simpl. rewrite <- list_fmap_compose.
  apply list_fmap_ext. intros ? arr _. simpl. apply length_replicate.
Qed.

Lemma metronomeLoop_outputs (Math_sin : float → float) (frames : nat) :
  ∀ (i : nat) (s : MainProcessor) (outputs : list (list (list float))),
    shape (metronomeLoop Math_sin frames i s outputs).2 = shape outputs ∧
    ∀ j, j ≠ 0 →
         (metronomeLoop Math_sin frames i s outputs).2 !! j = outputs !! j.
Proof.
  induction frames as [|k IH]; intros i s outputs; cbn [metronomeLoop].
  - split; reflexivity.
  - destruct (PrimFloat.ltb 0 (metronomePhase s)); [|split; reflexivity].
    match goal with
    | |- context [metronomeLoop _ k (S i) ?s1 ?o1] =>
        destruct (IH (S i) s1 o1) as [Hs Hj]
    end.
    split.
    + rewrite Hs. apply shape_mixAdd.
    + intros j Hne. rewrite (Hj j Hne). apply mixAdd_lookup_ne, Hne.
Qed.

Lemma toneLoop_outputs (sampleRate : float) (Math_sin : float → float)
    (frames : nat) :
  ∀ (i : nat) (s : MainProcessor) (outputs : list (list (list float))),
    shape (toneLoop sampleRate Math_sin frames i s outputs).2 = shape outputs ∧
    ∀ j, j ≠ 0 →
         (toneLoop sampleRate Math_sin frames i s outputs).2 !! j
         = outputs !! j.
Proof.
  induction frames as [|k IH]; intros i s outputs; cbn [toneLoop].
  - split; reflexivity.
  - cbv zeta.
    match goal with
    | |- context [toneLoop _ _ k (S i) ?s1 ?o1] =>
        destruct (IH (S i) s1 o1) as [Hs Hj]
    end.
    split.
    + rewrite Hs. apply shape_mixAdd.
    + intros j Hne. rewrite (Hj j Hne). apply mixAdd_lookup_ne, Hne.
Qed.

Lemma metronomeStage_outputs (Math_sin : float → float) (bufferSize : nat)
    (s : MainProcessor) (outputs : list (list (list float))) :
  shape (metronomeStage Math_sin bufferSize s outputs).2 = shape outputs ∧
  ∀ j, j ≠ 0 →
       (metronomeStage Math_sin bufferSize s outputs).2 !! j = outputs !! j.
Proof.
  unfold metronomeStage. destruct (_ && _).
  - apply metronomeLoop_outputs.
  - split; reflexivity.
Qed.

Lemma toneStage_outputs (sampleRate : float) (Math_sin : float → float)
    (bufferSize : nat) (s : MainProcessor)
    (outputs : list (list (list float))) :
  shape (toneStage sampleRate Math_sin bufferSize s outputs).2 = shape outputs ∧
  ∀ j, j ≠ 0 →
       (toneStage sampleRate Math_sin bufferSize s outputs).2 !! j
       = outputs !! j.
Proof.
  unfold toneStage. destruct (isTonePlaying s).
  - apply toneLoop_outputs.
  - split; reflexivity.
Qed.

Lemma shape_voiceFrame (buffer : list (list float)) (vis : bool) (i : nat)
    (voice voice' : SampleVoice) (outs outs' : list (list (list float))) :
  voiceFrame buffer vis i voice outs = Some (voice', outs') →
  shape outs' = shape outs.
Proof.
  unfold voiceFrame. destruct buffer as [|b0 bs]; [discriminate|].
  set (outs1 := alter (imap _) 0 outs).
  assert (H1 : shape outs1 = shape outs).
  { apply shape_alter. intros out. apply list_eq. intros c.
    rewrite !list_lookup_fmap, list_lookup_imap.
    destruct (out !! c); simpl; [|reflexivity].
    rewrite accumulate_length. reflexivity. }
  destruct vis; simpl.
  - unfold visAdd.
    destruct (outs1 !! (visSlot voice + 1)) as [[|c cs]|] eqn:E;
      try discriminate.
    simpl. intros [= _ <-]. rewrite <- H1. apply shape_lookup. intros j.
    destruct (decide (j = visSlot voice + 1)) as [->|Hne].
    + rewrite list_lookup_insert_eq by (eapply lookup_lt_Some, E).
      rewrite E. simpl. rewrite accumulate_length. reflexivity.
    + rewrite list_lookup_insert_ne by congruence. reflexivity.
  - intros [= _ <-]. exact H1.
Qed.

Lemma shape_voiceLoop (buffer : list (list float)) (vis : bool)
    (frames : nat) :
  ∀ (i : nat) (voice voice' : SampleVoice)
    (outs outs' : list (list (list float))),
    voiceLoop buffer vis frames i voice outs = Some (voice', outs') →
    shape outs' = shape outs.
Proof.
  induction frames as [|k IH]; intros i voice voice' outs outs';
    cbn [voiceLoop].
  - intros [= _ <-]. reflexivity.
  - destruct (isPlaying voice); [|intros [= _ <-]; reflexivity].
    destruct (voiceFrame buffer vis i voice outs) as [[v1 o1]|] eqn:E;
      [|discriminate].
    simpl. intros Hl. rewrite (IH _ _ _ _ _ Hl).
    apply (shape_voiceFrame _ _ _ _ _ _ _ E).
Qed.

Lemma shape_renderVoice (buffers : gmap string (list (list float)))
    (bufferSize : nat) (voice : SampleVoice)
    (outs : list (list (list float)))
    (r : option SampleVoice * list (list (list float))) :
  renderVoice buffers bufferSize voice outs = Some r → shape r.2 = shape outs.
Proof.
  unfold renderVoice. destruct (buffers !! sampleId voice) as [buffer|];
    [|intros [= <-]; reflexivity].
  destruct (voiceLoop buffer _ bufferSize 0 voice outs) as [[v1 o1]|] eqn:E;
    [|discriminate].
  simpl. intros [= <-]. apply (shape_voiceLoop _ _ _ _ _ _ _ _ E).
Qed.

Lemma shape_renderVoices (buffers : gmap string (list (list float)))
    (bufferSize : nat) (voices : list SampleVoice) :
  ∀ (outs : list (list (list float)))
    (r : list SampleVoice * list (list (list float))),
    renderVoices buffers bufferSize voices outs = Some r →
    shape r.2 = shape outs.
Proof.
  induction voices as [|voice rest IH]; intros outs r; cbn [renderVoices].
  - intros [= <-]. reflexivity.
  - destruct (renderVoices buffers bufferSize rest outs) as [[rest1 o1]|] eqn:E;
      [|discriminate].
    simpl.
    destruct (renderVoice buffers bufferSize voice o1) as [[v1 o2]|] eqn:E2;
      [|discriminate].
    simpl. intros [= <-]. simpl.
    pose proof (shape_renderVoice _ _ _ _ _ E2) as H2. simpl in H2.
    rewrite H2. apply (IH _ _ E).
Qed.

(** X2. The block [process] returns has the shape of the one it was given:
    the same number of outputs, of channels in each output and of frames in
    each channel. *)
Theorem X2_process_keeps_shape (sampleRate : float)
    (Math_sin : float → float) (s s' : MainProcessor)
    (outputs outputs' : list (list (list float))) :
  (process sampleRate Math_sin s outputs).2 = Some (s', outputs') →
  shape outputs' = shape outputs.
Proof.
  destruct (outputs !! 0) as [[|ch0 chs]|] eqn:H0.
  - unfold process. rewrite H0. intros [= _ <-]. reflexivity.
  - rewrite (process_stages _ _ _ _ _ _ H0). cbv zeta. cbn [snd].
    destruct (renderVoices _ _ _ _) as [[voices o3]|] eqn:E; [|discriminate].
    cbn. intros [= _ <-].
    pose proof (shape_renderVoices _ _ _ _ _ E) as H3. cbn [snd] in H3.
    rewrite H3.
    rewrite (proj1 (toneStage_outputs _ _ _ _ _)).
    rewrite (proj1 (metronomeStage_outputs _ _ _ _)).
    apply shape_clearOutputs.
  - unfold process. rewrite H0. intros [= _ <-]. reflexivity.
Qed.

Lemma X2_process_keeps_shape_witness :
  (process 48000 silentSin pad1InFlight (hostOutputs 2)).2
  = Some (set_activeVoices [] (clockLoop 2 pad1InFlight).1,
          [[1; 1]; [1; 1]] :: [[1; 1]] :: replicate 15 [[0; 0]])%float ∧
  shape ([[1; 1]; [1; 1]] :: [[1; 1]] :: replicate 15 [[0; 0]])%float
  = shape (hostOutputs 2).
Proof.
  assert (H : (process 48000 silentSin pad1InFlight (hostOutputs 2)).2
              = Some (set_activeVoices [] (clockLoop 2 pad1InFlight).1,
                      [[1; 1]; [1; 1]] :: [[1; 1]] :: replicate 15 [[0; 0]])%float)
    by (vm_compute; reflexivity).
  split; [exact H|].
  exact (X2_process_keeps_shape 48000 silentSin pad1InFlight _
           (hostOutputs 2) _ H).
Defined.

(** X3. Nothing of what the outputs held before the call survives it: two
    blocks of the same shape, with a mix channel, give the same events, the
    same fields and the same outputs, whatever they contained. *)
Theorem X3_process_ignores_previous_content (sampleRate : float)
    (Math_sin : float → float) (s : MainProcessor)
    (outputs1 outputs2 : list (list (list float))) (ch0 : list float)
    (chs : list (list float)) :
  shape outputs1 = shape outputs2 →
  outputs1 !! 0 = Some (ch0 :: chs) →
  process sampleRate Math_sin s outputs1
  = process sampleRate Math_sin s outputs2.
Proof.
  intros Hs H1.
  assert (H2 : ∃ ch0' chs', outputs2 !! 0 = Some (ch0' :: chs')
                            ∧ length ch0' = length ch0).
  { pose proof (proj1 (shape_lookup _ _) Hs 0) as H. rewrite H1 in H.
    destruct (outputs2 !! 0) as [[|ch0' chs']|]; try discriminate.
    simpl in H. injection H as H _. eauto. }
  destruct H2 as (ch0' & chs' & H2 & Hl).
  rewrite (process_stages _ _ _ _ _ _ H1), (process_stages _ _ _ _ _ _ H2).
  rewrite Hl, (clearOutputs_shape outputs1), (clearOutputs_shape outputs2), Hs.
  reflexivity.
Qed.

Lemma X3_process_ignores_previous_content_witness :
  shape ([[1; 1]; [1; 1]] :: [[1; 1]] :: replicate 15 [[0; 0]])%float
  = shape (hostOutputs 2) ∧
  process 48000 silentSin pad1InFlight
    ([[1; 1]; [1; 1]] :: [[1; 1]] :: replicate 15 [[0; 0]])%float
  = process 48000 silentSin pad1InFlight (hostOutputs 2).
Proof.
  split; [reflexivity|].
  exact (X3_process_ignores_previous_content 48000 silentSin pad1InFlight
           ([[1; 1]; [1; 1]] :: [[1; 1]] :: replicate 15 [[0; 0]])%float
           (hostOutputs 2) [1; 1]%float [[1; 1]%float] eq_refl eq_refl).
Defined.

(** ** The active voices after a block *)

Lemma voiceLoop_key (buffer : list (list float)) (vis : bool) (frames : nat) :
  ∀ (i : nat) (voice voice' : SampleVoice)
    (outs outs' : list (list (list float))),
    voiceLoop buffer vis frames i voice outs = Some (voice', outs') →
    voiceKey voice' = voiceKey voice.
Proof.
  induction frames as [|k IH]; intros i voice voice' outs outs';
    cbn [voiceLoop].
  - intros [= <- _]. reflexivity.
  - destruct (isPlaying voice); [|intros [= <- _]; reflexivity].
    destruct buffer as [|b0 bs]; [discriminate|].
    destruct (voiceFrame (b0 :: bs) vis i voice outs) as [[v1 o1]|] eqn:E;
      [|discriminate].
    simpl. intros Hl. rewrite (IH _ _ _ _ _ Hl).
    destruct (voiceFrame_Some _ _ _ _ _ _ _ _ E) as (-> & _). reflexivity.
Qed.

Lemma renderVoice_kept (buffers : gmap string (list (list float)))
    (bufferSize : nat) (voice kept : SampleVoice)
    (outs outs' : list (list (list float))) :
  renderVoice buffers bufferSize voice outs = Some (Some kept, outs') →
  isPlaying kept = true ∧ voiceKey kept = voiceKey voice ∧
  is_Some (buffers !! sampleId kept) ∧
  (0 < bufferSize →
   ∃ b0 bs, buffers !! sampleId kept = Some (b0 :: bs) ∧
            bufferIndex kept < length b0).
Proof.
  unfold renderVoice.
  destruct (buffers !! sampleId voice) as [buffer|] eqn:Hb; [|discriminate].
  destruct (voiceLoop buffer _ bufferSize 0 voice outs) as [[v1 o1]|] eqn:E;
    [|discriminate].
  simpl. destruct (isPlaying v1) eqn:Hp; [|discriminate].
  intros [= <- <-].
  pose proof (voiceLoop_key _ _ _ _ _ _ _ _ E) as Hk.
  assert (Hid : sampleId v1 = sampleId voice) by (injection Hk; auto).
  split; [exact Hp|]. split; [exact Hk|]. rewrite Hid, Hb.
  split; [eauto|]. intros Hn.
  destruct buffer as [|b0 bs].
  - exfalso. destruct bufferSize as [|n]; [lia|]. cbn [voiceLoop] in E.
    destruct (isPlaying voice) eqn:Hv; [discriminate E|].
    injection E as <- _. congruence.
  - exists b0, bs. split; [reflexivity|].
    rewrite (voiceLoop_voice _ _ _ _ _ _ _ _ _ E) in Hp |- *.
    unfold framesRendered in *.
    destruct (isPlaying voice) eqn:Hv.
    + destruct (Nat.min bufferSize (Nat.max 1 (length b0 - bufferIndex voice)))
        as [|m] eqn:Em; [lia|].
      cbn [isPlaying bufferIndex] in *.
      apply negb_true_iff, Nat.leb_gt in Hp. exact Hp.
    + congruence.
Qed.

Lemma renderVoices_kept (buffers : gmap string (list (list float)))
    (bufferSize : nat) (voices : list SampleVoice) :
  ∀ (outs outs' : list (list (list float))) (voices' : list SampleVoice),
    renderVoices buffers bufferSize voices outs = Some (voices', outs') →
    Forall (fun kept =>
              isPlaying kept = true ∧ is_Some (buffers !! sampleId kept) ∧
              (0 < bufferSize →
               ∃ b0 bs, buffers !! sampleId kept = Some (b0 :: bs) ∧
                        bufferIndex kept < length b0))
      voices' ∧
    sublist (voiceKey <$> voices') (voiceKey <$> voices).
Proof.
  induction voices as [|voice rest IH]; intros outs outs' voices';
    cbn [renderVoices].
  - intros [= <- _]. split; [constructor | reflexivity].
  - destruct (renderVoices buffers bufferSize rest outs) as [[rest1 o1]|] eqn:E;
      [|discriminate].
    simpl.
    destruct (renderVoice buffers bufferSize voice o1) as [[v1 o2]|] eqn:E2;
      [|discriminate].
    simpl. intros [= <- _].
    destruct (IH _ _ _ E) as [HF HS].
    destruct v1 as [kept|].
    + destruct (renderVoice_kept _ _ _ _ _ _ E2) as (Hp & Hk & Hl & Hc).
      split.
      * constructor; [|exact HF]. split; [exact Hp|]. split; assumption.
      * cbn [fmap list_fmap]. rewrite Hk. apply sublist_skip, HS.
    + split; [exact HF|]. cbn [fmap list_fmap]. apply sublist_cons, HS.
Qed.

Lemma process_voices (sampleRate : float) (Math_sin : float → float)
    (s s' : MainProcessor) (outputs outputs' : list (list (list float))) :
  (process sampleRate Math_sin s outputs).2 = Some (s', outputs') →
  sublist (voiceKey <$> activeVoices s') (voiceKey <$> activeVoices s).
Proof.
  destruct (outputs !! 0) as [[|ch0 chs]|] eqn:H0.
  - unfold process. rewrite H0. intros [= <- _]. reflexivity.
  - rewrite (process_stages _ _ _ _ _ _ H0). cbv zeta. cbn [snd].
    set (c := clockLoop (length ch0) s).
    set (m := metronomeStage Math_sin (length ch0) c.1 (clearOutputs outputs)).
    set (t := toneStage sampleRate Math_sin (length ch0) m.1 m.2).
    destruct (renderVoices _ _ _ _) as [[voices o3]|] eqn:E; [|discriminate].
    cbn. intros [= <- _].
    destruct (renderVoices_kept _ _ _ _ _ _ E) as [_ HS].
    assert (Hv : activeVoices t.1 = activeVoices s).
    { subst t. rewrite toneStage_fields. cbn [activeVoices set_phase].
      subst m. rewrite metronomeStage_fields.
      cbn [activeVoices set_metronomePhase]. apply clockLoop_frame. }
    rewrite Hv in HS. exact HS.
  - unfold process. rewrite H0. intros [= <- _]. reflexivity.
Qed.

(** X4. After a block that has a mix channel, every voice left in the active
    list is playing and belongs to a pad that has a sample: stopped voices
    and voices without a sample are spliced out.  The voices left are
    voices that were there, in their order, each with its pad, gain and
    slot: a block starts no voice and reorders none. *)
Theorem X4_voices_after_block (sampleRate : float) (Math_sin : float → float)
    (s s' : MainProcessor) (outputs outputs' : list (list (list float)))
    (ch0 : list float) (chs : list (list float)) :
  outputs !! 0 = Some (ch0 :: chs) →
  (process sampleRate Math_sin s outputs).2 = Some (s', outputs') →
  Forall (fun voice =>
            isPlaying voice = true ∧
            is_Some (sampleBuffers s' !! sampleId voice))
    (activeVoices s') ∧
  sublist (voiceKey <$> activeVoices s') (voiceKey <$> activeVoices s) ∧
  length (activeVoices s') ≤ length (activeVoices s).
Proof.
  intros H0. rewrite (process_stages _ _ _ _ _ _ H0). cbv zeta. cbn [snd].
  set (c := clockLoop (length ch0) s).
  set (m := metronomeStage Math_sin (length ch0) c.1 (clearOutputs outputs)).
  set (t := toneStage sampleRate Math_sin (length ch0) m.1 m.2).
  destruct (renderVoices _ _ _ _) as [[voices o3]|] eqn:E; [|discriminate].
  cbn. intros [= <- <-].
  destruct (renderVoices_kept _ _ _ _ _ _ E) as [HF HS].
  assert (Hv : activeVoices t.1 = activeVoices s).
  { subst t. rewrite toneStage_fields. cbn [activeVoices set_phase].
    subst m. rewrite metronomeStage_fields.
    cbn [activeVoices set_metronomePhase]. apply clockLoop_frame. }
  rewrite Hv in HS. cbn [activeVoices sampleBuffers set_activeVoices].
  split; [|split].
  - eapply Forall_impl; [exact HF|]. intros v (Hp & Hl & _). split; assumption.
  - exact HS.
  - apply sublist_length in HS. rewrite !length_fmap in HS. exact HS.
Qed.

Lemma X4_voices_after_block_witness :
  hostOutputs 2 !! 0 = Some [[0; 0]; [0; 0]]%float ∧
  (process 48000 silentSin pad1Retriggered (hostOutputs 2)).2
  = Some (set_activeVoices [mkVoice "pad1" 2 true 1 0]
            (clockLoop 2 pad1Retriggered).1,
          [[1; 1]; [1; 1]] :: [[1; 1]] :: replicate 15 [[0; 0]])%float ∧
  length [mkVoice "pad1" 2 true 1 0] ≤ length (activeVoices pad1Retriggered).
Proof.
  assert (H : (process 48000 silentSin pad1Retriggered (hostOutputs 2)).2
              = Some (set_activeVoices [mkVoice "pad1" 2 true 1 0]
                        (clockLoop 2 pad1Retriggered).1,
                      [[1; 1]; [1; 1]] :: [[1; 1]] :: replicate 15 [[0; 0]])%float)
    by (vm_compute; reflexivity).
  split; [reflexivity|]. split; [exact H|].
  exact (proj2 (proj2 (X4_voices_after_block 48000 silentSin pad1Retriggered _
                         (hostOutputs 2) _ [0; 0]%float [[0; 0]%float]
                         eq_refl H))).
Defined.

(** X5. After a block of at least one frame, the cursor of every voice left
    in the active list is inside channel 0 of the sample of its pad: a voice
    that has reached the end of the sample does not survive the block. *)
Theorem X5_cursor_inside_sample (sampleRate : float)
    (Math_sin : float → float) (s s' : MainProcessor)
    (outputs outputs' : list (list (list float))) (x : float)
    (ch0 : list float) (chs : list (list float)) :
  outputs !! 0 = Some ((x :: ch0) :: chs) →
  (process sampleRate Math_sin s outputs).2 = Some (s', outputs') →
  Forall (fun voice =>
            ∃ b0 bs, sampleBuffers s' !! sampleId voice = Some (b0 :: bs) ∧
                     bufferIndex voice < length b0)
    (activeVoices s').
Proof.
  intros H0. rewrite (process_stages _ _ _ _ _ _ H0). cbv zeta. cbn [snd].
  destruct (renderVoices _ _ _ _) as [[voices o3]|] eqn:E; [|discriminate].
  cbn. intros [= <- <-].
  destruct (renderVoices_kept _ _ _ _ _ _ E) as [HF _].
  cbn [activeVoices sampleBuffers set_activeVoices].
  eapply Forall_impl; [exact HF|]. intros v (_ & _ & Hc).
  apply Hc. cbn [length]. lia.
Qed.

Lemma X5_cursor_inside_sample_witness :
  hostOutputs 2 !! 0 = Some ((0 :: [0]) :: [[0; 0]])%float ∧
  (process 48000 silentSin pad1Retriggered (hostOutputs 2)).2
  = Some (set_activeVoices [mkVoice "pad1" 2 true 1 0]
            (clockLoop 2 pad1Retriggered).1,
          [[1; 1]; [1; 1]] :: [[1; 1]] :: replicate 15 [[0; 0]])%float ∧
  Forall (fun voice =>
            ∃ b0 bs,
              sampleBuffers
                (set_activeVoices [mkVoice "pad1" 2 true 1 0]
                   (clockLoop 2 pad1Retriggered).1) !! sampleId voice
              = Some (b0 :: bs) ∧
              bufferIndex voice < length b0)
    [mkVoice "pad1" 2 true 1 0].
Proof.
  assert (H : (process 48000 silentSin pad1Retriggered (hostOutputs 2)).2
              = Some (set_activeVoices [mkVoice "pad1" 2 true 1 0]
                        (clockLoop 2 pad1Retriggered).1,
                      [[1; 1]; [1; 1]] :: [[1; 1]] :: replicate 15 [[0; 0]])%float)
    by (vm_compute; reflexivity).
  split; [reflexivity|]. split; [exact H|].
  exact (X5_cursor_inside_sample 48000 silentSin pad1Retriggered _
           (hostOutputs 2) _ 0%float [0%float] [[0; 0]%float] eq_refl H).
Defined.

(** ** Silence, and who writes a visualization output *)

Lemma renderVoices_all_stopped (buffers : gmap string (list (list float)))
    (bufferSize : nat) (voices : list SampleVoice)
    (outs : list (list (list float))) :
  Forall (fun voice => isPlaying voice = false) voices →
  renderVoices buffers bufferSize voices outs = Some ([], outs).
Proof.
  induction 1 as [|voice rest Hp _ IH]; cbn [renderVoices]; [reflexivity|].
  rewrite IH. simpl. rewrite (renderVoice_stopped _ _ _ _ Hp). reflexivity.
Qed.

Lemma clearOutputs_frameAt (outs : list (list (list float))) (j ch t : nat)
    (y : float) :
  frameAt (clearOutputs outs) j ch t = Some y → y = 0%float.
Proof.
  unfold frameAt, clearOutputs. rewrite list_lookup_fmap.
  destruct (outs !! j) as [out|]; [|discriminate]. simpl.
  rewrite list_lookup_fmap. destruct (out !! ch) as [arr|]; [|discriminate].
  simpl. intros H. apply lookup_replicate in H. apply H.
Qed.

(** X6. With the metronome and the tone off and no voice playing, a block
    that has a mix channel is silence: every frame of every channel of
    every output is 0 whatever it held before, the shape is kept, and the
    active list is left empty.  Only the clock has moved. *)
Theorem X6_idle_block_is_silence (sampleRate : float)
    (Math_sin : float → float) (s : MainProcessor)
    (outputs : list (list (list float))) (ch0 : list float)
    (chs : list (list float)) :
  outputs !! 0 = Some (ch0 :: chs) →
  isMetronomeEnabled s = false →
  isTonePlaying s = false →
  Forall (fun voice => isPlaying voice = false) (activeVoices s) →
  (process sampleRate Math_sin s outputs).2
  = Some (set_activeVoices [] (clockLoop (length ch0) s).1,
          clearOutputs outputs) ∧
  shape (clearOutputs outputs) = shape outputs ∧
  ∀ (j ch t : nat) (y : float),
    frameAt (clearOutputs outputs) j ch t = Some y → y = 0%float.
Proof.
  intros H0 Hm Ht Hv.
  rewrite (process_quiet _ _ _ _ _ _ H0 Hm Ht). cbn [snd].
  rewrite (renderVoices_all_stopped _ _ _ _ Hv). simpl.
  split; [reflexivity|]. split; [apply shape_clearOutputs|].
  apply clearOutputs_frameAt.
Qed.

Lemma X6_idle_block_is_silence_witness :
  (process 48000 silentSin (newMainProcessor 48000)
     ([[1; 1]; [1; 1]] :: [[1; 1]] :: replicate 15 [[0; 0]])%float).2
  = Some (set_activeVoices []
            (clockLoop (length [1; 1]%float) (newMainProcessor 48000)).1,
          clearOutputs
            ([[1; 1]; [1; 1]] :: [[1; 1]] :: replicate 15 [[0; 0]])%float).
Proof.
  exact (proj1 (X6_idle_block_is_silence 48000 silentSin
                  (newMainProcessor 48000)
                  ([[1; 1]; [1; 1]] :: [[1; 1]] :: replicate 15 [[0; 0]])%float
                  [1; 1]%float [[1; 1]%float] eq_refl eq_refl eq_refl
                  (Forall_nil_2 _))).
Defined.

Lemma renderVoices_other_slots (buffers : gmap string (list (list float)))
    (bufferSize : nat) (j : nat) (voices : list SampleVoice) :
  ∀ (outs outs' : list (list (list float))) (voices' : list SampleVoice),
    j ≠ 0 →
    Forall (fun voice => visSlot voice + 1 ≠ j) voices →
    renderVoices buffers bufferSize voices outs = Some (voices', outs') →
    outs' !! j = outs !! j.
Proof.
  induction voices as [|voice rest IH]; intros outs outs' voices' Hj HF;
    cbn [renderVoices].
  - intros [= _ <-]. reflexivity.
  - apply Forall_cons in HF as [Hv HF].
    destruct (renderVoices buffers bufferSize rest outs) as [[rest1 o1]|] eqn:E;
      [|discriminate].
    simpl.
    destruct (renderVoice buffers bufferSize voice o1) as [[v1 o2]|] eqn:E2;
      [|discriminate].
    simpl. intros [= _ <-].
    rewrite <- (IH _ _ _ Hj HF E).
    apply (proj1 (renderVoice_Some _ _ _ _ _ E2) j Hj). congruence.
Qed.

(** X7. A visualization output is written by the voices of its slot and by
    nothing else: when no active voice has slot [j - 1], output [j] leaves
    the block cleared.  The metronome click and the test tone go to the mix
    only. *)
Theorem X7_vis_output_of_other_slots_is_cleared (sampleRate : float)
    (Math_sin : float → float) (s s' : MainProcessor)
    (outputs outputs' : list (list (list float))) (ch0 : list float)
    (chs : list (list float)) (j : nat) :
  outputs !! 0 = Some (ch0 :: chs) →
  j ≠ 0 →
  Forall (fun voice => visSlot voice + 1 ≠ j) (activeVoices s) →
  (process sampleRate Math_sin s outputs).2 = Some (s', outputs') →
  outputs' !! j = clearOutputs outputs !! j ∧
  ∀ (ch t : nat) (y : float), frameAt outputs' j ch t = Some y → y = 0%float.
Proof.
  intros H0 Hj HF. rewrite (process_stages _ _ _ _ _ _ H0). cbv zeta. cbn [snd].
  set (c := clockLoop (length ch0) s).
  set (m := metronomeStage Math_sin (length ch0) c.1 (clearOutputs outputs)).
  set (t := toneStage sampleRate Math_sin (length ch0) m.1 m.2).
  destruct (renderVoices _ _ _ _) as [[voices o3]|] eqn:E; [|discriminate].
  cbn. intros [= _ <-].
  assert (Hv : activeVoices t.1 = activeVoices s).
  { subst t. rewrite toneStage_fields. cbn [activeVoices set_phase].
    subst m. rewrite metronomeStage_fields.
    cbn [activeVoices set_metronomePhase]. apply clockLoop_frame. }
  rewrite Hv in E.
  assert (Ho : o3 !! j = clearOutputs outputs !! j).
  { rewrite (renderVoices_other_slots _ _ _ _ _ _ _ Hj HF E).
    subst t. rewrite (proj2 (toneStage_outputs _ _ _ _ _) j Hj).
    subst m. apply (proj2 (metronomeStage_outputs _ _ _ _) j Hj). }
  split; [exact Ho|].
  intros ch t0 y. unfold frameAt. rewrite Ho.
  apply (clearOutputs_frameAt outputs j ch t0 y).
Qed.

Lemma X7_vis_output_of_other_slots_is_cleared_witness :
  hostOutputs 2 !! 0 = Some [[0; 0]; [0; 0]]%float ∧
  2 ≠ 0 ∧
  Forall (fun voice => visSlot voice + 1 ≠ 2) (activeVoices pad1InFlight) ∧
  (process 48000 silentSin pad1InFlight (hostOutputs 2)).2
  = Some (set_activeVoices [] (clockLoop 2 pad1InFlight).1,
          [[1; 1]; [1; 1]] :: [[1; 1]] :: replicate 15 [[0; 0]])%float ∧
  ([[1; 1]; [1; 1]] :: [[1; 1]] :: replicate 15 [[0; 0]])%float !! 2
  = clearOutputs (hostOutputs 2) !! 2.
Proof.
  assert (H : (process 48000 silentSin pad1InFlight (hostOutputs 2)).2
              = Some (set_activeVoices [] (clockLoop 2 pad1InFlight).1,
                      [[1; 1]; [1; 1]] :: [[1; 1]] :: replicate 15 [[0; 0]])%float)
    by (vm_compute; reflexivity).
  assert (HF : Forall (fun voice => visSlot voice + 1 ≠ 2)
                 (activeVoices pad1InFlight)).
  { change (activeVoices pad1InFlight) with [mkVoice "pad1" 2 true 1 0].
    constructor; [cbn; lia | constructor]. }
  assert (Hj : 2 ≠ 0) by lia.
  split; [reflexivity|]. split; [exact Hj|]. split; [exact HF|].
  split; [exact H|].
  exact (proj1 (X7_vis_output_of_other_slots_is_cleared 48000 silentSin
                  pad1InFlight _ (hostOutputs 2) _ [0; 0]%float [[0; 0]%float]
                  2 eq_refl Hj HF H)).
Defined.

(** ** Invariants of a run *)

Lemma run_invariant (sampleRate : float) (Math_sin : float → float)
    (I : MainProcessor → Prop) :
  (∀ s msg, I s → I (onmessage sampleRate s msg).1) →
  (∀ s outputs s' outputs',
     I s → (process sampleRate Math_sin s outputs).2 = Some (s', outputs') →
     I s') →
  ∀ (steps : list Step) (s s' : MainProcessor),
    I s → (run sampleRate Math_sin s steps).2 = Some s' → I s'.
Proof.
  intros Hmsg Hblock. induction steps as [|step rest IH]; intros s s' Hs;
    cbn [run].
  - intros [= <-]. exact Hs.
  - destruct step as [msg|outputs].
    + pose proof (Hmsg s msg Hs) as H1.
      destruct (onmessage sampleRate s msg) as [s1 e1]. cbn [fst] in H1.
      pose proof (IH s1 s' H1) as H2.
      destruct (run sampleRate Math_sin s1 rest) as [e2 r]. exact H2.
    + pose proof (Hblock s outputs) as H1.
      destruct (process sampleRate Math_sin s outputs) as [e1 [[s1 o1]|]];
        [|discriminate].
      pose proof (IH s1 s' (H1 s1 o1 Hs eq_refl)) as H2.
      destruct (run sampleRate Math_sin s1 rest) as [e2 r]. exact H2.
Qed.

Lemma choke_key (groups : gmap string float) (group : float)
    (voice : SampleVoice) :
  voiceKey (choke groups group voice) = voiceKey voice.
Proof. unfold choke. destruct (_ && _); reflexivity. Qed.

Lemma onmessage_voicesLoaded (sampleRate : float) (s : MainProcessor)
    (msg : AudioMessage) :
  voicesLoaded s → voicesLoaded (onmessage sampleRate s msg).1.
Proof.
  unfold voicesLoaded. intros H.
  destruct msg as [b|id buffers|id velocity|tempo|b|id group|];
    cbn [onmessage fst]; try exact H.
  - cbn [activeVoices sampleBuffers set_sampleBuffers].
    eapply Forall_impl; [exact H|]. intros v [Hl Hs]. split; [|exact Hs].
    apply lookup_insert_is_Some'. right. exact Hl.
  - unfold triggerVoice.
    destruct (sampleBuffers s !! id) as [buffer|] eqn:Hb; [|exact H].
    cbn [activeVoices sampleBuffers set_activeVoices].
    apply Forall_app. split.
    + destruct (chokeGroups s !! id) as [g|]; [|exact H].
      apply Forall_fmap. eapply Forall_impl; [exact H|].
      intros v Hv. unfold compose.
      pose proof (choke_key (chokeGroups s) g v) as Hk.
      injection Hk as Hid _ Hslot. rewrite Hid, Hslot. exact Hv.
    + constructor; [|constructor]. cbn. rewrite Hb. split; [eauto|reflexivity].
  - destruct b; exact H.
Qed.

Lemma process_voicesLoaded (sampleRate : float) (Math_sin : float → float)
    (s s' : MainProcessor) (outputs outputs' : list (list (list float))) :
  voicesLoaded s →
  (process sampleRate Math_sin s outputs).2 = Some (s', outputs') →
  voicesLoaded s'.
Proof.
  unfold voicesLoaded. intros H Hp.
  pose proof (process_voices _ _ _ _ _ _ Hp) as HS.
  destruct (process_keeps_fields _ _ _ _ _ _ Hp) as (Hb & _).
  rewrite Hb. apply Forall_forall. intros v Hv.
  assert (Hk : voiceKey v ∈ voiceKey <$> activeVoices s).
  { eapply elem_of_sublist; [|exact HS]. apply list_elem_of_fmap. eauto. }
  apply list_elem_of_fmap in Hk as (w & Hkw & Hw).
  rewrite Forall_forall in H. specialize (H w Hw).
  injection Hkw as Hid _ Hslot. rewrite Hid, Hslot. exact H.
Qed.

(** X8. However messages and blocks follow each other on a new processor,
    every active voice belongs to a pad that has a sample and sits in the
    slot of that pad, which is below 16: [process] never meets a voice
    without a buffer, and never looks for a visualization output beyond
    index 16. *)
Theorem X8_voices_always_have_a_sample (sampleRate : float)
    (Math_sin : float → float) (steps : list Step) (s' : MainProcessor) :
  (run sampleRate Math_sin (newMainProcessor sampleRate) steps).2 = Some s' →
  Forall (fun voice =>
            is_Some (sampleBuffers s' !! sampleId voice) ∧
            visSlot voice = padSlot (sampleId voice) ∧
            visSlot voice + 1 ≤ 16)
    (activeVoices s').
Proof.
  intros Hrun.
  assert (H : voicesLoaded s').
  { apply (run_invariant sampleRate Math_sin voicesLoaded
             (onmessage_voicesLoaded sampleRate)
             (fun t o t' o' => process_voicesLoaded sampleRate Math_sin t t' o o')
             steps (newMainProcessor sampleRate) s'); [|exact Hrun].
    constructor. }
  eapply Forall_impl; [exact H|]. intros v [Hl Hs].
  split; [exact Hl|]. split; [exact Hs|].
  rewrite Hs. pose proof (padSlot_lt (sampleId v)). lia.
Qed.

Lemma X8_voices_always_have_a_sample_witness :
  (run 48000 silentSin (newMainProcessor 48000)
     [Message (LOAD_SAMPLE "pad5" [[1; 1; 1; 1]%float]);
      Message (PLAY_SAMPLE "pad5" (Some 0.5%float));
      Block (hostOutputs 2);
      Message (LOAD_SAMPLE "pad5" [[1; 1; 1; 1; 1; 1]%float])]).2
  = Some (set_sampleBuffers
            (<["pad5" := [[1; 1; 1; 1; 1; 1]%float]]>
               (<["pad5" := [[1; 1; 1; 1]%float]]> ∅))
            (set_activeVoices [mkVoice "pad5" 2 true 0.5 4]
               (clockLoop 2 (newMainProcessor 48000)).1)) ∧
  Forall (fun voice =>
            is_Some
              (sampleBuffers
                 (set_sampleBuffers
                    (<["pad5" := [[1; 1; 1; 1; 1; 1]%float]]>
                       (<["pad5" := [[1; 1; 1; 1]%float]]> ∅))
                    (set_activeVoices [mkVoice "pad5" 2 true 0.5 4]
                       (clockLoop 2 (newMainProcessor 48000)).1))
               !! sampleId voice) ∧
            visSlot voice = padSlot (sampleId voice) ∧
            visSlot voice + 1 ≤ 16)
    [mkVoice "pad5" 2 true 0.5 4].
Proof.
  assert (H : (run 48000 silentSin (newMainProcessor 48000)
                 [Message (LOAD_SAMPLE "pad5" [[1; 1; 1; 1]%float]);
                  Message (PLAY_SAMPLE "pad5" (Some 0.5%float));
                  Block (hostOutputs 2);
                  Message (LOAD_SAMPLE "pad5" [[1; 1; 1; 1; 1; 1]%float])]).2
              = Some (set_sampleBuffers
                        (<["pad5" := [[1; 1; 1; 1; 1; 1]%float]]>
                           (<["pad5" := [[1; 1; 1; 1]%float]]> ∅))
                        (set_activeVoices [mkVoice "pad5" 2 true 0.5 4]
                           (clockLoop 2 (newMainProcessor 48000)).1)))
    by (vm_compute; reflexivity).
  split; [exact H|].
  exact (X8_voices_always_have_a_sample 48000 silentSin _ _ H).
Defined.

(** X9. Nothing removes a sample or a choke group: along any run, a pad that
    has a sample keeps having one, and a pad that is in a choke group stays
    in one.  A LOAD_SAMPLE or SET_CHOKE_GROUP is read back as it was
    written and leaves the entries of the other pads alone. *)
Theorem X9_stores_only_grow (sampleRate : float) (Math_sin : float → float)
    (steps : list Step) (s s' : MainProcessor) (id : string) :
  (run sampleRate Math_sin s steps).2 = Some s' →
  (is_Some (sampleBuffers s !! id) → is_Some (sampleBuffers s' !! id)) ∧
  (is_Some (chokeGroups s !! id) → is_Some (chokeGroups s' !! id)) ∧
  (∀ (buffers : list (list float)) (other : string),
     sampleBuffers (onmessage sampleRate s (LOAD_SAMPLE id buffers)).1 !! id
     = Some buffers ∧
     (other ≠ id →
      sampleBuffers (onmessage sampleRate s (LOAD_SAMPLE id buffers)).1
        !! other
      = sampleBuffers s !! other)) ∧
  (∀ (group : float) (other : string),
     chokeGroups (onmessage sampleRate s (SET_CHOKE_GROUP id group)).1 !! id
     = Some group ∧
     (other ≠ id →
      chokeGroups (onmessage sampleRate s (SET_CHOKE_GROUP id group)).1
        !! other
      = chokeGroups s !! other)).
Proof.
  intros Hrun. split; [|split; [|split]].
  - intros Hs.
    apply (run_invariant sampleRate Math_sin
             (fun t => is_Some (sampleBuffers t !! id))) with steps s;
      try assumption.
    + intros t msg Ht.
      destruct msg as [b|id' buffers|id' velocity|tempo|b|id' group|];
        cbn [onmessage fst]; try exact Ht.
      * cbn [sampleBuffers set_sampleBuffers].
        apply lookup_insert_is_Some'. right. exact Ht.
      * unfold triggerVoice. destruct (sampleBuffers t !! id'); exact Ht.
      * destruct b; exact Ht.
    + intros t o t' o' Ht Hp.
      destruct (process_keeps_fields _ _ _ _ _ _ Hp) as (-> & _). exact Ht.
  - intros Hs.
    apply (run_invariant sampleRate Math_sin
             (fun t => is_Some (chokeGroups t !! id))) with steps s;
      try assumption.
    + intros t msg Ht.
      destruct msg as [b|id' buffers|id' velocity|tempo|b|id' group|];
        cbn [onmessage fst]; try exact Ht.
      * unfold triggerVoice. destruct (sampleBuffers t !! id'); exact Ht.
      * destruct b; exact Ht.
      * cbn [chokeGroups set_chokeGroups].
        apply lookup_insert_is_Some'. right. exact Ht.
    + intros t o t' o' Ht Hp.
      destruct (process_keeps_fields _ _ _ _ _ _ Hp) as (_ & -> & _). exact Ht.
  - intros buffers other. cbn [onmessage fst sampleBuffers set_sampleBuffers].
    split; [apply lookup_insert_eq|]. intros Hne.
    apply lookup_insert_ne. congruence.
  - intros group other. cbn [onmessage fst chokeGroups set_chokeGroups].
    split; [apply lookup_insert_eq|]. intros Hne.
    apply lookup_insert_ne. congruence.
Qed.

Lemma X9_stores_only_grow_witness :
  (run 48000 silentSin pad1Retriggered
     [Message (LOAD_SAMPLE "pad2" [[1; 1]%float]);
      Block (hostOutputs 2);
      Message (SET_BPM 90)]).2
  = Some (updateTiming 48000
            (set_bpm 90
               (set_activeVoices [mkVoice "pad1" 2 true 1 0]
                  (clockLoop 2
                     (set_sampleBuffers
                        (<["pad2" := [[1; 1]%float]]>
                           (sampleBuffers pad1Retriggered))
                        pad1Retriggered)).1))) ∧
  is_Some (sampleBuffers pad1Retriggered !! "pad1") ∧
  is_Some
    (sampleBuffers
       (updateTiming 48000
          (set_bpm 90
             (set_activeVoices [mkVoice "pad1" 2 true 1 0]
                (clockLoop 2
                   (set_sampleBuffers
                      (<["pad2" := [[1; 1]%float]]>
                         (sampleBuffers pad1Retriggered))
                      pad1Retriggered)).1))) !! "pad1").
Proof.
  assert (H : (run 48000 silentSin pad1Retriggered
                 [Message (LOAD_SAMPLE "pad2" [[1; 1]%float]);
                  Block (hostOutputs 2);
                  Message (SET_BPM 90)]).2
              = Some (updateTiming 48000
                        (set_bpm 90
                           (set_activeVoices [mkVoice "pad1" 2 true 1 0]
                              (clockLoop 2
                                 (set_sampleBuffers
                                    (<["pad2" := [[1; 1]%float]]>
                                       (sampleBuffers pad1Retriggered))
                                    pad1Retriggered)).1))))
    by (vm_compute; reflexivity).
  assert (Hs : is_Some (sampleBuffers pad1Retriggered !! "pad1"))
    by (vm_compute; eauto).
  split; [exact H|]. split; [exact Hs|].
  exact (proj1 (X9_stores_only_grow 48000 silentSin _ pad1Retriggered _ "pad1" H)
           Hs).
Defined.

(** ** The bar *)

Lemma clockFrame_beatsOf (s : MainProcessor) :
  beatsOf (clockFrame s).2 = beatsOf (beatFrame s).2.
Proof.
  rewrite clockFrame_eq. cbn [snd]. unfold beatsOf. rewrite omap_app.
  unfold tickFrame. cbn. destruct (PrimFloat.leb _ _); cbn; apply app_nil_r.
Qed.

Lemma beatFrame_beat (s : MainProcessor) :
  (beatsOf (beatFrame s).2 = [] ∧ currentBeat (beatFrame s).1 = currentBeat s) ∨
  (beatsOf (beatFrame s).2 = [currentBeat s] ∧
   currentBeat (beatFrame s).1 = (currentBeat s + 1) mod 4).
Proof.
  unfold beatFrame, triggerMetronome. cbn.
  destruct (PrimFloat.leb _ _); cbn; [right|left]; split; try reflexivity.
  destruct (Nat.eqb _ _); reflexivity.
Qed.

Lemma clockFrame_beat (s : MainProcessor) :
  beatsOf (clockFrame s).2
  = (fun k => (currentBeat s + k) mod 4)
    <$> seq 0 (length (beatsOf (clockFrame s).2)) ∨
  4 ≤ currentBeat s.
Proof.
  destruct (decide (currentBeat s < 4)) as [Hlt|]; [left | right; lia].
  rewrite clockFrame_beatsOf.
  destruct (beatFrame_beat s) as [[-> _]|[-> _]]; [reflexivity|].
  cbn [length seq fmap list_fmap].
  rewrite Nat.add_0_r, Nat.mod_small by exact Hlt. reflexivity.
Qed.

Lemma clockFrame_currentBeat (s : MainProcessor) :
  currentBeat (clockFrame s).1
  = (if decide (beatsOf (clockFrame s).2 = [])
     then currentBeat s
     else (currentBeat s + 1) mod 4) ∧
  length (beatsOf (clockFrame s).2) ≤ 1.
Proof.
  rewrite clockFrame_beatsOf, clockFrame_eq. cbn [fst].
  destruct (tickFrame_frame (beatFrame s).1) as (_ & _ & -> & _).
  destruct (beatFrame_beat s) as [[-> ->]|[-> ->]]; cbn; split; lia || reflexivity.
Qed.

(** The beats of the clock loop count up from the beat index, modulo 4. *)
Lemma clockLoop_beats (n : nat) :
  ∀ s : MainProcessor,
    currentBeat s < 4 →
    beatsOf (clockLoop n s).2
    = (fun k => (currentBeat s + k) mod 4)
      <$> seq 0 (length (beatsOf (clockLoop n s).2)) ∧
    currentBeat (clockLoop n s).1
    = (currentBeat s + length (beatsOf (clockLoop n s).2)) mod 4.
Proof.
  induction n as [|k IH]; intros s Hlt.
  - split; [reflexivity|]. cbn [clockLoop fst snd].
    change (length (beatsOf [])) with 0.
    rewrite Nat.add_0_r, Nat.mod_small by exact Hlt. reflexivity.
  - rewrite clockLoop_S. cbn [fst snd]. unfold beatsOf at 1 2 3.
    rewrite !omap_app. fold (beatsOf (clockFrame s).2).
    fold (beatsOf (clockLoop k (clockFrame s).1).2).
    destruct (clockFrame_currentBeat s) as [Hb Hlen].
    assert (Hlt1 : currentBeat (clockFrame s).1 < 4).
    { rewrite Hb. destruct (decide _); [exact Hlt|].
      apply Nat.mod_upper_bound. lia. }
    destruct (IH _ Hlt1) as [Hseq Hfin].
    destruct (clockFrame_beat s) as [Hf|]; [|lia].
    rewrite length_app, seq_app, fmap_app, <- Hf. cbn [Nat.add].
    assert (Hb1 : currentBeat (clockFrame s).1
                  = (currentBeat s + length (beatsOf (clockFrame s).2)) mod 4).
    { rewrite Hb. destruct (decide _) as [->|Hne].
      - cbn [length]. rewrite Nat.add_0_r, Nat.mod_small by exact Hlt.
        reflexivity.
      - destruct (beatsOf (clockFrame s).2) as [|b [|b' l]];
          [contradiction|reflexivity|cbn in Hlen; lia]. }
    split.
    + f_equal. rewrite Hseq at 1.
      assert (Hs2 : ∀ a n2, seq a n2 = Nat.add a <$> seq 0 n2)
        by (intros a n2; rewrite fmap_add_seq, Nat.add_0_r; reflexivity).
      rewrite (Hs2 (length (beatsOf (clockFrame s).2))).
      rewrite <- list_fmap_compose.
      apply list_fmap_ext. intros _ x _. unfold compose. rewrite Hb1.
      rewrite Nat.Div0.add_mod_idemp_l. f_equal. lia.
    + rewrite Hfin, Hb1, Nat.Div0.add_mod_idemp_l. f_equal. lia.
Qed.

Lemma process_currentBeat (sampleRate : float) (Math_sin : float → float)
    (s s' : MainProcessor) (outputs outputs' : list (list (list float)))
    (ch0 : list float) (chs : list (list float)) :
  outputs !! 0 = Some (ch0 :: chs) →
  (process sampleRate Math_sin s outputs).2 = Some (s', outputs') →
  currentBeat s' = currentBeat (clockLoop (length ch0) s).1.
Proof.
  intros H0. rewrite (process_stages _ _ _ _ _ _ H0). cbv zeta. cbn [snd].
  destruct (renderVoices _ _ _ _) as [[voices o3]|]; [|discriminate].
  cbn. intros [= <- _]. cbn [currentBeat set_activeVoices].
  rewrite toneStage_fields. cbn [currentBeat set_phase].
  rewrite metronomeStage_fields. reflexivity.
Qed.

(** X10. The beat index goes round the bar: the BEAT events of a block
    carry the beat index the block started with, then the next ones modulo
    4, one per beat, and the block leaves the index advanced by the number
    of its beats, modulo 4. *)
Theorem X10_beats_go_round_the_bar (sampleRate : float)
    (Math_sin : float → float) (s s' : MainProcessor)
    (outputs outputs' : list (list (list float))) (ch0 : list float)
    (chs : list (list float)) :
  currentBeat s < 4 →
  outputs !! 0 = Some (ch0 :: chs) →
  (process sampleRate Math_sin s outputs).2 = Some (s', outputs') →
  let beats := beatsOf (process sampleRate Math_sin s outputs).1 in
  beats = (fun k => (currentBeat s + k) mod 4) <$> seq 0 (length beats) ∧
  currentBeat s' = (currentBeat s + length beats) mod 4 ∧
  currentBeat s' < 4.
Proof.
  intros Hlt H0 Hp. cbv zeta. rewrite process_events, H0.
  rewrite (process_currentBeat _ _ _ _ _ _ _ _ H0 Hp).
  destruct (clockLoop_beats (length ch0) s Hlt) as [Hseq Hfin].
  split; [exact Hseq|]. split; [exact Hfin|].
  rewrite Hfin. apply Nat.mod_upper_bound. lia.
Qed.

Lemma X10_beats_go_round_the_bar_witness :
  currentBeat
    (onmessage 48000 (set_currentBeat 3 (newMainProcessor 48000))
       (SET_BPM 720000)).1 < 4 ∧
  hostOutputs 8 !! 0 = Some (replicate 8 0%float :: [replicate 8 0%float]) ∧
  beatsOf
    (process 48000 silentSin
       (onmessage 48000 (set_currentBeat 3 (newMainProcessor 48000))
          (SET_BPM 720000)).1
       (hostOutputs 8)).1
  = [3; 0].
Proof.
  set (s := (onmessage 48000 (set_currentBeat 3 (newMainProcessor 48000))
               (SET_BPM 720000)).1).
  assert (Hlt : currentBeat s < 4) by (cbn; lia).
  assert (Hp : (process 48000 silentSin s (hostOutputs 8)).2
               = Some (set_activeVoices [] (clockLoop 8 s).1, hostOutputs 8))
    by (vm_compute; reflexivity).
  split; [exact Hlt|]. split; [reflexivity|].
  pose proof (X10_beats_go_round_the_bar 48000 silentSin s _ (hostOutputs 8) _
                (replicate 8 0%float) [replicate 8 0%float] Hlt eq_refl Hp)
    as (Hseq & _).
  assert (Hn : length (beatsOf (process 48000 silentSin s (hostOutputs 8)).1)
               = 2) by (vm_compute; reflexivity).
  rewrite Hn in Hseq. exact Hseq.
Defined.

(** ** The metronome switch and the click *)

Lemma clockFrame_switch (b : bool) (s : MainProcessor) :
  clockFrame (set_isMetronomeEnabled b s)
  = (set_isMetronomeEnabled b (clockFrame s).1, (clockFrame s).2).
Proof.
  rewrite !clockFrame_eq. unfold beatFrame, tickFrame, triggerMetronome. cbn.
  destruct (PrimFloat.leb (PrimFloat.sub (nextClickCountdown s) 1) 0); cbn.
  - destruct (Nat.eqb (currentBeat s) 0); cbn;
      destruct (PrimFloat.leb (PrimFloat.sub (ticksUntilNextClock s) 1) 0);
      reflexivity.
  - destruct (PrimFloat.leb (PrimFloat.sub (ticksUntilNextClock s) 1) 0);
      reflexivity.
Qed.

Lemma clockLoop_switch (b : bool) (n : nat) :
  ∀ s : MainProcessor,
    clockLoop n (set_isMetronomeEnabled b s)
    = (set_isMetronomeEnabled b (clockLoop n s).1, (clockLoop n s).2).
Proof.
  induction n as [|k IH]; intros s; [reflexivity|].
  rewrite !clockLoop_S, clockFrame_switch. cbn [fst snd]. rewrite IH.
  reflexivity.
Qed.

Lemma beatFrame_restart (s : MainProcessor) :
  nextClickCountdown s = 0%float →
  currentBeat s = 0 →
  beatFrame s
  = (set_nextClickCountdown (samplesPerBeat s)
       (set_currentBeat 1
          (set_click 0.25 0.5
             (set_metronomePhase 3000 (set_nextClickCountdown (-1) s)))),
     [BEAT 0])%float.
Proof.
  intros Hc Hb. destruct s. cbn in Hc, Hb. subst.
  unfold beatFrame, triggerMetronome. cbn.
  change (PrimFloat.leb (PrimFloat.sub 0 1) 0) with true. reflexivity.
Qed.

Lemma clockFrame_restart (s : MainProcessor) :
  nextClickCountdown s = 0%float →
  currentBeat s = 0 →
  (clockFrame s).2 = BEAT 0 :: (tickFrame (beatFrame s).1).2 ∧
  metronomePhase (clockFrame s).1 = 3000%float ∧
  clickFreq (clockFrame s).1 = 0.25%float ∧
  clickAmp (clockFrame s).1 = 0.5%float ∧
  currentBeat (clockFrame s).1 = 1 ∧
  nextClickCountdown (clockFrame s).1 = samplesPerBeat s.
Proof.
  intros Hc Hb. rewrite clockFrame_eq. cbn [fst snd].
  destruct (tickFrame_frame (beatFrame s).1) as (_ & -> & -> & -> & -> & ->).
  rewrite (beatFrame_restart s Hc Hb). cbn [fst snd].
  repeat split.
Qed.

(** *** Runs that differ in the metronome switch *)

Ltac same_but_click H :=
  destruct H as (?&?&?&?&?&?&?&?&?&?&?&?).

Lemma sameButClick_refl (s : MainProcessor) : sameButClick s s.
Proof. repeat split. Qed.

Lemma sameButClick_sym (s t : MainProcessor) :
  sameButClick s t → sameButClick t s.
Proof. intros H. same_but_click H. repeat split; congruence. Qed.

Lemma sameButClick_trans (s t u : MainProcessor) :
  sameButClick s t → sameButClick t u → sameButClick s u.
Proof.
  intros H1 H2. same_but_click H1. same_but_click H2.
  repeat split; congruence.
Qed.

Lemma sameButClick_onmessage (sampleRate : float) (s t : MainProcessor)
    (msg : AudioMessage) :
  sameButClick s t →
  sameButClick (onmessage sampleRate s msg).1 (onmessage sampleRate t msg).1 ∧
  (onmessage sampleRate s msg).2 = (onmessage sampleRate t msg).2.
Proof.
  intros H. destruct s, t. same_but_click H. cbn in *. subst.
  destruct msg as [b|id buffers|id velocity|x|b|id group|].
  - cbn. split; [repeat split|reflexivity].
  - cbn. split; [repeat split|reflexivity].
  - cbn. unfold triggerVoice. cbn.
    destruct (_ !! id); cbn; (split; [repeat split|reflexivity]).
  - cbn. split; [repeat split|reflexivity].
  - destruct b; cbn; (split; [repeat split|reflexivity]).
  - cbn. split; [repeat split|reflexivity].
  - cbn. split; [repeat split|reflexivity].
Qed.

Lemma sameButClick_clockFrame (s t : MainProcessor) :
  sameButClick s t →
  sameButClick (clockFrame s).1 (clockFrame t).1 ∧
  (clockFrame s).2 = (clockFrame t).2.
Proof.
  intros H. destruct s, t. same_but_click H. cbn in *. subst.
  unfold clockFrame, beatFrame, tickFrame, triggerMetronome. cbn.
  destruct (PrimFloat.leb (PrimFloat.sub _ 1) 0); cbn.
  - destruct (_ =? 0); cbn;
      destruct (PrimFloat.leb (PrimFloat.sub _ 1) 0); cbn;
      split; try reflexivity; repeat split.
  - destruct (PrimFloat.leb (PrimFloat.sub _ 1) 0); cbn;
      split; try reflexivity; repeat split.
Qed.

Lemma sameButClick_clockLoop (n : nat) :
  ∀ s t : MainProcessor,
    sameButClick s t →
    sameButClick (clockLoop n s).1 (clockLoop n t).1 ∧
    (clockLoop n s).2 = (clockLoop n t).2.
Proof.
  induction n as [|k IH]; intros s t H; [split; [exact H|reflexivity]|].
  rewrite !clockLoop_S. cbn [fst snd].
  destruct (sameButClick_clockFrame s t H) as [H1 E1].
  destruct (IH _ _ H1) as [H2 E2].
  split; [exact H2|]. rewrite E1, E2. reflexivity.
Qed.

Lemma sameButClick_metronomeStage (Math_sin : float → float) (n : nat)
    (s : MainProcessor) (outputs : list (list (list float))) :
  sameButClick s (metronomeStage Math_sin n s outputs).1.
Proof. rewrite metronomeStage_fields. destruct s. repeat split. Qed.

(** The phase of the test tone after a block is a function of the phase
    before it, not of what the outputs hold. *)
Lemma toneLoop_phase (sampleRate : float) (Math_sin : float → float)
    (frames : nat) :
  ∀ (i j : nat) (s t : MainProcessor)
    (outs1 outs2 : list (list (list float))),
    phase t = phase s →
    phase (toneLoop sampleRate Math_sin frames j t outs2).1
    = phase (toneLoop sampleRate Math_sin frames i s outs1).1.
Proof.
  induction frames as [|k IH]; intros i j s t outs1 outs2 H; cbn [toneLoop].
  - exact H.
  - cbv zeta. apply IH. cbn [phase set_phase]. rewrite H. reflexivity.
Qed.

Lemma sameButClick_toneStage (sampleRate : float) (Math_sin : float → float)
    (n : nat) (s t : MainProcessor)
    (outs1 outs2 : list (list (list float))) :
  sameButClick s t →
  sameButClick (toneStage sampleRate Math_sin n s outs1).1
    (toneStage sampleRate Math_sin n t outs2).1.
Proof.
  intros H.
  assert (Hp : phase (toneStage sampleRate Math_sin n t outs2).1
               = phase (toneStage sampleRate Math_sin n s outs1).1).
  { unfold toneStage. same_but_click H.
    replace (isTonePlaying t) with (isTonePlaying s) by congruence.
    destruct (isTonePlaying s); [|assumption].
    apply toneLoop_phase. assumption. }
  rewrite (toneStage_fields _ _ _ s), (toneStage_fields _ _ _ t), Hp.
  destruct s, t. same_but_click H. cbn in *. subst. repeat split.
Qed.

(** The voice the frame loop leaves, and whether it raises a TypeError,
    do not depend on what the outputs hold. *)
Lemma voiceLoop_voice_only (buffer : list (list float)) (vis1 vis2 : bool)
    (frames : nat) :
  ∀ (i : nat) (voice : SampleVoice) (outs1 outs2 : list (list (list float))),
    (vis1 = true → visOutputPresent outs1 (visSlot voice + 1) = true) →
    (vis2 = true → visOutputPresent outs2 (visSlot voice + 1) = true) →
    fst <$> voiceLoop buffer vis1 frames i voice outs1
    = fst <$> voiceLoop buffer vis2 frames i voice outs2.
Proof.
  induction frames as [|k IH]; intros i voice outs1 outs2 Hv1 Hv2;
    cbn [voiceLoop]; [reflexivity|].
  destruct (isPlaying voice); [|reflexivity].
  destruct buffer as [|b0 bs]; [reflexivity|].
  destruct (voiceFrame_is_Some b0 bs vis1 i voice outs1 Hv1) as [[v1 o1] E1].
  destruct (voiceFrame_is_Some b0 bs vis2 i voice outs2 Hv2) as [[v2 o2] E2].
  rewrite E1, E2. simpl.
  destruct (voiceFrame_Some _ _ _ _ _ _ _ _ E1) as (-> & _ & _ & _ & P1).
  destruct (voiceFrame_Some _ _ _ _ _ _ _ _ E2) as (-> & _ & _ & _ & P2).
  apply IH.
  - intros Hv. rewrite advance_visSlot, P1. apply Hv1, Hv.
  - intros Hv. rewrite advance_visSlot, P2. apply Hv2, Hv.
Qed.

Lemma renderVoice_voice_only (buffers : gmap string (list (list float)))
    (bufferSize : nat) (voice : SampleVoice)
    (outs1 outs2 : list (list (list float))) :
  fst <$> renderVoice buffers bufferSize voice outs1
  = fst <$> renderVoice buffers bufferSize voice outs2.
Proof.
  unfold renderVoice.
  destruct (buffers !! sampleId voice) as [buffer|]; [|reflexivity].
  pose proof (voiceLoop_voice_only buffer
                (visOutputPresent outs1 (visSlot voice + 1))
                (visOutputPresent outs2 (visSlot voice + 1))
                bufferSize 0 voice outs1 outs2 (fun e => e) (fun e => e))
    as Hv.
  destruct (voiceLoop buffer _ bufferSize 0 voice outs1) as [[v1 o1]|],
           (voiceLoop buffer _ bufferSize 0 voice outs2) as [[v2 o2]|];
    simpl in *; try discriminate; [|reflexivity].
  injection Hv as ->. reflexivity.
Qed.

Lemma renderVoices_voices_only (buffers : gmap string (list (list float)))
    (bufferSize : nat) (voices : list SampleVoice) :
  ∀ outs1 outs2 : list (list (list float)),
    fst <$> renderVoices buffers bufferSize voices outs1
    = fst <$> renderVoices buffers bufferSize voices outs2.
Proof.
  induction voices as [|voice rest IH]; intros outs1 outs2;
    cbn [renderVoices]; [reflexivity|].
  specialize (IH outs1 outs2).
  destruct (renderVoices buffers bufferSize rest outs1) as [[r1 o1]|],
           (renderVoices buffers bufferSize rest outs2) as [[r2 o2]|];
    simpl in *; try discriminate; [|reflexivity].
  injection IH as ->.
  pose proof (renderVoice_voice_only buffers bufferSize voice o1 o2) as Hv.
  destruct (renderVoice buffers bufferSize voice o1) as [[v1 p1]|],
           (renderVoice buffers bufferSize voice o2) as [[v2 p2]|];
    simpl in *; try discriminate; [|reflexivity].
  injection Hv as ->. reflexivity.
Qed.

(** A block on two such processors: the same events, and either both calls
    raise a TypeError or both return, with processors that again differ at
    most in the switch and the envelope. *)
Lemma sameButClick_process (sampleRate : float) (Math_sin : float → float)
    (s t : MainProcessor) (outputs : list (list (list float))) :
  sameButClick s t →
  (process sampleRate Math_sin s outputs).1
  = (process sampleRate Math_sin t outputs).1 ∧
  match (process sampleRate Math_sin s outputs).2,
        (process sampleRate Math_sin t outputs).2 with
  | Some (s', _), Some (t', _) => sameButClick s' t'
  | None, None => True
  | _, _ => False
  end.
Proof.
  intros H.
  destruct (outputs !! 0) as [[|ch0 chs]|] eqn:E0;
    try (unfold process; rewrite E0; split; [reflexivity|exact H]).
  rewrite !(process_stages _ _ _ _ _ _ E0). cbv zeta. cbn [fst snd].
  destruct (sameButClick_clockLoop (length ch0) s t H) as [Hc Ec].
  split; [exact Ec|].
  set (ms := metronomeStage Math_sin (length ch0) (clockLoop (length ch0) s).1
               (clearOutputs outputs)).
  set (mt := metronomeStage Math_sin (length ch0) (clockLoop (length ch0) t).1
               (clearOutputs outputs)).
  assert (Hm : sameButClick ms.1 mt.1).
  { eapply sameButClick_trans;
      [apply sameButClick_sym, sameButClick_metronomeStage|].
    eapply sameButClick_trans; [exact Hc|].
    apply sameButClick_metronomeStage. }
  pose proof (sameButClick_toneStage sampleRate Math_sin (length ch0)
                ms.1 mt.1 ms.2 mt.2 Hm) as Ht.
  set (ts := toneStage sampleRate Math_sin (length ch0) ms.1 ms.2) in *.
  set (tt := toneStage sampleRate Math_sin (length ch0) mt.1 mt.2) in *.
  assert (Hb : sampleBuffers tt.1 = sampleBuffers ts.1) by apply Ht.
  assert (Hv : activeVoices tt.1 = activeVoices ts.1) by apply Ht.
  rewrite Hb, Hv.
  pose proof (renderVoices_voices_only (sampleBuffers ts.1) (length ch0)
                (activeVoices ts.1) ts.2 tt.2) as Hr.
  destruct (renderVoices _ _ _ ts.2) as [[v1 o1]|],
           (renderVoices _ _ _ tt.2) as [[v2 o2]|];
    simpl in *; try discriminate; [|exact I].
  injection Hr as ->.
  destruct ts.1, tt.1. same_but_click Ht. cbn in *. subst. repeat split.
Qed.

Lemma sameButClick_run (sampleRate : float) (Math_sin : float → float)
    (steps : list Step) :
  ∀ s t : MainProcessor,
    sameButClick s t →
    (run sampleRate Math_sin s steps).1 = (run sampleRate Math_sin t steps).1 ∧
    match (run sampleRate Math_sin s steps).2,
          (run sampleRate Math_sin t steps).2 with
    | Some s', Some t' => sameButClick s' t'
    | None, None => True
    | _, _ => False
    end.
Proof.
  induction steps as [|[msg|outputs] rest IH]; intros s t H; cbn [run].
  - split; [reflexivity|exact H].
  - destruct (sameButClick_onmessage sampleRate s t msg H) as [H1 E1].
    destruct (onmessage sampleRate s msg) as [s1 e1],
             (onmessage sampleRate t msg) as [t1 f1].
    cbn [fst snd] in *. subst f1.
    specialize (IH s1 t1 H1).
    destruct (run sampleRate Math_sin s1 rest) as [e2 r2],
             (run sampleRate Math_sin t1 rest) as [f2 q2].
    cbn [fst snd] in *. destruct IH as [-> IH]. split; [reflexivity|exact IH].
  - destruct (sameButClick_process sampleRate Math_sin s t outputs H)
      as [E1 H1].
    destruct (process sampleRate Math_sin s outputs) as [e1 [[s1 o1]|]],
             (process sampleRate Math_sin t outputs) as [f1 [[t1 p1]|]];
      cbn [fst snd] in *; subst f1; try contradiction.
    + specialize (IH s1 t1 H1).
      destruct (run sampleRate Math_sin s1 rest) as [e2 r2],
               (run sampleRate Math_sin t1 rest) as [f2 q2].
      cbn [fst snd] in *. destruct IH as [-> IH].
      split; [reflexivity|exact IH].
    + split; [reflexivity|exact I].
Qed.

(** X11. Switching the metronome on restarts the bar: whatever the
    processor was doing, the first frame of the next block posts BEAT 0,
    loads the envelope of a strong click and reloads the beat countdown
    with samples-per-beat.  Switching it off changes the switch and
    nothing else: the clock goes on, and a block posts the events it would
    have posted with the switch left alone.  So does every later block:
    however messages and blocks follow the command, the events posted are
    the ones posted without it, and the processor stops on a TypeError
    exactly when it would have without it. *)
Theorem X11_metronome_switch (sampleRate : float) (Math_sin : float → float)
    (s : MainProcessor) :
  (let t := (onmessage sampleRate s (TOGGLE_METRONOME true)).1 in
   isMetronomeEnabled t = true ∧
   metronomePhase (clockFrame t).1 = 3000%float ∧
   clickFreq (clockFrame t).1 = 0.25%float ∧
   clickAmp (clockFrame t).1 = 0.5%float ∧
   currentBeat (clockFrame t).1 = 1 ∧
   nextClickCountdown (clockFrame t).1 = samplesPerBeat s ∧
   ∀ (x : float) (ch0 : list float) (chs : list (list float))
     (rest : list (list (list float))),
     ∃ events,
       (process sampleRate Math_sin t (((x :: ch0) :: chs) :: rest)).1
       = BEAT 0 :: events) ∧
  (let t := (onmessage sampleRate s (TOGGLE_METRONOME false)).1 in
   t = set_isMetronomeEnabled false s ∧
   (∀ outputs : list (list (list float)),
      (process sampleRate Math_sin t outputs).1
      = (process sampleRate Math_sin s outputs).1) ∧
   ∀ steps : list Step,
     (run sampleRate Math_sin t steps).1
     = (run sampleRate Math_sin s steps).1 ∧
     (is_Some (run sampleRate Math_sin t steps).2
      ↔ is_Some (run sampleRate Math_sin s steps).2)).
Proof.
  split.
  - cbv zeta.
    destruct (clockFrame_restart
                (onmessage sampleRate s (TOGGLE_METRONOME true)).1
                eq_refl eq_refl) as (He & H1 & H2 & H3 & H4 & H5).
    split; [reflexivity|].
    split; [exact H1|]. split; [exact H2|]. split; [exact H3|].
    split; [exact H4|]. split; [exact H5|].
    intros x ch0 chs rest. rewrite process_events.
    change ((((x :: ch0) :: chs) :: rest) !! 0) with (Some ((x :: ch0) :: chs)).
    cbv beta iota. change (length (x :: ch0)) with (S (length ch0)).
    rewrite clockLoop_S. cbn [snd]. rewrite He. eexists. reflexivity.
  - cbv zeta. split; [reflexivity|]. split.
    + intros outputs. rewrite !process_events.
      destruct (outputs !! 0) as [[|ch0 chs]|]; try reflexivity.
      change (onmessage sampleRate s (TOGGLE_METRONOME false)).1
        with (set_isMetronomeEnabled false s).
      rewrite clockLoop_switch. reflexivity.
    + intros steps.
      assert (H : sameButClick (onmessage sampleRate s
                                  (TOGGLE_METRONOME false)).1 s)
        by (destruct s; repeat split).
      destruct (sameButClick_run sampleRate Math_sin steps _ _ H) as [E R].
      split; [exact E|].
      destruct (run sampleRate Math_sin _ steps).2,
               (run sampleRate Math_sin s steps).2;
        try contradiction; split; intros [? ?]; eauto; discriminate.
Qed.

Lemma metronomeLoop_envelope (Math_sin : float → float) (frames : nat) :
  ∀ (i : nat) (s : MainProcessor) (outputs : list (list (list float))),
    metronomePhase (metronomeLoop Math_sin frames i s outputs).1
    = envelopeAfter frames (metronomePhase s).
Proof.
  induction frames as [|k IH]; intros i s outputs;
    cbn [metronomeLoop envelopeAfter]; [reflexivity|].
  destruct (PrimFloat.ltb 0 (metronomePhase s)); [|reflexivity].
  rewrite IH. reflexivity.
Qed.

Lemma metronomeLoop_over (Math_sin : float → float) (frames i : nat)
    (s : MainProcessor) (outputs : list (list (list float))) :
  PrimFloat.ltb 0 (metronomePhase s) = false →
  metronomeLoop Math_sin frames i s outputs = (s, outputs).
Proof.
  intros H. destruct frames; cbn [metronomeLoop]; [reflexivity|].
  rewrite H. reflexivity.
Qed.

Lemma metronomeLoop_add (Math_sin : float → float) (a b : nat) :
  ∀ (i : nat) (s : MainProcessor) (outputs : list (list (list float))),
    metronomeLoop Math_sin (a + b) i s outputs
    = metronomeLoop Math_sin b (i + a)
        (metronomeLoop Math_sin a i s outputs).1
        (metronomeLoop Math_sin a i s outputs).2.
Proof.
  induction a as [|a IH]; intros i s outputs.
  - cbn [Nat.add metronomeLoop fst snd]. rewrite Nat.add_0_r. reflexivity.
  - cbn [Nat.add metronomeLoop].
    destruct (PrimFloat.ltb 0 (metronomePhase s)) eqn:E.
    + rewrite IH. replace (S i + a) with (i + S a) by lia. reflexivity.
    + cbn [fst snd]. symmetry. apply metronomeLoop_over, E.
Qed.

Lemma envelopeAfter_over (frames : nat) (p : float) :
  PrimFloat.ltb 0 p = false → envelopeAfter frames p = p.
Proof.
  intros H. destruct frames; cbn [envelopeAfter]; [reflexivity|].
  rewrite H. reflexivity.
Qed.

Lemma envelopeAfter_add (a b : nat) :
  ∀ p : float, envelopeAfter (a + b) p = envelopeAfter b (envelopeAfter a p).
Proof.
  induction a as [|a IH]; intros p; [reflexivity|].
  cbn [Nat.add envelopeAfter].
  destruct (PrimFloat.ltb 0 p) eqn:E; [apply IH|].
  symmetry. apply envelopeAfter_over, E.
Qed.

Lemma mixAdd_frameAt (i : nat) (x : float) (outs : list (list (list float)))
    (ch t : nat) :
  frameAt (mixAdd i x outs) 0 ch t
  = (fun y => if decide (t = i) then fround (PrimFloat.add y x) else y)
    <$> frameAt outs 0 ch t.
Proof.
  unfold frameAt, mixAdd. rewrite list_lookup_alter.
  destruct (outs !! 0) as [mix|]; [|reflexivity]. simpl.
  rewrite list_lookup_fmap. destruct (mix !! ch) as [arr|]; [|reflexivity].
  simpl. apply accumulate_lookup.
Qed.

(** What the click loop leaves in a frame of the mix: frame [t] of the
    frames it is given gets the click sample added for as long as the
    envelope is above 0, and every other frame is left as it was. *)
Lemma metronomeLoop_frameAt (Math_sin : float → float) (frames : nat) :
  ∀ (i : nat) (s : MainProcessor) (outs : list (list (list float)))
    (ch t : nat),
    frameAt (metronomeLoop Math_sin frames i s outs).2 0 ch t
    = (fun y =>
         if decide (i ≤ t < i + frames)
         then if PrimFloat.ltb 0 (envelopeAfter (t - i) (metronomePhase s))
              then fround
                     (PrimFloat.add y
                        (PrimFloat.mul
                           (Math_sin
                              (PrimFloat.mul
                                 (envelopeAfter (t - i) (metronomePhase s))
                                 (clickFreq s)))
                           (clickAmp s)))
              else y
         else y) <$> frameAt outs 0 ch t.
Proof.
  induction frames as [|k IH]; intros i s outs ch t; cbn [metronomeLoop].
  - cbn [snd]. destruct (frameAt outs 0 ch t) as [y|]; [|reflexivity].
    simpl. rewrite decide_False by lia. reflexivity.
  - destruct (PrimFloat.ltb 0 (metronomePhase s)) eqn:E.
    + rewrite IH, mixAdd_frameAt.
      destruct (frameAt outs 0 ch t) as [y|]; [|reflexivity].
      cbn [fmap option_fmap option_map]. f_equal.
      cbn [metronomePhase clickFreq clickAmp set_metronomePhase].
      destruct (decide (t = i)) as [->|Hne].
      * rewrite decide_False by lia. rewrite decide_True by lia.
        rewrite Nat.sub_diag. cbn [envelopeAfter]. rewrite E. reflexivity.
      * destruct (decide (S i ≤ t < S i + k)) as [Hin|Hout].
        -- rewrite decide_True by lia.
           replace (t - i) with (S (t - S i)) by lia.
           cbn [envelopeAfter]. rewrite E. reflexivity.
        -- rewrite decide_False by lia. reflexivity.
    + cbn [snd]. destruct (frameAt outs 0 ch t) as [y|]; [|reflexivity].
      cbn [fmap option_fmap option_map]. f_equal.
      destruct (decide (i ≤ t < i + S k)); [|reflexivity].
      rewrite envelopeAfter_over, E by exact E. reflexivity.
Qed.

(** X12. A click is 200 frames long.  With the metronome on and the
    envelope just loaded by a beat (3000), the click loop writes each of
    the first 200 frames it is given and none after: a block of 200 frames
    or more is rendered as one of 200, the envelope is then 0, and after
    fewer frames it is still above 0, so that the click goes on in the
    next block.  In the mix, frame t of the block, for t below 200, gets
    the click sample sin(envelope * clickFreq) * clickAmp added on every
    channel, the envelope of frame t being 3000 - 15 t; the frames from 200
    on, the frames beyond the block and the visualization outputs are left
    as they were. *)
Theorem X12_click_is_200_frames (Math_sin : float → float)
    (s : MainProcessor) (outputs : list (list (list float))) :
  isMetronomeEnabled s = true →
  metronomePhase s = 3000%float →
  (∀ n : nat,
     metronomeStage Math_sin (200 + n) s outputs
     = metronomeStage Math_sin 200 s outputs) ∧
  metronomePhase (metronomeStage Math_sin 200 s outputs).1 = 0%float ∧
  (∀ k : nat,
     k < 200 →
     PrimFloat.ltb 0 (metronomePhase (metronomeStage Math_sin k s outputs).1)
     = true) ∧
  (∀ a b : nat,
     metronomeStage Math_sin (a + b) s outputs
     = metronomeLoop Math_sin b a
         (metronomeStage Math_sin a s outputs).1
         (metronomeStage Math_sin a s outputs).2) ∧
  (∀ (n ch t : nat) (y : float),
     t < n → t < 200 →
     frameAt outputs 0 ch t = Some y →
     frameAt (metronomeStage Math_sin n s outputs).2 0 ch t
     = Some (fround
               (PrimFloat.add y
                  (PrimFloat.mul
                     (Math_sin
                        (PrimFloat.mul
                           (PrimFloat.sub 3000
                              (PrimFloat.mul 15 (Number_of_nat t)))
                           (clickFreq s)))
                     (clickAmp s))))) ∧
  (∀ n ch t : nat,
     n ≤ t ∨ 200 ≤ t →
     frameAt (metronomeStage Math_sin n s outputs).2 0 ch t
     = frameAt outputs 0 ch t) ∧
  (∀ n j : nat,
     j ≠ 0 → (metronomeStage Math_sin n s outputs).2 !! j = outputs !! j).
Proof.
  intros He Hp.
  assert (Hst : ∀ n, metronomeStage Math_sin n s outputs
                     = metronomeLoop Math_sin n 0 s outputs).
  { intros n. unfold metronomeStage. rewrite He, Hp. reflexivity. }
  assert (H200 : metronomePhase (metronomeLoop Math_sin 200 0 s outputs).1
                 = 0%float).
  { rewrite metronomeLoop_envelope, Hp. vm_compute. reflexivity. }
  assert (Hlin : ∀ t, t ≤ 200 →
                      envelopeAfter t 3000
                      = PrimFloat.sub 3000
                          (PrimFloat.mul 15 (Number_of_nat t))).
  { intros t Ht.
    assert (Hall : forallb
                     (fun j =>
                        PrimFloat.Leibniz.eqb (envelopeAfter j 3000)
                          (PrimFloat.sub 3000
                             (PrimFloat.mul 15 (Number_of_nat j))))
                     (seq 0 201) = true) by (vm_compute; reflexivity).
    rewrite forallb_forall in Hall.
    apply FloatAxioms.Leibniz.eqb_spec, Hall, in_seq. lia. }
  assert (Hpos : ∀ t, t < 200 → PrimFloat.ltb 0 (envelopeAfter t 3000) = true).
  { intros t Ht.
    assert (Hall : forallb (fun j => PrimFloat.ltb 0 (envelopeAfter j 3000))
                     (seq 0 200) = true) by (vm_compute; reflexivity).
    rewrite forallb_forall in Hall. apply Hall. apply in_seq. lia. }
  assert (Hend : ∀ t, 200 ≤ t →
                      PrimFloat.ltb 0 (envelopeAfter t 3000) = false).
  { intros t Ht. replace t with (200 + (t - 200)) by lia.
    rewrite envelopeAfter_add.
    assert (H0 : envelopeAfter 200 3000 = 0%float) by (vm_compute; reflexivity).
    rewrite H0, envelopeAfter_over by reflexivity. reflexivity. }
  split; [|split; [|split; [|split; [|split; [|split]]]]].
  - intros n. rewrite !Hst, metronomeLoop_add.
    rewrite metronomeLoop_over by (rewrite H200; reflexivity).
    destruct (metronomeLoop Math_sin 200 0 s outputs). reflexivity.
  - rewrite Hst. exact H200.
  - intros k Hk. rewrite Hst, metronomeLoop_envelope, Hp.
    assert (Hall : forallb (fun j => PrimFloat.ltb 0 (envelopeAfter j 3000))
                     (seq 0 200) = true) by (vm_compute; reflexivity).
    rewrite forallb_forall in Hall. apply Hall. apply in_seq. lia.
  - intros a b. rewrite !Hst. apply metronomeLoop_add.
  - intros n ch t y Hn Ht Hy.
    rewrite Hst, metronomeLoop_frameAt, Hy, Hp.
    cbn [fmap option_fmap option_map].
    rewrite decide_True by lia. rewrite Nat.sub_0_r.
    rewrite (Hpos t Ht), (Hlin t) by lia. reflexivity.
  - intros n ch t Ht.
    rewrite Hst, metronomeLoop_frameAt, Hp.
    destruct (frameAt outputs 0 ch t) as [y|]; [|reflexivity].
    cbn [fmap option_fmap option_map]. f_equal.
    destruct (decide (0 ≤ t < 0 + n)) as [Hin|]; [|reflexivity].
    rewrite Nat.sub_0_r, Hend by lia. reflexivity.
  - intros n j Hj. apply metronomeStage_outputs, Hj.
Qed.

Lemma X12_click_is_200_frames_witness :
  isMetronomeEnabled
    (clockFrame (onmessage 48000 (newMainProcessor 48000)
                   (TOGGLE_METRONOME true)).1).1 = true ∧
  metronomePhase
    (clockFrame (onmessage 48000 (newMainProcessor 48000)
                   (TOGGLE_METRONOME true)).1).1 = 3000%float ∧
  metronomePhase
    (metronomeStage silentSin 200
       (clockFrame (onmessage 48000 (newMainProcessor 48000)
                      (TOGGLE_METRONOME true)).1).1
       (hostOutputs 256)).1 = 0%float.
Proof.
  assert (He : isMetronomeEnabled
                 (clockFrame (onmessage 48000 (newMainProcessor 48000)
                                (TOGGLE_METRONOME true)).1).1 = true)
    by (vm_compute; reflexivity).
  assert (Hp : metronomePhase
                 (clockFrame (onmessage 48000 (newMainProcessor 48000)
                                (TOGGLE_METRONOME true)).1).1 = 3000%float)
    by (vm_compute; reflexivity).
  split; [exact He|]. split; [exact Hp|].
  exact (proj1 (proj2 (X12_click_is_200_frames silentSin _ (hostOutputs 256)
                         He Hp))).
Defined.

(** * The page *)

(** ** The pad tables *)

Lemma foldl_insert_lookup_None {A : Type} (f : A → nat) (g : A → string)
    (l : list A) (m0 : gmap nat string) (k : nat) :
  m0 !! k = None → k ∉ f <$> l →
  foldl (fun m p => <[f p := g p]> m) m0 l !! k = None.
Proof.
  revert m0. induction l as [|p l IH]; intros m0 H0 Hk; [exact H0|].
  cbn [foldl]. apply IH.
  - rewrite lookup_insert_ne; [exact H0|].
    intros E. apply Hk. rewrite <- E. left.
  - intros Hin. apply Hk. right. exact Hin.
Qed.

Lemma MIDI_TO_PAD_lookup (note : nat) :
  Page.MIDI_TO_PAD !! note
  = if (48 <=? note) && (note <=? 63) then Some (padName (note - 47))
    else None.
Proof.
  destruct (decide (note < 64)) as [Hlt|Hge].
  - do 64 (destruct note as [|note]; [vm_compute; reflexivity|]). lia.
  - replace ((48 <=? note) && (note <=? 63)) with false
      by (symmetry; apply andb_false_iff; right; apply Nat.leb_gt; lia).
    apply foldl_insert_lookup_None; [reflexivity|].
    intros Hin.
    assert (HF : Forall (fun x => x < 64) (Page.midi <$> Page.PAD_CONFIG))
      by (vm_compute; repeat constructor).
    rewrite Forall_forall in HF. specialize (HF _ Hin). lia.
Qed.

Lemma foldl_key_lookup_None (l : list Page.PadConfig)
    (m0 : gmap string string) (k : string) :
  m0 !! k = None → k ∉ Page.key <$> l →
  foldl (fun m p =>
           match Page.key p with
           | EmptyString => m
           | _ => <[Page.key p := Page.id p]> m
           end) m0 l !! k = None.
Proof.
  revert m0. induction l as [|p l IH]; intros m0 H0 Hk; [exact H0|].
  cbn [foldl]. apply IH.
  - destruct (Page.key p) as [|c r] eqn:E; [exact H0|].
    rewrite lookup_insert_ne; [exact H0|].
    intros E'. apply Hk. rewrite <- E', <- E. left.
  - intros Hin. apply Hk. right. exact Hin.
Qed.

Lemma KEY_TO_PAD_lookup (key : string) :
  Page.KEY_TO_PAD !! key
  = if String.eqb key "z" then Some (padName 1)
    else if String.eqb key "x" then Some (padName 2)
    else if String.eqb key "c" then Some (padName 3)
    else if String.eqb key "v" then Some (padName 4)
    else None.
Proof.
  destruct (String.eqb_spec key "z") as [->|Hz]; [vm_compute; reflexivity|].
  destruct (String.eqb_spec key "x") as [->|Hx]; [vm_compute; reflexivity|].
  destruct (String.eqb_spec key "c") as [->|Hc]; [vm_compute; reflexivity|].
  destruct (String.eqb_spec key "v") as [->|Hv]; [vm_compute; reflexivity|].
  destruct (String.eqb_spec key EmptyString) as [->|He];
    [vm_compute; reflexivity|].
  apply foldl_key_lookup_None; [reflexivity|].
  intros Hin.
  assert (HF : Forall (fun x => x ∈ [EmptyString; "z"; "x"; "c"; "v"]%string)
                 (Page.key <$> Page.PAD_CONFIG))
    by (vm_compute; repeat constructor).
  rewrite Forall_forall in HF. specialize (HF _ Hin).
  rewrite !elem_of_cons, elem_of_nil in HF. tauto.
Qed.

(** X13. The pad tables the two loops build.  There are 16 pads.  A MIDI
    note has a pad exactly when it is one of 48..63, and note 48 + k is
    pad k + 1, whose visualization slot in the worklet is k.  The key table
    gets four entries: z, x, c and v, for pads 1 to 4.  No pad has an
    empty identifier. *)
Theorem X13_pad_tables (note : nat) (key : string) :
  length Page.PAD_CONFIG = 16 ∧
  Page.MIDI_TO_PAD !! note
  = (if (48 <=? note) && (note <=? 63) then Some (padName (note - 47))
     else None) ∧
  (∀ padId : string,
     Page.MIDI_TO_PAD !! note = Some padId →
     padId ≠ EmptyString ∧ note = 48 + padSlot padId) ∧
  Page.KEY_TO_PAD !! key
  = (if String.eqb key "z" then Some (padName 1)
     else if String.eqb key "x" then Some (padName 2)
     else if String.eqb key "c" then Some (padName 3)
     else if String.eqb key "v" then Some (padName 4)
     else None) ∧
  Forall (fun p => Page.midi p = 48 + padSlot (Page.id p) ∧
                   Page.id p = padName (padSlot (Page.id p) + 1))
    Page.PAD_CONFIG.
Proof.
  split; [reflexivity|].
  split; [apply MIDI_TO_PAD_lookup|].
  split.
  - intros padId. rewrite MIDI_TO_PAD_lookup.
    destruct ((48 <=? note) && (note <=? 63)) eqn:E; [|discriminate].
    apply andb_true_iff in E as [H1 H2].
    apply Nat.leb_le in H1, H2. intros [= <-].
    rewrite padSlot_padName by lia. split; [discriminate|lia].
  - split; [apply KEY_TO_PAD_lookup|].
    assert (Hall : forallb
                     (fun p =>
                        (Page.midi p =? 48 + padSlot (Page.id p))
                        && String.eqb (Page.id p)
                             (padName (padSlot (Page.id p) + 1)))
                     Page.PAD_CONFIG = true) by (vm_compute; reflexivity).
    rewrite forallb_forall in Hall. apply Forall_forall. intros p Hp.
    apply list_elem_of_In, Hall, andb_true_iff in Hp as [H1 H2].
    apply Nat.eqb_eq in H1. apply String.eqb_eq in H2. split; assumption.
Qed.

(** ** MIDI input *)

Lemma status_mask (status : nat) :
  status < 256 → Nat.land status 240 = 16 * (status / 16).
Proof.
  intros H.
  do 256 (destruct status as [|status]; [vm_compute; reflexivity|]). lia.
Qed.

Lemma onMidiMessage_channel (Math_round : float → float)
    (m : Midi.MidiManager) (status byte1 byte2 : nat) (more : list nat)
    (now : float) :
  128 ≤ status < 240 →
  Midi.onMidiMessage Math_round m (status :: byte1 :: byte2 :: more) now
  = (m,
     if (status / 16 =? 9) && (0 <? byte2)
     then if Midi.noteOnCallback m then [Midi.NoteOn byte1 byte2] else []
     else if status / 16 =? 11
     then if Midi.ccCallback m then [Midi.Cc byte1 byte2] else []
     else []).
Proof.
  intros H. unfold Midi.onMidiMessage.
  rewrite (proj2 (Nat.eqb_neq status 248)) by lia.
  rewrite (proj2 (Nat.eqb_neq status 250)) by lia.
  rewrite (proj2 (Nat.eqb_neq status 251)) by lia.
  rewrite (proj2 (Nat.eqb_neq status 252)) by lia.
  cbn [orb].
  replace (length (status :: byte1 :: byte2 :: more) <? 3) with false
    by (symmetry; apply Nat.ltb_ge; cbn [length]; lia).
  cbv zeta. rewrite status_mask by lia.
  change (nth 1 (status :: byte1 :: byte2 :: more) 0) with byte1.
  change (nth 2 (status :: byte1 :: byte2 :: more) 0) with byte2.
  assert (Hq : status / 16 < 16) by (apply Nat.Div0.div_lt_upper_bound; lia).
  destruct (Nat.eqb_spec (status / 16) 9) as [E9|N9].
  - rewrite E9. change (16 * 9 =? 144) with true.
    change (16 * 9 =? 128) with false. change (16 * 9 =? 176) with false.
    cbn [andb orb].
    destruct byte2 as [|v]; reflexivity.
  - rewrite (proj2 (Nat.eqb_neq (16 * (status / 16)) 144)) by lia.
    cbn [andb orb].
    destruct (Nat.eqb_spec (status / 16) 11) as [E11|N11].
    + rewrite E11. reflexivity.
    + rewrite (proj2 (Nat.eqb_neq (16 * (status / 16)) 176)) by lia.
      destruct (16 * (status / 16) =? 128); reflexivity.
Qed.

(** X14. A note-on from a MIDI device, on any of the 16 channels, reaches
    the worklet as one PLAY_SAMPLE exactly when the note is one of 48..63,
    its velocity is above 0, and the page is initialised with its audio
    worklet and its note-on callback; nothing is posted otherwise.  The
    command is for pad note - 47 with velocity / 127, and when that pad has
    a sample the worklet appends a voice of that gain at cursor 0 in slot
    note - 48. *)
Theorem X14_midi_note_on_starts_a_pad (sampleRate : float)
    (Math_round : float → float) (page : Page.Page) (m : Midi.MidiManager)
    (s : MainProcessor) (ch note velocity : nat) (more : list nat)
    (now : float) :
  ch < 16 →
  let padId := padName (note - 47) in
  let gain := PrimFloat.div (Number_of_nat velocity) 127 in
  Page.onmidimessage Math_round page m
    ((144 + ch) :: note :: velocity :: more) now
  = (m,
     if (48 <=? note) && (note <=? 63) && (0 <? velocity)
        && Midi.noteOnCallback m && Page.isInitialized page
        && Page.workletNode page
     then [PLAY_SAMPLE padId (Some gain)]
     else []) ∧
  (48 ≤ note ≤ 63 →
   is_Some (sampleBuffers s !! padId) →
   activeVoices (onmessage sampleRate s (PLAY_SAMPLE padId (Some gain))).1
   = match chokeGroups s !! padId with
     | Some group => choke (chokeGroups s) group <$> activeVoices s
     | None => activeVoices s
     end ++ [mkVoice padId 0 true gain (note - 48)]).
Proof.
  intros Hch. cbv zeta. split.
  - unfold Page.onmidimessage.
    rewrite onMidiMessage_channel by lia.
    replace ((144 + ch) / 16) with 9
      by (apply Nat.div_unique with ch; lia).
    change (9 =? 9) with true. cbn [andb].
    destruct (0 <? velocity); [|rewrite !andb_false_r; reflexivity].
    destruct (Midi.noteOnCallback m);
      [|rewrite ?andb_false_r; reflexivity].
    rewrite !andb_true_r. cbn [mbind list_bind app].
    unfold Page.handleMidiNote. rewrite MIDI_TO_PAD_lookup.
    destruct ((48 <=? note) && (note <=? 63)) eqn:E; [|reflexivity].
    apply andb_true_iff in E as [H1 H2]. apply Nat.leb_le in H1, H2.
    assert (Hn : ∃ c r, padName (note - 47) = String c r).
    { unfold padName. cbn. eauto. }
    destruct Hn as (c & r & ->).
    unfold Page.triggerVoice, Audio.playSample. cbn [default].
    destruct (Page.isInitialized page); [|reflexivity].
    destruct (Page.workletNode page); reflexivity.
  - intros Hn [buffer Hb]. cbn [onmessage fst].
    rewrite (triggerVoice_loaded _ _ _ _ Hb). cbn [activeVoices set_activeVoices default].
    rewrite padSlot_padName by lia.
    replace (note - 47 - 1) with (note - 48) by lia. reflexivity.
Qed.

Lemma X14_midi_note_on_starts_a_pad_witness :
  let s :=
    (onmessage 48000 (newMainProcessor 48000)
       (LOAD_SAMPLE "pad13" [[1; 1; 1; 1]%float])).1 in
  let page := Page.mkPage true true 120 in
  let m := Midi.setNoteOnCallback Midi.newMidiManager in
  9 < 16 ∧
  Page.onmidimessage silentSin page m [144 + 9; 60; 127] 0
  = (m, [PLAY_SAMPLE "pad13" (Some 1%float)]) ∧
  activeVoices (onmessage 48000 s (PLAY_SAMPLE "pad13" (Some 1%float))).1
  = [mkVoice "pad13" 0 true 1 12].
Proof.
  cbv zeta.
  pose proof (X14_midi_note_on_starts_a_pad 48000 silentSin
                (Page.mkPage true true 120)
                (Midi.setNoteOnCallback Midi.newMidiManager)
                (onmessage 48000 (newMainProcessor 48000)
                   (LOAD_SAMPLE "pad13" [[1; 1; 1; 1]%float])).1
                9 60 127 [] 0 ltac:(lia)) as [H1 H2].
  split; [lia|]. split.
  - exact H1.
  - apply (H2 ltac:(lia)). vm_compute. eauto.
Defined.

(** X15. The manager listens on every channel: the low four bits of the
    status byte are masked away.  A note-on with velocity 0 counts as a
    note-off and calls nothing; note-off calls nothing; a control change
    calls the CC callback when one is set.  Any other status byte but the
    timing clock (aftertouch, program change, pitch bend, system messages)
    calls nothing, and so does a message of fewer than three bytes.  None
    of these touches the manager's clock state. *)
Theorem X15_midi_channel_is_ignored (Math_round : float → float)
    (m : Midi.MidiManager) (ch byte1 byte2 : nat) (more : list nat)
    (now : float) :
  ch < 16 →
  Midi.onMidiMessage Math_round m ((144 + ch) :: byte1 :: byte2 :: more) now
  = (m, if (0 <? byte2) && Midi.noteOnCallback m
        then [Midi.NoteOn byte1 byte2] else []) ∧
  Midi.onMidiMessage Math_round m ((128 + ch) :: byte1 :: byte2 :: more) now
  = (m, []) ∧
  Midi.onMidiMessage Math_round m ((176 + ch) :: byte1 :: byte2 :: more) now
  = (m, if Midi.ccCallback m then [Midi.Cc byte1 byte2] else []) ∧
  (∀ status : nat,
     160 ≤ status < 176 ∨ 192 ≤ status < 256 → status ≠ 248 →
     Midi.onMidiMessage Math_round m (status :: byte1 :: byte2 :: more) now
     = (m, [])) ∧
  (∀ (status : nat) (rest : list nat),
     status ≠ 248 → length rest < 2 →
     Midi.onMidiMessage Math_round m (status :: rest) now = (m, [])).
Proof.
  intros Hch.
  assert (Hdiv : ∀ hi, (16 * hi + ch) / 16 = hi)
    by (intros hi; symmetry; apply Nat.div_unique with ch; lia).
  split.
  { rewrite onMidiMessage_channel by lia.
    change 144 with (16 * 9). rewrite Hdiv.
    change (9 =? 9) with true. cbn [andb].
    destruct (0 <? byte2), (Midi.noteOnCallback m); reflexivity. }
  split.
  { rewrite onMidiMessage_channel by lia.
    change 128 with (16 * 8). rewrite Hdiv. reflexivity. }
  split.
  { rewrite onMidiMessage_channel by lia.
    change 176 with (16 * 11). rewrite Hdiv. reflexivity. }
  split.
  - intros status Hs H248.
    destruct (decide (status < 240)) as [Hlt|Hge].
    + rewrite onMidiMessage_channel by lia.
      assert (Hq : status / 16 = 10 ∨ 12 ≤ status / 16).
      { destruct Hs as [Hs|Hs].
        - left. symmetry. apply Nat.div_unique with (status - 160); lia.
        - right. apply Nat.div_le_lower_bound; lia. }
      rewrite (proj2 (Nat.eqb_neq (status / 16) 9)) by lia.
      rewrite (proj2 (Nat.eqb_neq (status / 16) 11)) by lia.
      reflexivity.
    + unfold Midi.onMidiMessage.
      rewrite (proj2 (Nat.eqb_neq status 248)) by lia.
      destruct ((status =? 250) || (status =? 251) || (status =? 252));
        [reflexivity|].
      replace (length (status :: byte1 :: byte2 :: more) <? 3) with false
        by (symmetry; apply Nat.ltb_ge; cbn [length]; lia).
      cbv zeta. rewrite status_mask by lia.
      assert (Hq : status / 16 = 15)
        by (symmetry; apply Nat.div_unique with (status - 240); lia).
      rewrite Hq. reflexivity.
  - intros status rest H248 Hlen. unfold Midi.onMidiMessage.
    rewrite (proj2 (Nat.eqb_neq status 248)) by lia.
    destruct ((status =? 250) || (status =? 251) || (status =? 252));
      [reflexivity|].
    replace (length (status :: rest) <? 3) with true
      by (symmetry; apply Nat.ltb_lt; cbn [length]; lia).
    reflexivity.
Qed.

Lemma X15_midi_channel_is_ignored_witness :
  9 < 16 ∧
  Midi.onMidiMessage silentSin (Midi.setNoteOnCallback Midi.newMidiManager)
    [144 + 9; 36; 0] 0
  = (Midi.setNoteOnCallback Midi.newMidiManager, []) ∧
  Midi.onMidiMessage silentSin (Midi.setNoteOnCallback Midi.newMidiManager)
    [144 + 9; 36; 64] 0
  = (Midi.setNoteOnCallback Midi.newMidiManager, [Midi.NoteOn 36 64]).
Proof.
  split; [lia|]. split.
  - exact (proj1 (X15_midi_channel_is_ignored silentSin
                    (Midi.setNoteOnCallback Midi.newMidiManager)
                    9 36 0 [] 0 ltac:(lia))).
  - exact (proj1 (X15_midi_channel_is_ignored silentSin
                    (Midi.setNoteOnCallback Midi.newMidiManager)
                    9 36 64 [] 0 ltac:(lia))).
Defined.

(** ** The tempo buttons *)

(** No number is both above 240 and below 40. *)
Lemma ltb_240_40 (x : float) :
  PrimFloat.ltb 240 x && PrimFloat.ltb x 40 = false.
Proof.
  rewrite !ltb_spec.
  assert (H240 : Prim2SF 240 = S754_finite false 8444249301319680 (-45))
    by reflexivity.
  assert (H40 : Prim2SF 40 = S754_finite false 5629499534213120 (-47))
    by reflexivity.
  rewrite H240, H40. clear H240 H40.
  destruct (Prim2SF x) as [[|]|[|]| |[|] mx ex]; try reflexivity.
  unfold SFltb, SFcompare.
  destruct (Z.compare_spec (-45) ex), (Z.compare_spec ex (-47));
    try reflexivity; try lia.
Qed.

(** X16. Whatever the tempo was and whatever is added to it, the tempo the
    page keeps after [updateBpm] is neither below 40 nor above 240; a sum
    that is neither is kept as it is.  With the worklet there, that tempo
    is posted as one SET_BPM, after which the worklet's [bpm] is the
    page's and its samples-per-beat is sampleRate * 60 over it; without
    the worklet nothing is posted. *)
Theorem X16_tempo_buttons_stay_in_range (sampleRate : float)
    (page : Page.Page) (delta : float) (s : MainProcessor) :
  let r := Page.updateBpm page delta in
  let sum := PrimFloat.add (Page.currentBpm page) delta in
  PrimFloat.ltb (Page.currentBpm r.1) 40 = false ∧
  PrimFloat.ltb 240 (Page.currentBpm r.1) = false ∧
  (PrimFloat.ltb sum 40 = false → PrimFloat.ltb 240 sum = false →
   Page.currentBpm r.1 = sum) ∧
  (PrimFloat.ltb sum 40 = true → Page.currentBpm r.1 = 40%float) ∧
  (PrimFloat.ltb 240 sum = true → Page.currentBpm r.1 = 240%float) ∧
  Page.isInitialized r.1 = Page.isInitialized page ∧
  r.2 = (if Page.workletNode page then [SET_BPM (Page.currentBpm r.1)]
         else []) ∧
  (let t := (onmessage sampleRate s (SET_BPM (Page.currentBpm r.1))).1 in
   bpm t = Page.currentBpm r.1 ∧
   samplesPerBeat t
   = PrimFloat.div (PrimFloat.mul sampleRate 60) (Page.currentBpm r.1)).
Proof.
  cbv zeta. unfold Page.updateBpm, Audio.setBpm. cbn [fst snd Page.currentBpm
    Page.isInitialized].
  set (sum := PrimFloat.add (Page.currentBpm page) delta).
  destruct (PrimFloat.ltb sum 40) eqn:E1.
  - change (PrimFloat.ltb 240 40) with false. cbv iota.
    change (PrimFloat.ltb 40 40) with false.
    repeat split; try reflexivity; try discriminate.
    intros E2.
    pose proof (ltb_240_40 sum) as Hx.
    rewrite E1, E2 in Hx. discriminate.
  - destruct (PrimFloat.ltb 240 sum) eqn:E2.
    + change (PrimFloat.ltb 240 40) with false.
      change (PrimFloat.ltb 240 240) with false.
      repeat split; try reflexivity; try discriminate.
    + repeat split; try reflexivity; try discriminate; assumption.
Qed.

(** ** The MIDI clock *)

Lemma calculateBpm_calls (Math_round : float → float) (m : Midi.MidiManager) :
  length (Midi.calculateBpm Math_round m) ≤ 1 ∧
  (length (Midi.tickIntervals m) < 24 → Midi.calculateBpm Math_round m = []) ∧
  (Midi.bpmCallback m = false → Midi.calculateBpm Math_round m = []) ∧
  Forall (fun call =>
            ∃ x, call = Midi.Bpm (Math_round x) ∧
                 PrimFloat.leb 30 x = true ∧ PrimFloat.leb x 300 = true)
    (Midi.calculateBpm Math_round m).
Proof.
  unfold Midi.calculateBpm.
  destruct (Nat.ltb_spec (length (Midi.tickIntervals m)) 24) as [Hl|Hl].
  { repeat split; auto. }
  cbv zeta.
  set (x := PrimFloat.div (Math_round _) 10).
  destruct (Midi.bpmCallback m).
  - destruct (PrimFloat.leb 30 x && PrimFloat.leb x 300) eqn:E.
    + apply andb_true_iff in E as [E1 E2].
      repeat split; try (cbn; lia); try discriminate.
      constructor; [|constructor]. exists x. auto.
    + repeat split; auto; intros; lia.
  - repeat split; auto; intros; lia.
Qed.

Lemma handleClockTick_step (Math_round : float → float)
    (m : Midi.MidiManager) (now : float) :
  (Midi.tickCount m = 0 → Midi.lastTickTime m = 0%float) →
  length (Midi.tickIntervals m) ≤ Midi.tickCount m - 1 →
  length (Midi.tickIntervals m) ≤ 24 →
  let r := Midi.handleClockTick Math_round m now in
  Midi.tickCount r.1 = S (Midi.tickCount m) ∧
  Midi.lastTickTime r.1 = now ∧
  Midi.noteOnCallback r.1 = Midi.noteOnCallback m ∧
  Midi.ccCallback r.1 = Midi.ccCallback m ∧
  Midi.bpmCallback r.1 = Midi.bpmCallback m ∧
  length (Midi.tickIntervals r.1) ≤ Midi.tickCount m ∧
  length (Midi.tickIntervals r.1) ≤ 24 ∧
  length r.2 ≤ 1 ∧
  (r.2 ≠ [] → S (Midi.tickCount m) mod 24 = 0 ∧ 48 ≤ S (Midi.tickCount m)) ∧
  (Midi.bpmCallback m = false → r.2 = []) ∧
  Forall (fun call =>
            ∃ x, call = Midi.Bpm (Math_round x) ∧
                 PrimFloat.leb 30 x = true ∧ PrimFloat.leb x 300 = true)
    r.2.
Proof.
  intros H0 Hlen H24. cbv zeta. unfold Midi.handleClockTick. cbv zeta.
  set (ti := if PrimFloat.ltb 0 (Midi.lastTickTime m) then _ else _).
  set (m1 := Midi.mkMidiManager _ _ _ _ _ ti).
  cbn [fst snd].
  assert (Hti : length ti ≤ Midi.tickCount m ∧ length ti ≤ 24).
  { unfold ti. destruct (PrimFloat.ltb 0 (Midi.lastTickTime m)) eqn:E.
    - assert (Hc : Midi.tickCount m ≠ 0).
      { intros Hc. rewrite (H0 Hc) in E. vm_compute in E. discriminate. }
      destruct (Nat.ltb_spec 24 (length (Midi.tickIntervals m ++ [PrimFloat.sub now (Midi.lastTickTime m)]))) as [Hp|Hp].
      + rewrite length_tl, last_length. lia.
      + rewrite last_length in *. lia.
    - lia. }
  destruct Hti as [Hti1 Hti2].
  change (Midi.tickCount m1) with (S (Midi.tickCount m)).
  destruct (calculateBpm_calls Math_round m1) as (Hc1 & Hc2 & Hc3 & Hc4).
  change (Midi.tickIntervals m1) with ti in Hc2.
  change (Midi.bpmCallback m1) with (Midi.bpmCallback m) in Hc3.
  do 7 (split; [first [reflexivity | assumption]|]).
  destruct (Nat.eqb_spec (S (Midi.tickCount m) mod 24) 0) as [Hm|Hm].
  - split; [exact Hc1|]. split; [|split; [exact Hc3|exact Hc4]].
    intros Hne. split; [exact Hm|].
    destruct (decide (48 ≤ S (Midi.tickCount m))) as [|Hs]; [assumption|].
    exfalso. apply Hne, Hc2.
    assert (S (Midi.tickCount m) = 24 ∨ S (Midi.tickCount m) < 24) as [Hx|Hx].
    { pose proof (Nat.div_mod_eq (S (Midi.tickCount m)) 24). lia. }
    + lia.
    + rewrite Nat.mod_small in Hm by lia. lia.
  - split; [cbn; lia|]. split; [intros Hne; contradiction|].
    split; [reflexivity|constructor].
Qed.

Lemma onMidiMessage_clock (Math_round : float → float)
    (m : Midi.MidiManager) (data : list nat) (now : float) :
  Midi.isTimingClock data = true →
  Midi.onMidiMessage Math_round m data now
  = Midi.handleClockTick Math_round m now.
Proof.
  destruct data as [|cmd rest]; [discriminate|]. cbn [Midi.isTimingClock].
  intros H. unfold Midi.onMidiMessage. rewrite H. reflexivity.
Qed.

Lemma onMidiMessage_other (Math_round : float → float)
    (m : Midi.MidiManager) (data : list nat) (now : float) :
  Midi.isTimingClock data = false →
  (Midi.onMidiMessage Math_round m data now).1 = m ∧
  Midi.bpmReports (Midi.onMidiMessage Math_round m data now).2 = [].
Proof.
  destruct data as [|cmd rest]; [split; reflexivity|].
  cbn [Midi.isTimingClock]. intros H. unfold Midi.onMidiMessage.
  rewrite H. cbv zeta.
  repeat match goal with
         | |- context [if ?b then _ else _] => destruct b
         end; split; reflexivity.
Qed.

Lemma onMidiMessages_clock (Math_round : float → float)
    (events : list (list nat * float)) (m : Midi.MidiManager) :
  (Midi.tickCount m = 0 → Midi.lastTickTime m = 0%float) →
  length (Midi.tickIntervals m) ≤ Midi.tickCount m - 1 →
  length (Midi.tickIntervals m) ≤ 24 →
  let r := Midi.onMidiMessages Math_round m events in
  Midi.tickCount r.1 = Midi.tickCount m + Midi.clockTicks events ∧
  Midi.bpmCallback r.1 = Midi.bpmCallback m ∧
  length (Midi.tickIntervals r.1) ≤ Midi.tickCount r.1 - 1 ∧
  length (Midi.tickIntervals r.1) ≤ 24 ∧
  length (Midi.bpmReports r.2) + Nat.max 1 (Midi.tickCount m / 24)
  ≤ Nat.max 1 (Midi.tickCount r.1 / 24) ∧
  (Midi.bpmCallback m = false → Midi.bpmReports r.2 = []) ∧
  Forall (fun call =>
            ∃ x, call = Midi.Bpm (Math_round x) ∧
                 PrimFloat.leb 30 x = true ∧ PrimFloat.leb x 300 = true)
    (Midi.bpmReports r.2).
Proof.
  cbv zeta. revert m.
  induction events as [|[data now] rest IH]; intros m H0 Hlen H24.
  { cbn [Midi.onMidiMessages fst snd]. unfold Midi.clockTicks, Midi.bpmReports.
    cbn. repeat split; auto; lia. }
  cbn [Midi.onMidiMessages].
  destruct (Midi.onMidiMessage Math_round m data now) as [m1 c1] eqn:E1.
  destruct (Midi.onMidiMessages Math_round m1 rest) as [m2 c2] eqn:E2.
  cbn [fst snd].
  unfold Midi.bpmReports. rewrite filter_app. fold (Midi.bpmReports c1).
  fold (Midi.bpmReports c2). rewrite length_app.
  unfold Midi.clockTicks in *. rewrite filter_cons. cbn [fst].
  destruct (Midi.isTimingClock data) eqn:Ed.
  - rewrite (onMidiMessage_clock _ _ _ _ Ed) in E1.
    pose proof (handleClockTick_step Math_round m now H0 Hlen H24) as Hs.
    cbv zeta in Hs. rewrite E1 in Hs. cbn [fst snd] in Hs.
    destruct Hs as (T1 & T2 & _ & _ & T3 & T4 & T5 & T6 & T7 & T8 & T9).
    specialize (IH m1 ltac:(lia) ltac:(lia) T5).
    rewrite E2 in IH. cbn [fst snd] in IH.
    destruct IH as (I1 & I2 & I3 & I4 & I5 & I6 & I7).
    rewrite decide_True by reflexivity. cbn [length].
    assert (Hb : length (Midi.bpmReports c1) ≤ length c1).
    { unfold Midi.bpmReports. apply length_filter. }
    assert (Hr : Midi.bpmReports c1 ≠ [] → c1 ≠ []).
    { intros Hn ->. apply Hn. reflexivity. }
    split; [lia|]. split; [congruence|]. split; [exact I3|].
    split; [exact I4|]. split.
    + assert (Hk : length (Midi.bpmReports c1)
                   + Nat.max 1 (Midi.tickCount m / 24)
                   ≤ Nat.max 1 (Midi.tickCount m1 / 24)).
      { rewrite T1.
        pose proof (Nat.div_mod_eq (Midi.tickCount m) 24).
        pose proof (Nat.div_mod_eq (S (Midi.tickCount m)) 24).
        pose proof (Nat.mod_upper_bound (Midi.tickCount m) 24 ltac:(lia)).
        pose proof (Nat.mod_upper_bound (S (Midi.tickCount m)) 24 ltac:(lia)).
        destruct (Midi.bpmReports c1) as [|call l] eqn:Eb.
        - cbn [length]. lia.
        - destruct (T7 (Hr ltac:(discriminate))) as [Hm H48].
          cbn [length] in *. lia. }
      lia.
    + split.
      * intros Hf. rewrite (T8 Hf). rewrite I6 by congruence. reflexivity.
      * apply Forall_app. split; [|exact I7].
        unfold Midi.bpmReports. apply Forall_forall. intros call Hin.
        apply list_elem_of_filter in Hin as [_ Hin].
        rewrite Forall_forall in T9. exact (T9 _ Hin).
  - destruct (onMidiMessage_other Math_round m data now Ed) as [O1 O2].
    rewrite E1 in O1, O2. cbn [fst snd] in O1, O2. subst m1.
    specialize (IH m H0 Hlen H24).
    rewrite E2 in IH. cbn [fst snd] in IH.
    rewrite decide_False by discriminate.
    rewrite O2. cbn [length app]. exact IH.
Qed.

(** X17. The tempo of an incoming MIDI clock.  Over any stream of MIDI
    messages to a new manager, with any callbacks set: the tick count is
    the number of timing-clock messages, whatever comes between them; the
    window holds at most 24 intervals, and fewer than the ticks seen; a
    tempo is reported at most once per 24 ticks and never for the first
    two dozen, so not before the 48th tick; nothing is reported without a
    BPM callback; and every tempo reported is [Math.round] of a value from
    30 to 300. *)
Theorem X17_midi_clock_reports (Math_round : float → float)
    (noteOn cc bpm : bool) (events : list (list nat * float)) :
  let r :=
    Midi.onMidiMessages Math_round
      (Midi.mkMidiManager noteOn cc bpm 0 0 []) events in
  Midi.tickCount r.1 = Midi.clockTicks events ∧
  length (Midi.tickIntervals r.1) ≤ 24 ∧
  length (Midi.tickIntervals r.1) ≤ Midi.clockTicks events - 1 ∧
  length (Midi.bpmReports r.2) ≤ Midi.clockTicks events / 24 - 1 ∧
  (bpm = false → Midi.bpmReports r.2 = []) ∧
  Forall (fun call =>
            ∃ x, call = Midi.Bpm (Math_round x) ∧
                 PrimFloat.leb 30 x = true ∧ PrimFloat.leb x 300 = true)
    (Midi.bpmReports r.2).
Proof.
  cbv zeta.
  destruct (onMidiMessages_clock Math_round events
              (Midi.mkMidiManager noteOn cc bpm 0 0 [])
              ltac:(reflexivity) ltac:(cbn; lia) ltac:(cbn; lia))
    as (I1 & I2 & I3 & I4 & I5 & I6 & I7).
  cbn [Midi.tickCount Midi.bpmCallback] in I1, I5, I6.
  rewrite Nat.add_0_l in I1. rewrite I1 in *.
  change (0 / 24) with 0 in I5.
  split; [reflexivity|]. split; [exact I4|]. split; [exact I3|].
  split; [lia|]. split; [exact I6|exact I7].
Qed.

(** A clock of 48 ticks 20 ms apart, read with a [Math.round] that has
    nothing to round: one report, 125 BPM, at the 48th tick. *)
Example midi_clock_at_125 :
  let events :=
    (fun k => ([248], Number_of_nat (20 * S k))) <$> seq 0 48 in
  (Midi.onMidiMessages (fun x => x)
     (Midi.setBpmCallback Midi.newMidiManager) (take 47 events)).2 = [] ∧
  (Midi.onMidiMessages (fun x => x)
     (Midi.setBpmCallback Midi.newMidiManager) events).2 = [Midi.Bpm 125].
Proof. cbv zeta. split; vm_compute; reflexivity. Qed.
